(** * criaterm: colours, styles, formatted strings, the character grid and
      the key decoder of [criaterm.py], embedded and verified.

    Python values are modelled as follows.
    - [int] is [Z]; [bool] is [bool].
    - [str] is a list of Unicode code points ([N]); [len] is the list length.
    - A raised exception is the [Raise] branch of [result].
    - A Python [list] is a Rocq [list]; indexing goes through [py_get] and
      [py_set], which implement negative indices and [IndexError]. *)

From Stdlib Require Import ZArith NArith List Bool Lia.
From Stdlib Require Import String Ascii DecimalString.
From stdpp Require Import base decidable option list numbers.
Import ListNotations.
Local Open Scope Z_scope.

(** ** Python strings *)

Definition char := N.
Definition str := list char.

(** A string literal of the source, as code points. *)
Definition lit (s : string) : str := map N_of_ascii (list_ascii_of_string s).

(** [str(n)] / [f'{n}'] for an [int]. *)
Definition str_of_int (z : Z) : str := lit (NilZero.string_of_int (Z.to_int z)).

(** [len(x)] as a Python [int]. *)
Definition len {A} (l : list A) : Z := Z.of_nat (length l).

(** [sep.join(l)]. *)
Fixpoint join (sep : str) (l : list str) : str :=
  match l with
  | [] => []
  | [x] => x
  | x :: rest => x ++ sep ++ join sep rest
  end.

(** ** Exceptions *)

Inductive exn :=
| IndexError
| AssertionError
| TypeError
| ValueError (msg : str).

Inductive result (A : Type) :=
| Ok (a : A)
| Raise (e : exn).
Arguments Ok {A} a.
Arguments Raise {A} e.

Definition bind {A B} (m : result A) (k : A -> result B) : result B :=
  match m with
  | Ok a => k a
  | Raise e => Raise e
  end.

Notation "'do' x <- m ; k" := (bind m (fun x => k))
  (at level 10, x pattern, m at level 100, k at level 200).

(** [assert b]. *)
Definition py_assert (b : bool) : result unit :=
  if b then Ok tt else Raise AssertionError.

(** ** Python list indexing *)

(** The position a (possibly negative) index denotes, when in range. *)
Definition py_index {A} (l : list A) (i : Z) : option nat :=
  let j := if i <? 0 then i + len l else i in
  if (0 <=? j) && (j <? len l) then Some (Z.to_nat j) else None.

(** [l[i]]. *)
Definition py_get {A} (l : list A) (i : Z) : result A :=
  match py_index l i with
  | Some n => match l !! n with Some x => Ok x | None => Raise IndexError end
  | None => Raise IndexError
  end.

(** [l[i] = x]. *)
Definition py_set {A} (l : list A) (i : Z) (x : A) : result (list A) :=
  match py_index l i with
  | Some n => Ok (<[n := x]> l)
  | None => Raise IndexError
  end.

(** Normalisation of one bound of a slice over a sequence of [n] items:
    [None] takes the default, a negative bound counts from the end, and the
    result is clamped to [lower, upper]. *)
Definition clamp_bound (b : option Z) (dflt lower upper n : Z) : Z :=
  match b with
  | None => dflt
  | Some v => if v <? 0 then Z.max (v + n) lower else Z.min v upper
  end.

(** [slice(start, stop, step).indices(n)] for [n >= 0]. *)
Definition slice_indices (start stop step : option Z) (n : Z)
  : result (Z * Z * Z) :=
  let step := match step with Some k => k | None => 1 end in
  if step =? 0 then Raise (ValueError (lit "slice step cannot be zero"))
  else
    let lower := if step <? 0 then -1 else 0 in
    let upper := if step <? 0 then n - 1 else n in
    Ok (clamp_bound start (if step <? 0 then upper else lower) lower upper n,
        clamp_bound stop (if step <? 0 then lower else upper) lower upper n,
        step).

(** [l[start:stop]] on a sequence (stride 1). *)
Definition py_slice {A} (l : list A) (start stop : option Z) : list A :=
  let n := len l in
  let a := clamp_bound start 0 0 n n in
  let b := clamp_bound stop n 0 n n in
  take (Z.to_nat (b - a)) (drop (Z.to_nat a) l).

(** A loop that threads a state through a list and stops at the first
    exception. *)
Fixpoint foldM {S A} (f : S -> A -> result S) (l : list A) (s : S)
  : result S :=
  match l with
  | [] => Ok s
  | a :: rest => do s' <- f s a; foldM f rest s'
  end.

(** ** Colours *)

Inductive NamedColor :=
| BLACK | RED | GREEN | YELLOW | BLUE | MAGENTA | CYAN | WHITE
| DEFAULT
| BRIGHT_BLACK | BRIGHT_RED | BRIGHT_GREEN | BRIGHT_YELLOW
| BRIGHT_BLUE | BRIGHT_MAGENTA | BRIGHT_CYAN | BRIGHT_WHITE.

Module NamedColor.
(** The [fg] attribute set by [NamedColor.__init__]. *)
Definition fg (c : NamedColor) : Z :=
  match c with
  | BLACK => 30 | RED => 31 | GREEN => 32 | YELLOW => 33
  | BLUE => 34 | MAGENTA => 35 | CYAN => 36 | WHITE => 37
  | DEFAULT => 39
  | BRIGHT_BLACK => 90 | BRIGHT_RED => 91 | BRIGHT_GREEN => 92
  | BRIGHT_YELLOW => 93 | BRIGHT_BLUE => 94 | BRIGHT_MAGENTA => 95
  | BRIGHT_CYAN => 96 | BRIGHT_WHITE => 97
  end.

(** The [bg] attribute set by [NamedColor.__init__]. *)
Definition bg (c : NamedColor) : Z :=
  match c with
  | BLACK => 40 | RED => 41 | GREEN => 42 | YELLOW => 43
  | BLUE => 44 | MAGENTA => 45 | CYAN => 46 | WHITE => 47
  | DEFAULT => 49
  | BRIGHT_BLACK => 100 | BRIGHT_RED => 101 | BRIGHT_GREEN => 102
  | BRIGHT_YELLOW => 43 | BRIGHT_BLUE => 104 | BRIGHT_MAGENTA => 105
  | BRIGHT_CYAN => 106 | BRIGHT_WHITE => 107
  end.

(** The members the source names [BRIGHT_...]. *)
Definition is_bright (c : NamedColor) : bool :=
  match c with
  | BRIGHT_BLACK | BRIGHT_RED | BRIGHT_GREEN | BRIGHT_YELLOW
  | BRIGHT_BLUE | BRIGHT_MAGENTA | BRIGHT_CYAN | BRIGHT_WHITE => true
  | _ => false
  end.
End NamedColor.

(** [check_invalid_byte]: the function *returns* the [ValueError] object for
    an out-of-range value and returns [None] otherwise; it raises nothing. *)
Definition check_invalid_byte (tag : str) (value : Z) : result (option exn) :=
  if negb ((0 <=? value) && (value <=? 255)) then
    Ok (Some (ValueError (lit "Invalid " ++ tag ++ lit " value (" ++
                          str_of_int value ++
                          lit "), must in range from 0 to 255.")))
  else Ok None.

Record RgbColor := mkRgbColor { red : Z; green : Z; blue : Z }.
Record FixedColor := mkFixedColor { fixed_value : Z }.

Module RgbColor.
(** [__post_init__]: the three results are discarded. *)
Definition post_init (self : RgbColor) : result unit :=
  do _ <- check_invalid_byte (lit "red") (red self);
  do _ <- check_invalid_byte (lit "green") (green self);
  do _ <- check_invalid_byte (lit "blue") (blue self);
  Ok tt.

(** [RgbColor(r, g, b)]: the dataclass constructor, then [__post_init__]. *)
Definition new (r g b : Z) : result RgbColor :=
  let self := mkRgbColor r g b in
  do _ <- post_init self;
  Ok self.
End RgbColor.

Module FixedColor.
Definition post_init (self : FixedColor) : result unit :=
  do _ <- check_invalid_byte (lit "fixed color") (fixed_value self);
  Ok tt.

Definition new (v : Z) : result FixedColor :=
  let self := mkFixedColor v in
  do _ <- post_init self;
  Ok self.
End FixedColor.

(** [Color] wraps one of the three colour values. *)
Inductive Color :=
| Named (c : NamedColor)
| Fixed (c : FixedColor)
| Rgb (c : RgbColor).

(** [rgb(r, g, b)]. *)
Definition rgb (r g b : Z) : result Color :=
  do c <- RgbColor.new r g b; Ok (Rgb c).

(** [fixed(color)]. *)
Definition fixed (color : Z) : result Color :=
  do c <- FixedColor.new color; Ok (Fixed c).

Module Color.
Definition fg_sgr (self : Color) : str :=
  match self with
  | Named c =>
      match c with
      | DEFAULT => []
      | _ => str_of_int (NamedColor.fg c)
      end
  | Fixed c => lit "38;5;" ++ str_of_int (fixed_value c)
  | Rgb c => lit "38;2;" ++ str_of_int (red c) ++ lit ";" ++
             str_of_int (green c) ++ lit ";" ++ str_of_int (blue c)
  end.

Definition bg_sgr (self : Color) : str :=
  match self with
  | Named c =>
      match c with
      | DEFAULT => []
      | _ => str_of_int (NamedColor.bg c)
      end
  | Fixed c => lit "48;5;" ++ str_of_int (fixed_value c)
  | Rgb c => lit "48;2;" ++ str_of_int (red c) ++ lit ";" ++
             str_of_int (green c) ++ lit ";" ++ str_of_int (blue c)
  end.
End Color.

#[global] Instance NamedColor_eq_dec : EqDecision NamedColor.
Proof. solve_decision. Defined.
#[global] Instance RgbColor_eq_dec : EqDecision RgbColor.
Proof. solve_decision. Defined.
#[global] Instance FixedColor_eq_dec : EqDecision FixedColor.
Proof. solve_decision. Defined.
#[global] Instance Color_eq_dec : EqDecision Color.
Proof. solve_decision. Defined.

(** ** Styles *)

Record Style := mkStyle {
  fg : option Color;
  bg : option Color;
  bold : bool;
  italic : bool;
  underline : bool;
  blink : bool;
  reverse : bool;
  strikethrough : bool
}.

#[global] Instance Style_eq_dec : EqDecision Style.
Proof. solve_decision. Defined.

(** [Style()]. *)
Definition default : Style :=
  mkStyle None None false false false false false false.

Module Style.
(** [dataclasses.replace(style, fg=c)]. *)
Definition replace_fg (s : Style) (c : Color) : Style :=
  mkStyle (Some c) (bg s) (bold s) (italic s) (underline s) (blink s)
          (reverse s) (strikethrough s).

(** [dataclasses.replace(style, bg=c)]. *)
Definition replace_bg (s : Style) (c : Color) : Style :=
  mkStyle (fg s) (Some c) (bold s) (italic s) (underline s) (blink s)
          (reverse s) (strikethrough s).

Definition update (self other : Style) : Style :=
  let style := self in
  let style := match fg other with
               | Some c => replace_fg style c
               | None => style
               end in
  let style := match bg other with
               | Some c => replace_bg style c
               | None => style
               end in
  mkStyle (fg style) (bg style)
          (bold style || bold other)
          (italic style || italic other)
          (underline style || underline other)
          (blink style || blink other)
          (reverse style || reverse other)
          (strikethrough style || strikethrough other).

(** [filter(None, codes)]: the non-empty strings. *)
Definition nonempty_codes (codes : list str) : list str :=
  filter (fun c => c <> []) codes.

Definition sgr (self : Style) : str :=
  let bold := if bold self then lit "1" else [] in
  let italic := if italic self then lit "3" else [] in
  let underline := if underline self then lit "4" else [] in
  let blink := if blink self then lit "5" else [] in
  let reverse := if reverse self then lit "7" else [] in
  let strikethrough := if strikethrough self then lit "9" else [] in
  let fg := match fg self with Some c => Color.fg_sgr c | None => [] end in
  let bg := match bg self with Some c => Color.bg_sgr c | None => [] end in
  let codes := [bold; italic; underline; blink;
                reverse; strikethrough; fg; bg] in
  join (lit ";") (nonempty_codes codes).
End Style.

(** [on(color)]. *)
Definition on (color : Color) : Style :=
  mkStyle None (Some color) false false false false false false.

(** ** Formatted strings *)

Record cstr := mkcstr { value : str; style : Style }.

#[global] Instance cstr_eq_dec : EqDecision cstr.
Proof. solve_decision. Defined.

Inductive color_or_style :=
| IsColor (c : Color)
| IsStyle (s : Style).

Module cstr.
(** [cstr()]: the empty string in the default style. *)
Definition empty : cstr := mkcstr [] default.

(** [cstr(s)]. *)
Definition of_str (s : str) : cstr := mkcstr s default.

Definition truediv (self : cstr) (cs : color_or_style) : cstr :=
  match cs with
  | IsColor c => mkcstr (value self) (Style.replace_fg (style self) c)
  | IsStyle s => mkcstr (value self) (Style.update (style self) s)
  end.

(** [self[start:stop]]. *)
Definition getitem (self : cstr) (start stop : option Z) : cstr :=
  mkcstr (py_slice (value self) start stop) (style self).

Definition __len__ (self : cstr) : Z := len (value self).
End cstr.

Record AnsiStr := mkAnsiStr { data : list cstr; length : Z }.

#[global] Instance AnsiStr_eq_dec : EqDecision AnsiStr.
Proof. solve_decision. Defined.

(** An argument of the constructor: [str | cstr | AnsiStr]. *)
Inductive arg :=
| AStr (s : str)
| ACstr (c : cstr)
| AAnsi (a : AnsiStr).

Module AnsiStr.
(** [len(self)] calls [__len__], which returns the cached length;
    Python rejects a negative one. *)
Definition __len__ (self : AnsiStr) : result Z :=
  if length self <? 0
  then Raise (ValueError (lit "__len__() should return >= 0"))
  else Ok (length self).

(** [len(s)] for a constructor argument. *)
Definition arg_len (s : arg) : result Z :=
  match s with
  | AStr s => Ok (len s)
  | ACstr c => Ok (cstr.__len__ c)
  | AAnsi a => __len__ a
  end.

(** The end of an iteration of [__init__] for a [str] or a [cstr]:
    [data.append(c)], then the merge of the last two items when they have
    the same style. *)
Definition append_run (data0 : list cstr) (length1 : Z) (c : cstr)
  : result (list cstr * Z) :=
  let data1 := data0 ++ [c] in
  if len data1 =? 1 then Ok (data1, length1)
  else
    do d1 <- py_get data1 (-1);
    do d2 <- py_get data1 (-2);
    if decide (style d1 = style d2) then
      do data2 <- py_set data1 (-2)
                    (mkcstr (value d2 ++ value d1) (style d2));
      Ok (removelast data2, length1)
    else Ok (data1, length1).

(** One iteration of the loop of [__init__] over the state
    [(data, length)]. *)
Definition init_step (st : list cstr * Z) (s : arg)
  : result (list cstr * Z) :=
  let '(data0, length0) := st in
  do n <- arg_len s;
  if n =? 0 then Ok (data0, length0)
  else
    match s with
    | AAnsi s =>
        let length1 := length0 + length s in
        if len data0 =? 0 then Ok (data0 ++ data s, length1)
        else
          do last <- py_get data0 (-1);
          do first <- py_get (data s) 0;
          if decide (style last = style first) then
            do data1 <- py_set data0 (-1)
                          (mkcstr (value last ++ value first) (style last));
            Ok (data1 ++ py_slice (data s) (Some 1) None, length1)
          else Ok (data0 ++ data s, length1)
    | ACstr c => append_run data0 (length0 + n) c
    | AStr s => append_run data0 (length0 + n) (cstr.of_str s)
    end.

(** The constructor [AnsiStr], applied to the arguments [strs]. *)
Definition init (strs : list arg) : result AnsiStr :=
  do st <- foldM init_step strs ([], 0);
  Ok (mkAnsiStr (fst st) (snd st)).

(** [content()]. *)
Definition content (self : AnsiStr) : str :=
  fold_left (fun r s => r ++ value s) (data self) [].

(** The first loop of [__getitem__]: skip the runs that end before
    [start]. The index [i] of the source is the suffix of [data] left. *)
Fixpoint skip_runs (data0 : list cstr) (start stop : Z)
  : list cstr * Z * Z :=
  match data0 with
  | [] => ([], start, stop)
  | c :: rest =>
      if start - cstr.__len__ c >? 0
      then skip_runs rest (start - cstr.__len__ c) (stop - cstr.__len__ c)
      else (data0, start, stop)
  end.

(** The second loop of [__getitem__]: slice the runs that overlap
    [start, stop). *)
Fixpoint collect_runs (data0 : list cstr) (start stop : Z) : list cstr :=
  match data0 with
  | [] => []
  | c :: rest =>
      if stop >? 0
      then cstr.getitem c (Some (Z.max 0 start)) (Some stop)
           :: collect_runs rest (start - cstr.__len__ c) (stop - cstr.__len__ c)
      else []
  end.

(** The index of [__getitem__]: an [int] or a [slice]. *)
Inductive index :=
| IInt (i : Z)
| ISlice (start stop step : option Z).

(** The [start, stop, stride] that [__getitem__] computes from its index
    and [alen]. *)
Definition index_bounds (idx : index) (alen : Z) : result (Z * Z * Z) :=
  match idx with
  | IInt i =>
      if i =? -1 then slice_indices (Some (-1)) None None alen
      else slice_indices (Some i) (Some (i + 1)) None alen
  | ISlice a b s => slice_indices a b s alen
  end.

Definition getitem (self : AnsiStr) (idx : index) : result AnsiStr :=
  do alen <- __len__ self;
  do bounds <- index_bounds idx alen;
  let '(start, stop, stride) := bounds in
  do _ <- py_assert (stride =? 1);
  if start >=? stop then init []
  else
    let '(rest, start1, stop1) := skip_runs (data self) start stop in
    init (map ACstr (collect_runs rest start1 stop1)).

(** [self + s]. *)
Definition add (self : AnsiStr) (s : arg) : result AnsiStr :=
  init [AAnsi self; s].

(** [s + self] for a [str]. *)
Definition radd (self : AnsiStr) (s : str) : result AnsiStr :=
  init [AStr s; AAnsi self].

(** [self / color_or_style]. *)
Definition truediv (self : AnsiStr) (cs : color_or_style)
  : result AnsiStr :=
  init (map (fun s => ACstr (cstr.truediv s cs)) (data self)).

(** The loop of [__mul__], [k] iterations left. *)
Fixpoint mul_loop (self : AnsiStr) (k : nat) (s : AnsiStr)
  : result AnsiStr :=
  match k with
  | O => Ok s
  | S k' =>
      do s' <- init (map ACstr (data s ++ data self));
      mul_loop self k' s'
  end.

(** [self * n]. *)
Definition mul (self : AnsiStr) (n : Z) : result AnsiStr :=
  do s <- init [];
  mul_loop self (Z.to_nat n) s.
End AnsiStr.

(** [s / color] and [s / style] for a [str]. *)
Definition str_truediv (s : str) (cs : color_or_style) : result AnsiStr :=
  match cs with
  | IsColor c =>
      AnsiStr.init
        [ACstr (mkcstr s (mkStyle (Some c) None false false false false
                                  false false))]
  | IsStyle st => AnsiStr.init [ACstr (mkcstr s st)]
  end.

(** ** Display width of a character *)

(** [ord(ch)]: defined on strings of exactly one code point. *)
Definition ord (ch : str) : result N :=
  match ch with
  | [c] => Ok c
  | _ => Raise TypeError
  end.

(** The inclusive code point ranges of wide characters. *)
Definition WIDE : list (N * N) :=
  [
   (0x1100, 0x115f); (0x231a, 0x231b); (0x2329, 0x232a);
   (0x23e9, 0x23ec); (0x23f0, 0x23f0); (0x23f3, 0x23f3);
   (0x25fd, 0x25fe); (0x2614, 0x2615); (0x2648, 0x2653);
   (0x267f, 0x267f); (0x2693, 0x2693); (0x26a1, 0x26a1);
   (0x26aa, 0x26ab); (0x26bd, 0x26be); (0x26c4, 0x26c5);
   (0x26ce, 0x26ce); (0x26d4, 0x26d4); (0x26ea, 0x26ea);
   (0x26f2, 0x26f3); (0x26f5, 0x26f5); (0x26fa, 0x26fa);
   (0x26fd, 0x26fd); (0x2705, 0x2705); (0x270a, 0x270b);
   (0x2728, 0x2728); (0x274c, 0x274c); (0x274e, 0x274e);
   (0x2753, 0x2755); (0x2757, 0x2757); (0x2795, 0x2797);
   (0x27b0, 0x27b0); (0x27bf, 0x27bf); (0x2b1b, 0x2b1c);
   (0x2b50, 0x2b50); (0x2b55, 0x2b55); (0x2e80, 0x2e99);
   (0x2e9b, 0x2ef3); (0x2f00, 0x2fd5); (0x2ff0, 0x3029);
   (0x3030, 0x303e); (0x3041, 0x3096); (0x309b, 0x30ff);
   (0x3105, 0x312f); (0x3131, 0x318e); (0x3190, 0x31e3);
   (0x31ef, 0x321e); (0x3220, 0x3247); (0x3250, 0x4dbf);
   (0x4e00, 0xa48c); (0xa490, 0xa4c6); (0xa960, 0xa97c);
   (0xac00, 0xd7a3); (0xf900, 0xfaff); (0xfe10, 0xfe19);
   (0xfe30, 0xfe52); (0xfe54, 0xfe66); (0xfe68, 0xfe6b);
   (0xff01, 0xff60); (0xffe0, 0xffe6); (0x16fe0, 0x16fe3);
   (0x17000, 0x187f7); (0x18800, 0x18cd5); (0x18d00, 0x18d08);
   (0x1aff0, 0x1aff3); (0x1aff5, 0x1affb); (0x1affd, 0x1affe);
   (0x1b000, 0x1b122); (0x1b132, 0x1b132); (0x1b150, 0x1b152);
   (0x1b155, 0x1b155); (0x1b164, 0x1b167); (0x1b170, 0x1b2fb);
   (0x1f004, 0x1f004); (0x1f0cf, 0x1f0cf); (0x1f18e, 0x1f18e);
   (0x1f191, 0x1f19a); (0x1f200, 0x1f202); (0x1f210, 0x1f23b);
   (0x1f240, 0x1f248); (0x1f250, 0x1f251); (0x1f260, 0x1f265);
   (0x1f300, 0x1f320); (0x1f32d, 0x1f335); (0x1f337, 0x1f37c);
   (0x1f37e, 0x1f393); (0x1f3a0, 0x1f3ca); (0x1f3cf, 0x1f3d3);
   (0x1f3e0, 0x1f3f0); (0x1f3f4, 0x1f3f4); (0x1f3f8, 0x1f3fa);
   (0x1f400, 0x1f43e); (0x1f440, 0x1f440); (0x1f442, 0x1f4fc);
   (0x1f4ff, 0x1f53d); (0x1f54b, 0x1f54e); (0x1f550, 0x1f567);
   (0x1f57a, 0x1f57a); (0x1f595, 0x1f596); (0x1f5a4, 0x1f5a4);
   (0x1f5fb, 0x1f64f); (0x1f680, 0x1f6c5); (0x1f6cc, 0x1f6cc);
   (0x1f6d0, 0x1f6d2); (0x1f6d5, 0x1f6d7); (0x1f6dc, 0x1f6df);
   (0x1f6eb, 0x1f6ec); (0x1f6f4, 0x1f6fc); (0x1f7e0, 0x1f7eb);
   (0x1f7f0, 0x1f7f0); (0x1f90c, 0x1f93a); (0x1f93c, 0x1f945);
   (0x1f947, 0x1f9ff); (0x1fa70, 0x1fa7c); (0x1fa80, 0x1fa88);
   (0x1fa90, 0x1fabd); (0x1fabf, 0x1fac5); (0x1face, 0x1fadb);
   (0x1fae0, 0x1fae8); (0x1faf0, 0x1faf8); (0x20000, 0x2fffd);
   (0x30000, 0x3fffd)
  ]%N.

(** [_wcwidth(ch)]. *)
Definition _wcwidth (ch : str) : result Z :=
  if len ch =? 0 then Ok 0
  else
    do ucs <- ord ch;
    if ((32 <=? ucs) && (ucs <? 0x7f))%N then Ok 1
    else if ((ucs <? 32) || ((0x7f <=? ucs) && (ucs <? 0xa0)))%N then Ok (-1)
    else if existsb (fun r => ((fst r <=? ucs) && (ucs <=? snd r))%N) WIDE
         then Ok 2
         else Ok 1.

(** [wcwidth(s)] on a [str] or on the value of a [cstr]. *)
Definition wcwidth (s : str) : result Z := _wcwidth s.

(** ** The character grid *)

(** A cell: [cstr | None]. *)
Definition cell := option cstr.

Record CharGrid := mkCharGrid { lines : list (list cell) }.

(** What can be put on the grid: [str | AnsiStr]. *)
Inductive text :=
| TStr (s : str)
| TAnsi (a : AnsiStr).

Module CharGrid.
(** [CharGrid()]. *)
Definition new : CharGrid := mkCharGrid [].

(** [len(s)]. *)
Definition text_len (s : text) : result Z :=
  match s with
  | TStr s => Ok (len s)
  | TAnsi a => AnsiStr.__len__ a
  end.

(** [while len(l) <= n: l.append(x)]. *)
Definition grow {A} (l : list A) (n : Z) (x : A) : list A :=
  l ++ replicate (Z.to_nat (n + 1 - len l)) x.

(** The cell made from [s[i]]: [cstr(s[i])] for a [str], [s[i].data[0]]
    for an [AnsiStr]. *)
Definition char_at (s : text) (i : Z) : result cstr :=
  match s with
  | TStr s => do c <- py_get s i; Ok (cstr.of_str [c])
  | TAnsi a => do r <- AnsiStr.getitem a (AnsiStr.IInt i); py_get (data r) 0
  end.

(** [range(n)]. *)
Definition range (n : Z) : list Z := map Z.of_nat (seq 0 (Z.to_nat n)).

(** The body of the loop of [__setitem__] for the indices [idxs], on the
    state [(line, dest)]. *)
Fixpoint put_chars (s : text) (idxs : list Z) (line : list cell) (dest : Z)
  : result (list cell * Z) :=
  match idxs with
  | [] => Ok (line, dest)
  | i :: rest =>
      do ch <- char_at s i;
      do line1 <- py_set line dest (Some ch);
      do w <- wcwidth (value ch);
      if w =? 2 then
        do line2 <- py_set line1 (dest + 1) (Some cstr.empty);
        put_chars s rest line2 (dest + 1 + 1)
      else put_chars s rest line1 (dest + 1)
  end.

(** [self[lin, col] = s]. *)
Definition setitem (self : CharGrid) (lin col : Z) (s : text)
  : result CharGrid :=
  do n <- text_len s;
  if n =? 0 then Ok self
  else
    do _ <- py_assert (0 <=? lin);
    do _ <- py_assert (0 <=? col);
    let lines1 := grow (lines self) lin [] in
    do line0 <- py_get lines1 lin;
    let line1 := grow line0 (col + n) None in
    do c <- py_get line1 col;
    do line2 <- (if decide (c = Some cstr.empty)
                 then py_set line1 (col - 1) (Some (cstr.of_str (lit " ")))
                 else Ok line1);
    do st <- put_chars s (range n) line2 col;
    let '(line3, dest) := st in
    do line4 <- (if dest <? len line3 then
                   do d <- py_get line3 dest;
                   if decide (d = Some cstr.empty)
                   then py_set line3 dest (Some (cstr.of_str (lit " ")))
                   else Ok line3
                 else Ok line3);
    do lines2 <- py_set lines1 lin line4;
    Ok (mkCharGrid lines2).

(** The loop of [width()] over one line, from its last cell backwards:
    [seen] is the line reversed, the result is [last + 1]. *)
Fixpoint scan_back (seen : list cell) : Z :=
  match seen with
  | None :: rest => scan_back rest
  | _ => len seen
  end.

(** [width()]. *)
Definition width (self : CharGrid) : Z :=
  fold_left (fun w line => Z.max w (scan_back (rev line))) (lines self) 0.

(** The string [print_content] builds for one line. *)
Definition row_content (w : Z) (line : list cell) : str :=
  fold_left
    (fun s i =>
       if i >=? len line then s ++ lit " "
       else match py_get line i with
            | Ok (Some ch) => s ++ value ch
            | _ => s ++ lit " "
            end)
    (range w) [].

(** [print_content()]: the strings printed, one per line (each is shown
    through [repr]). *)
Definition print_content (self : CharGrid) : list str :=
  map (row_content (width self)) (lines self).
End CharGrid.

(** ** Terminal input *)

Inductive SpecialKey :=
| ESC
| CRTL_C | TAB | ENTER | BACKSPACE
| UP | DOWN | RIGHT | LEFT
| HOME | INSERT | DEL | END | PGUP | PGDOWN
| F1 | F2 | F3 | F4 | F5 | F6 | F7 | F8 | F9 | F10 | F11 | F12
| CRTL_UP | CRTL_DOWN | CRTL_RIGHT | CRTL_LEFT
| CRTL_HOME | CRTL_INSERT | CRTL_DEL | CRTL_END | CRTL_PGUP | CRTL_PGDOWN.

(** What [read] returns: a [str] (the empty string for no key) or a
    [SpecialKey]. *)
Inductive key :=
| KStr (s : str)
| KSpecial (k : SpecialKey).

Module SpecialKey.
(** The [seqs] attribute of each member. *)
Definition seqs (k : SpecialKey) : list str :=
  match k with
  | ESC => []
  | CRTL_C => [[3%N]]
  | TAB => [[9%N]]
  | ENTER => [[10%N]]
  | BACKSPACE => [[127%N]]
  | UP => [lit "[A"; lit "OA"]
  | DOWN => [lit "[B"; lit "OB"]
  | RIGHT => [lit "[C"; lit "OC"]
  | LEFT => [lit "[D"; lit "OD"]
  | HOME => [lit "[H"; lit "OH"; lit "[1~"]
  | INSERT => [lit "[2~"]
  | DEL => [lit "[3~"]
  | END => [lit "[F"; lit "OF"; lit "[4~"]
  | PGUP => [lit "[5~"]
  | PGDOWN => [lit "[6~"]
  | F1 => [lit "OP"]
  | F2 => [lit "OQ"]
  | F3 => [lit "OR"]
  | F4 => [lit "OS"]
  | F5 => [lit "[15~"]
  | F6 => [lit "[17~"]
  | F7 => [lit "[18~"]
  | F8 => [lit "[19~"]
  | F9 => [lit "[20~"]
  | F10 => [lit "[21~"]
  | F11 => [lit "[23~"]
  | F12 => [lit "[24~"]
  | CRTL_UP => [lit "[1;5A"]
  | CRTL_DOWN => [lit "[1;5B"]
  | CRTL_RIGHT => [lit "[1;5C"]
  | CRTL_LEFT => [lit "[1;5D"]
  | CRTL_HOME => [lit "[1;5H"]
  | CRTL_INSERT => [lit "[2;5~"]
  | CRTL_DEL => [lit "[3;5~"]
  | CRTL_END => [lit "[1;5F"]
  | CRTL_PGUP => [lit "[6;5~"]
  | CRTL_PGDOWN => [lit "[5;5~"]
  end.

(** The members in definition order, as [for key in SpecialKey] visits
    them. *)
Definition members : list SpecialKey :=
  [ESC; CRTL_C; TAB; ENTER; BACKSPACE; UP; DOWN; RIGHT; LEFT;
   HOME; INSERT; DEL; END; PGUP; PGDOWN;
   F1; F2; F3; F4; F5; F6; F7; F8; F9; F10; F11; F12;
   CRTL_UP; CRTL_DOWN; CRTL_RIGHT; CRTL_LEFT;
   CRTL_HOME; CRTL_INSERT; CRTL_DEL; CRTL_END; CRTL_PGUP; CRTL_PGDOWN].

(** [x in l] for strings. *)
Definition str_in (x : str) (l : list str) : bool :=
  existsb (fun y => bool_decide (x = y)) l.

(** The loop of [get] over the members left to visit. *)
Fixpoint get_from (keys : list SpecialKey) (seq : str) : key :=
  match keys with
  | [] => KStr []
  | k :: rest => if str_in seq (seqs k) then KSpecial k else get_from rest seq
  end.

(** [SpecialKey.get(seq)]. *)
Definition get (seq : str) : key := get_from members seq.
End SpecialKey.

(** The pending input: the characters the next calls of [next()] return,
    one per call; once it is used up, [next()] returns the empty string. *)
Definition source := list char.

(** [next()]. *)
Definition next (src : source) : str * source :=
  match src with
  | [] => ([], [])
  | c :: rest => ([c], rest)
  end.

Section Decoder.
(** [str.isdigit] on a code point outside ASCII; the Unicode tables are not
    part of the source. *)
Variable unicode_isdigit : char -> bool.

Definition char_isdigit (c : char) : bool :=
  if (c <? 128)%N then ((48 <=? c) && (c <=? 57))%N else unicode_isdigit c.

(** [ch.isdigit()]. *)
Definition isdigit (ch : str) : bool :=
  match ch with
  | [] => false
  | _ => forallb char_isdigit ch
  end.

(** [while (ch := next()).isdigit(): seq += ch], giving the final
    [seq], the character that ended the loop and the input left. *)
Fixpoint read_digits (src : source) (seq : str) : str * str * source :=
  match src with
  | [] => (seq, [], [])
  | c :: rest =>
      if isdigit [c] then read_digits rest (seq ++ [c])
      else (seq, [c], rest)
  end.

(** [_read(next)]: the key read and the input left. *)
Definition _read (src : source) : result (key * source) :=
  let '(ch, src) := next src in
  if decide (ch = []) then Ok (KStr [], src)
  else if decide (ch <> [27%N]) then
    if decide (ch = [3%N]) then Ok (KSpecial CRTL_C, src)
    else if decide (ch = [9%N]) then Ok (KSpecial TAB, src)
    else if decide (ch = [13%N] \/ ch = [10%N]) then Ok (KSpecial ENTER, src)
    else if decide (ch = [127%N] \/ ch = [8%N])
         then Ok (KSpecial BACKSPACE, src)
    else
      do o <- ord ch;
      if (o <? 32)%N then Ok (KStr [], src)
      else Ok (KStr ch, src)
  else
    let '(ch, src) := next src in
    if negb (SpecialKey.str_in ch [lit "?"; lit "O"; lit "["])
    then Ok (KSpecial ESC, src)
    else if SpecialKey.str_in ch [lit "?"; lit "O"] then
      let '(ch2, src) := next src in
      Ok (SpecialKey.get (ch ++ ch2), src)
    else
      let '(ch, src) := next src in
      if negb (isdigit ch) then Ok (SpecialKey.get (lit "[" ++ ch), src)
      else
        let seq := lit "[" ++ ch in
        let '(seq, ch, src) := read_digits src seq in
        if decide (ch <> lit ";") then Ok (SpecialKey.get (seq ++ ch), src)
        else
          let seq := seq ++ lit ";" in
          let '(seq, ch, src) := read_digits src seq in
          Ok (SpecialKey.get (seq ++ ch), src).
End Decoder.

(** ** Widths and rendering of formatted strings *)

(** [_wcswidth(s)]: the sum of the widths of the characters of [s]. *)
Definition _wcswidth (s : str) : result Z :=
  foldM (fun acc ch => do w <- _wcwidth [ch]; Ok (acc + w)) s 0.

(** [wcswidth(s)] on a [str] or on the value of a [cstr]. *)
Definition wcswidth (s : str) : result Z := _wcswidth s.

(** [AnsiStr.width()]: the sum of the widths of the runs. *)
Definition AnsiStr_width (self : AnsiStr) : result Z :=
  foldM (fun acc c => do w <- wcswidth (value c); Ok (acc + w)) (data self) 0.

(** [cstr.__str__]: the value, between the SGR escape and the reset unless
    the style is the default one. *)
Definition cstr_str (self : cstr) : str :=
  if decide (style self = default) then value self
  else [27%N] ++ lit "[" ++ Style.sgr (style self) ++ lit "m" ++
       value self ++ [27%N] ++ lit "[0m".

(** [AnsiStr.__str__]. *)
Definition AnsiStr_str (self : AnsiStr) : str :=
  concat (map cstr_str (data self)).

(** ** Console input *)

(** How a call of an input function ends: with a value, or with [EOFError]
    when the input is used up. *)
Inductive ended (A : Type) :=
| Returned (a : A)
| EOFError.
Arguments Returned {A} a.
Arguments EOFError {A}.

(** The console: [_mocked_input] ([None] when the input is not mocked), the
    lines still to come on the standard input, and what has been printed. *)
Record console := mkConsole {
  mocked : option (list str);
  stdin : list str;
  printed : str
}.

(** [print(s, end=e)]. *)
Definition print (s e : str) (w : console) : console :=
  mkConsole (mocked w) (stdin w) (printed w ++ s ++ e).

(** The builtin [input(prompt)]: writes the prompt, then returns the next
    line of the standard input, or raises [EOFError] at its end. *)
Definition builtin_input (prompt : str) (w : console)
  : console * ended str :=
  let w := print prompt [] w in
  match stdin w with
  | [] => (w, EOFError)
  | s :: rest => (mkConsole (mocked w) rest (printed w), Returned s)
  end.

(** [_input(prompt)]. *)
Definition _input (prompt : str) (w : console) : console * ended str :=
  match mocked w with
  | Some l =>
      let w := print prompt [] w in
      match l with
      | [] => (w, EOFError)
      | s :: rest =>
          (print s [10%N] (mkConsole (Some rest) (stdin w) (printed w)),
           Returned s)
      end
  | None => builtin_input prompt w
  end.

(** The lines [_input] can still return. *)
Definition pending (w : console) : list str :=
  match mocked w with
  | Some l => l
  | None => stdin w
  end.

Section Input.
(** [int(s)], [None] when it raises [ValueError]; the grammar of integer
    literals is not part of the source. *)
Variable py_int : str -> option Z.

(** [min and val < min or max and max < val], as a truth value: a bound
    that is [None] or 0 is false. *)
Definition out_of_bounds (min max : option Z) (val : Z) : bool :=
  match min with
  | Some m => negb (m =? 0) && (val <? m)
  | None => false
  end
  ||
  match max with
  | Some m => negb (m =? 0) && (m <? val)
  | None => false
  end.

(** The loop of [input_int], for at most [fuel] rounds; [None] when the
    rounds are used up. *)
Fixpoint input_int_loop (fuel : nat) (prompt err : str)
  (min max dflt : option Z) (w : console) : option (console * ended Z) :=
  match fuel with
  | O => None
  | S fuel =>
      let '(w, r) := _input prompt w in
      match r with
      | EOFError => Some (w, EOFError)
      | Returned s =>
          let again :=
            input_int_loop fuel prompt err min max dflt
              (if decide (err = []) then w else print err [10%N] w) in
          match (if decide (s = []) then dflt else None) with
          | Some d => Some (w, Returned d)
          | None =>
              match py_int s with
              | None => again
              | Some val =>
                  if out_of_bounds min max val then again
                  else Some (w, Returned val)
              end
          end
      end
  end.

(** [input_int(prompt, err, min, max, default)]: every round reads one
    line, so the loop takes at most one round more than there are lines. *)
Definition input_int (prompt err : str) (min max dflt : option Z)
  (w : console) : option (console * ended Z) :=
  input_int_loop (S (List.length (pending w))) prompt err min max dflt w.
End Input.

(** * Specification vocabulary *)

(** ** Styles *)

(** The colour an overlay leaves: its own when set, the base's otherwise. *)
Definition overlay_color (base over : option Color) : option Color :=
  match over with
  | Some c => Some c
  | None => base
  end.

(** ** Formatted strings *)

(** The characters of a list of runs, each with the style of its run. *)
Definition flat (d : list cstr) : list (char * Style) :=
  concat (map (fun c => map (fun ch => (ch, style c)) (value c)) d).

(** No two adjacent runs have the same style. *)
Fixpoint merged (d : list cstr) : Prop :=
  match d with
  | [] => True
  | x :: rest =>
      match rest with
      | [] => True
      | y :: _ => style x <> style y
      end /\ merged rest
  end.

(** No run is empty. *)
Definition nonempty_runs (d : list cstr) : Prop :=
  Forall (fun c => value c <> []) d.

(** The invariants of an [AnsiStr]: maximally merged runs, no empty run, and
    a cached length that is the number of code points. *)
Definition wf (a : AnsiStr) : Prop :=
  merged (data a) /\ nonempty_runs (data a) /\ length a = len (flat (data a)).

(** Appending the run [c] to data held in reverse: an empty run is dropped,
    a run in the style of the last one is merged into it. *)
Definition push_r (rd : list cstr) (c : cstr) : list cstr :=
  if decide (value c = []) then rd
  else
    match rd with
    | [] => [c]
    | l :: r =>
        if decide (style c = style l)
        then mkcstr (value l ++ value c) (style l) :: r
        else c :: rd
    end.

(** The runs an argument of the constructor contributes. *)
Definition arg_runs (s : arg) : list cstr :=
  match s with
  | AStr s => [cstr.of_str s]
  | ACstr c => [c]
  | AAnsi a => data a
  end.

(** An [AnsiStr] argument satisfies the invariants. *)
Definition arg_wf (s : arg) : Prop :=
  match s with
  | AAnsi a => wf a
  | _ => True
  end.

(** The runs of all the arguments, in order. *)
Definition args_runs (args : list arg) : list cstr :=
  concat (map arg_runs args).

(** The data the constructor builds from a list of runs. *)
Definition canon_runs (cs : list cstr) : list cstr :=
  rev (fold_left push_r cs []).

(** Putting one character in front of canonical data. *)
Definition cons_char (x : char * Style) (d : list cstr) : list cstr :=
  match d with
  | c :: r =>
      if decide (snd x = style c)
      then mkcstr (fst x :: value c) (style c) :: r
      else mkcstr [fst x] (snd x) :: d
  | [] => [mkcstr [fst x] (snd x)]
  end.

(** The canonical runs of a sequence of styled characters. *)
Definition group (f : list (char * Style)) : list cstr :=
  fold_right cons_char [] f.

(** The characters of [f] at the positions of [start, stop), a negative
    [start] counting as 0. *)
Definition sub {A} (f : list A) (start stop : Z) : list A :=
  take (Z.to_nat (stop - Z.max 0 start)) (drop (Z.to_nat (Z.max 0 start)) f).

(** The values that programs can build: the results of the constructor (on
    strings, runs and values already built), of concatenation, of slicing
    and indexing, of repetition and of the application of a colour or a
    style. An operation that raises builds nothing. *)
Inductive generated : AnsiStr -> Prop :=
| gen_init args r :
    generated_args args -> AnsiStr.init args = Ok r -> generated r
| gen_add self s r :
    generated self -> generated_args [s] -> AnsiStr.add self s = Ok r ->
    generated r
| gen_radd self s r :
    generated self -> AnsiStr.radd self s = Ok r -> generated r
| gen_getitem self idx r :
    generated self -> AnsiStr.getitem self idx = Ok r -> generated r
| gen_mul self n r :
    generated self -> AnsiStr.mul self n = Ok r -> generated r
| gen_truediv self cs r :
    generated self -> AnsiStr.truediv self cs = Ok r -> generated r
| gen_str_truediv s cs r :
    str_truediv s cs = Ok r -> generated r
with generated_args : list arg -> Prop :=
| gen_args_nil : generated_args []
| gen_args_str s args :
    generated_args args -> generated_args (AStr s :: args)
| gen_args_cstr c args :
    generated_args args -> generated_args (ACstr c :: args)
| gen_args_ansi a args :
    generated a -> generated_args args -> generated_args (AAnsi a :: args).

Scheme generated_mut := Minimality for generated Sort Prop
  with generated_args_mut := Minimality for generated_args Sort Prop.

(** ** The grid *)

(** The cell of the grid at a line and a column, when there is one. *)
Definition cell_at (g : CharGrid) (lin col : Z) : option cell :=
  match lines g !! Z.to_nat lin with
  | Some line => line !! Z.to_nat col
  | None => None
  end.

(** The code points of what is put on the grid. *)
Definition text_chars (s : text) : list char :=
  match s with
  | TStr s => s
  | TAnsi a => AnsiStr.content a
  end.

(** A formatted string put on the grid satisfies the invariants. *)
Definition text_wf (s : text) : Prop :=
  match s with
  | TStr _ => True
  | TAnsi a => wf a
  end.

(** The cells a character takes on the grid: two when [wcwidth] says 2, one
    otherwise. *)
Definition cell_width (c : char) : Z :=
  match wcwidth [c] with
  | Ok 2 => 2
  | _ => 1
  end.

(** The column just after the last cell written by [self[lin, col] = s]. *)
Definition end_col (s : text) (col : Z) : Z :=
  col + fold_right (fun c w => cell_width c + w) 0 (text_chars s).

(** [cstr(' ')]. *)
Definition space : cstr := cstr.of_str (lit " ").

(** ** Sample values *)

(** A string of two runs, used to exercise the theorems. *)
Definition sample : AnsiStr :=
  mkAnsiStr [mkcstr (lit "ab") default;
             mkcstr (lit "c")
                    (mkStyle None None true false false false false false)]
            3.

(** ** Formatted strings: contents, styles and widths *)

(** The plain characters an argument of the constructor contributes. *)
Definition arg_content (s : arg) : str :=
  match s with
  | AStr s => s
  | ACstr c => value c
  | AAnsi a => AnsiStr.content a
  end.

(** The style a run gets from [cstr.__truediv__]. *)
Definition apply_style (cs : color_or_style) (st : Style) : Style :=
  match cs with
  | IsColor c => Style.replace_fg st c
  | IsStyle s => Style.update st s
  end.

(** [AnsiStr()]. *)
Definition empty_str : AnsiStr := mkAnsiStr [] 0.

(** The width [_wcwidth] gives to one character. *)
Definition char_width (c : char) : Z :=
  match _wcwidth [c] with
  | Ok w => w
  | Raise _ => 0
  end.

(** The sum of the widths of the characters of a string. *)
Definition sum_widths (s : str) : Z :=
  fold_right (fun c w => char_width c + w) 0 s.

(** A control character: below 0x20, or from 0x7f to 0x9f. *)
Definition is_control (c : char) : Prop :=
  (c < 32)%N \/ (127 <= c < 160)%N.

(** ** The grid: what a write puts where *)

(** The cell read at a line and a column: an absent cell and a position
    outside the grid both read as [None], as the renderers read them. *)
Definition view (g : CharGrid) (lin col : Z) : cell :=
  match cell_at g lin col with
  | Some c => c
  | None => None
  end.

(** The one-character cells a text is written as: [cstr(s[i])] for a [str],
    the character with its style for an [AnsiStr]. *)
Definition text_cells (s : text) : list cstr :=
  match s with
  | TStr s => map (fun c => cstr.of_str [c]) s
  | TAnsi a => map (fun x => mkcstr [fst x] (snd x)) (flat (data a))
  end.

(** The cells one character takes: itself, then the placeholder [cstr()]
    when it is wide. *)
Definition cell_pair (ch : cstr) : list cell :=
  match wcwidth (value ch) with
  | Ok 2 => [Some ch; Some cstr.empty]
  | _ => [Some ch]
  end.

(** The cells a sequence of characters takes, left to right. *)
Definition layout (cells : list cstr) : list cell :=
  concat (map cell_pair cells).

(** [line] with the cells [cs] written over it from position [d] on. *)
Definition splice {A} (line : list A) (d : nat) (cs : list A) : list A :=
  take d line ++ cs ++ drop (d + List.length cs) line.

(** The length of a line of the grid, 0 for a line the grid does not
    have. *)
Definition line_len (g : CharGrid) (lin : Z) : Z :=
  match lines g !! Z.to_nat lin with
  | Some l => len l
  | None => 0
  end.

(** The fix on the left of a write: when the cell at [col] is a placeholder,
    the cell before it becomes a space. At column 0 the index [col - 1] is
    -1, which Python reads as the last cell of the line. *)
Definition fix_left (line : list cell) (col : nat) : list cell :=
  if decide (line !! col = Some (Some cstr.empty))
  then <[(if decide (col = 0%nat) then List.length line - 1 else col - 1)%nat
         := Some space]> line
  else line.

(** The fix on the right of a write: a placeholder in the cell after the
    last one written becomes a space. *)
Definition fix_right (line : list cell) (dest : nat) : list cell :=
  if decide (line !! dest = Some (Some cstr.empty))
  then <[dest := Some space]> line
  else line.

(** The line a write leaves, from the line it finds. *)
Definition written_line (line0 : list cell) (col : nat) (s : text)
  : list cell :=
  let line1 :=
    CharGrid.grow line0 (Z.of_nat col + len (text_chars s)) None in
  let cs := layout (text_cells s) in
  fix_right (splice (fix_left line1 col) col cs) (col + List.length cs).

(** The line of the grid at [lin], empty when the grid does not have it. *)
Definition line_of (g : CharGrid) (lin : nat) : list cell :=
  match lines g !! lin with
  | Some l => l
  | None => []
  end.

(** The number of wide characters of a text. *)
Definition wide_count (s : text) : Z :=
  len (filter (fun c => cell_width c = 2) (text_chars s)).

(** The cell read at a position of a line, [None] past its end. *)
Definition line_view (line : list cell) (i : nat) : cell :=
  match line !! i with
  | Some c => c
  | None => None
  end.

(** A cell that holds a wide character. *)
Definition is_wide (c : cell) : Prop :=
  match c with
  | Some ch => wcwidth (value ch) = Ok 2
  | None => False
  end.

(** The invariant of what is read on a line: every wide character is
    followed by the placeholder [cstr()], and every placeholder follows a
    wide character. *)
Definition view_ok (f : nat -> cell) : Prop :=
  (forall i, is_wide (f i) -> f (S i) = Some cstr.empty) /\
  (forall j, f j = Some cstr.empty -> exists i, j = S i /\ is_wide (f i)).

(** The invariant of a line. *)
Definition line_ok (line : list cell) : Prop := view_ok (line_view line).

(** The invariant of the grid: each of its lines satisfies [line_ok]. *)
Definition grid_ok (g : CharGrid) : Prop := Forall line_ok (lines g).

(** What is read on the written line after a write at [col] of cells [cs],
    from what was read before ([f0]). *)
Definition written_view (f0 : nat -> cell) (col : nat) (cs : list cell)
  (i : nat) : cell :=
  if decide (i < col)%nat then
    if decide (S i = col /\ f0 col = Some cstr.empty)
    then Some space else f0 i
  else if decide (i < col + List.length cs)%nat then line_view cs (i - col)
  else if decide (i = col + List.length cs /\ f0 i = Some cstr.empty)%nat
       then Some space else f0 i.

(** ** The grid: what is printed *)

(** What [print_content] shows for a cell: its value, a space for an absent
    cell. *)
Definition cell_text (c : cell) : str :=
  match c with
  | Some ch => value ch
  | None => lit " "
  end.

(** A cell as a write of characters that are not control characters leaves
    it: absent, the placeholder, or one such character. *)
Definition cell_plain (c : cell) : Prop :=
  match c with
  | None => True
  | Some ch =>
      ch = cstr.empty \/ exists c0, value ch = [c0] /\ ~ is_control c0
  end.

(** A grid all of whose cells are as [cell_plain] says. *)
Definition grid_plain (g : CharGrid) : Prop :=
  Forall (Forall cell_plain) (lines g).

(** A text without control characters. *)
Definition text_plain (s : text) : Prop :=
  Forall (fun c => ~ is_control c) (text_chars s).

(** ** Console input: the lines accepted *)

(** The value [input_int] returns for the line [s], [None] when it asks
    again. *)
Definition accepted (py_int : str -> option Z) (min max dflt : option Z)
  (s : str) : option Z :=
  match (if decide (s = []) then dflt else None) with
  | Some d => Some d
  | None =>
      match py_int s with
      | Some val => if out_of_bounds min max val then None else Some val
      | None => None
      end
  end.

(** What one round on a refused line [b] prints: the prompt, the line as
    the mocked input echoes it, and the error message if there is one. *)
Definition refused_round (prompt err b : str) : str :=
  prompt ++ b ++ [10%N] ++ (if decide (err = []) then [] else err ++ [10%N]).

(** [int] on the literals the examples use. *)
Definition sample_int (s : str) : option Z :=
  if decide (s = lit "-5") then Some (-5)
  else if decide (s = lit "32") then Some 32
  else None.

(** * Properties *)

(** ** Colour construction *)

(** [check_invalid_byte] never raises, whatever the value. *)
Lemma check_invalid_byte_returns tag v :
  exists r, check_invalid_byte tag v = Ok r.
Proof. unfold check_invalid_byte. destruct (negb _); eauto. Qed.

(** Construction of an [RgbColor] always succeeds and keeps the components
    it was given. *)
Lemma rgb_total r g b : rgb r g b = Ok (Rgb (mkRgbColor r g b)).
Proof.
  unfold rgb, RgbColor.new, RgbColor.post_init, check_invalid_byte; simpl.
  repeat match goal with |- context [negb ?c] => destruct (negb c) end;
    reflexivity.
Qed.

Lemma fixed_total n : fixed n = Ok (Fixed (mkFixedColor n)).
Proof.
  unfold fixed, FixedColor.new, FixedColor.post_init, check_invalid_byte; simpl.
  destruct (negb _); reflexivity.
Qed.

(** In-range components round-trip. *)
Lemma rgb_round_trip r g b :
  0 <= r <= 255 -> 0 <= g <= 255 -> 0 <= b <= 255 ->
  exists c, rgb r g b = Ok (Rgb c) /\ red c = r /\ green c = g /\ blue c = b.
Proof. intros _ _ _. rewrite rgb_total. eauto. Qed.

(** C1, at the failing input: [rgb(256, 0, 0)] and [fixed(-1)] do not fail;
    they return colours whose components are outside [0, 255], while
    [check_invalid_byte] only returns the [ValueError] it built. *)
Theorem C1_out_of_range_is_accepted :
  rgb 256 0 0 = Ok (Rgb (mkRgbColor 256 0 0)) /\
  fixed (-1) = Ok (Fixed (mkFixedColor (-1))) /\
  check_invalid_byte (lit "red") 256 =
    Ok (Some (ValueError
                (lit "Invalid red value (256), must in range from 0 to 255."))).
Proof. repeat split; reflexivity. Qed.

(** ** SGR codes *)

(** Every named colour but [BRIGHT_YELLOW] has its background code ten above
    its foreground code. *)
Lemma NamedColor_bg_fg c :
  NamedColor.bg c = NamedColor.fg c + 10 <-> c <> BRIGHT_YELLOW.
Proof. destruct c; simpl; split; intros; try congruence; try lia. Qed.

(** The ranges of the codes of the named colours: the bright background
    codes are in 100-107 for every bright colour but [BRIGHT_YELLOW]. *)
Lemma NamedColor_code_ranges c :
  c <> DEFAULT ->
  (NamedColor.is_bright c = false ->
   30 <= NamedColor.fg c <= 37 /\ 40 <= NamedColor.bg c <= 47) /\
  (NamedColor.is_bright c = true ->
   90 <= NamedColor.fg c <= 97 /\
   (c <> BRIGHT_YELLOW -> 100 <= NamedColor.bg c <= 107)).
Proof.
  intros Hd. destruct c; simpl; split; intros; try discriminate;
    try congruence; repeat split; intros; try lia; try congruence.
Qed.

(** The codes of the single attributes. *)
Lemma sgr_single_attributes :
  Style.sgr default = [] /\
  Style.sgr (mkStyle None None true false false false false false) = lit "1" /\
  Style.sgr (mkStyle None None false true false false false false) = lit "3" /\
  Style.sgr (mkStyle None None false false true false false false) = lit "4" /\
  Style.sgr (mkStyle None None false false false true false false) = lit "5" /\
  Style.sgr (mkStyle None None false false false false true false) = lit "7" /\
  Style.sgr (mkStyle None None false false false false false true) = lit "9" /\
  Style.sgr (on (Named DEFAULT)) = [] /\
  Style.sgr (on (Fixed (mkFixedColor 200))) = lit "48;5;200" /\
  Style.sgr (on (Rgb (mkRgbColor 1 2 3))) = lit "48;2;1;2;3".
Proof. repeat split; reflexivity. Qed.

(** C4, at the failing input: the background code of the bright named colour
    [BRIGHT_YELLOW] is 43, the code of [YELLOW], not one of 100-107. *)
Theorem C4_bright_yellow_background :
  Style.sgr (on (Named BRIGHT_YELLOW)) = lit "43" /\
  Style.sgr (on (Named YELLOW)) = lit "43" /\
  NamedColor.is_bright BRIGHT_YELLOW = true /\
  ~ (100 <= NamedColor.bg BRIGHT_YELLOW <= 107).
Proof. repeat split; try reflexivity. simpl. lia. Qed.

(** ** Style composition *)

(** A style updated with itself is unchanged. *)
Lemma update_idempotent s : Style.update s s = s.
Proof.
  destruct s as [f b b1 b2 b3 b4 b5 b6]; unfold Style.update; simpl.
  destruct f, b; simpl; rewrite ?orb_diag; reflexivity.
Qed.

(** C5: [update] takes the overlay's foreground and background when set and
    keeps the base's otherwise, ORs every boolean attribute (so that the
    boolean part is commutative and idempotent), and two updates in a row
    leave the colour of the last overlay that sets one. *)
Theorem C5_update_composition (base o1 o2 : Style) :
  let u := Style.update base o1 in
  let uu := Style.update u o2 in
  (fg u = overlay_color (fg base) (fg o1) /\
   bg u = overlay_color (bg base) (bg o1)) /\
  (bold u = bold base || bold o1 /\
   italic u = italic base || italic o1 /\
   underline u = underline base || underline o1 /\
   blink u = blink base || blink o1 /\
   reverse u = reverse base || reverse o1 /\
   strikethrough u = strikethrough base || strikethrough o1) /\
  (bold u = bold (Style.update o1 base) /\
   italic u = italic (Style.update o1 base) /\
   underline u = underline (Style.update o1 base) /\
   blink u = blink (Style.update o1 base) /\
   reverse u = reverse (Style.update o1 base) /\
   strikethrough u = strikethrough (Style.update o1 base)) /\
  Style.update base base = base /\
  (fg uu = overlay_color (overlay_color (fg base) (fg o1)) (fg o2) /\
   bg uu = overlay_color (overlay_color (bg base) (bg o1)) (bg o2)).
Proof.
  intros u uu. subst u uu.
  split; [|split; [|split; [|split]]].
  - unfold Style.update; destruct (fg o1), (bg o1); simpl; auto.
  - unfold Style.update; destruct (fg o1), (bg o1); simpl; repeat split.
  - unfold Style.update;
      destruct (fg o1), (bg o1), (fg base), (bg base); simpl;
      repeat split; apply orb_comm.
  - apply update_idempotent.
  - unfold Style.update;
      destruct (fg o1), (bg o1), (fg o2), (bg o2); simpl; auto.
Qed.

(** ** Key decoding *)

Section DecoderProperties.
Variable isd : char -> bool.

(** A first character other than ESC is classified on its own and the
    rest of the input is left untouched. *)
Lemma read_plain (c : char) (rest : source) :
  c <> 27%N ->
  _read isd (c :: rest) =
  Ok (if decide (c = 3%N) then KSpecial CRTL_C
      else if decide (c = 9%N) then KSpecial TAB
      else if decide (c = 13%N \/ c = 10%N) then KSpecial ENTER
      else if decide (c = 127%N \/ c = 8%N) then KSpecial BACKSPACE
      else if (c <? 32)%N then KStr []
      else KStr [c], rest).
Proof.
  intros Hc. unfold _read, next.
  rewrite (decide_False (P := [c] = [])) by discriminate.
  rewrite (decide_True (P := [c] <> [27%N])) by congruence.
  destruct (decide (c = 3%N)) as [->|H3]; [reflexivity|].
  rewrite (decide_False (P := [c] = [3%N])) by congruence.
  destruct (decide (c = 9%N)) as [->|H9]; [reflexivity|].
  rewrite (decide_False (P := [c] = [9%N])) by congruence.
  destruct (decide (c = 13%N \/ c = 10%N)) as [[-> | ->]|Hnl];
    [reflexivity..|].
  rewrite (decide_False (P := [c] = [13%N] \/ [c] = [10%N]))
    by (intros [?|?]; simplify_eq; tauto).
  destruct (decide (c = 127%N \/ c = 8%N)) as [[-> | ->]|Hbs];
    [reflexivity..|].
  rewrite (decide_False (P := [c] = [127%N] \/ [c] = [8%N]))
    by (intros [?|?]; simplify_eq; tauto).
  simpl. destruct (c <? 32)%N; reflexivity.
Qed.
End DecoderProperties.

(** C7: the listed inputs decode to Up, Ctrl-Up, Interrupt and no key, and a
    first character that is not ESC is classified directly. *)
Theorem C7_key_decoding (isd : char -> bool) :
  (forall rest,
      _read isd (27%N :: lit "[A" ++ rest) = Ok (KSpecial UP, rest)) /\
  (forall rest,
      _read isd (27%N :: lit "[1;5A" ++ rest) = Ok (KSpecial CRTL_UP, rest)) /\
  _read isd [3%N] = Ok (KSpecial CRTL_C, []) /\
  _read isd [] = Ok (KStr [], []) /\
  (forall rest, _read isd (27%N :: lit "[99~" ++ rest) = Ok (KStr [], rest)) /\
  (forall (c : char) rest,
      c <> 27%N ->
      exists k, _read isd (c :: rest) = Ok (k, rest) /\
        (c = 3%N -> k = KSpecial CRTL_C) /\
        (c = 9%N -> k = KSpecial TAB) /\
        (c = 13%N \/ c = 10%N -> k = KSpecial ENTER) /\
        (c = 127%N \/ c = 8%N -> k = KSpecial BACKSPACE) /\
        ((c < 32)%N -> c <> 3%N -> c <> 9%N -> c <> 13%N -> c <> 10%N ->
         c <> 8%N -> k = KStr []) /\
        ((32 <= c)%N -> c <> 127%N -> k = KStr [c])).
Proof.
  split; [reflexivity|]. split; [reflexivity|]. split; [reflexivity|].
  split; [reflexivity|]. split; [reflexivity|].
  intros c rest Hc. eexists. split; [apply read_plain; exact Hc|].
  split; [intros ->; reflexivity|].
  split; [intros ->; reflexivity|].
  split; [intros [-> | ->]; reflexivity|].
  split; [intros [-> | ->]; reflexivity|].
  split.
  - intros Hlt H3 H9 H13 H10 H8.
    rewrite (decide_False (P := c = 3%N)) by assumption.
    rewrite (decide_False (P := c = 9%N)) by assumption.
    rewrite (decide_False (P := c = 13%N \/ c = 10%N)) by tauto.
    rewrite (decide_False (P := c = 127%N \/ c = 8%N)) by lia.
    apply N.ltb_lt in Hlt. rewrite Hlt. reflexivity.
  - intros Hge H127.
    rewrite (decide_False (P := c = 3%N)) by lia.
    rewrite (decide_False (P := c = 9%N)) by lia.
    rewrite (decide_False (P := c = 13%N \/ c = 10%N)) by lia.
    rewrite (decide_False (P := c = 127%N \/ c = 8%N)) by lia.
    apply N.ltb_ge in Hge. rewrite Hge. reflexivity.
Qed.

(** C7 at the character [a]: it is returned as it is. *)
Lemma C7_key_decoding_witness :
  exists k, _read (fun _ => false) (97%N :: []) = Ok (k, []) /\ k = KStr [97%N].
Proof.
  destruct (C7_key_decoding (fun _ => false))
    as (_ & _ & _ & _ & _ & H).
  destruct (H 97%N [] ltac:(discriminate))
    as (k & Hk & _ & _ & _ & _ & _ & Hlit).
  exists k. split; [exact Hk|]. apply Hlit; [lia | discriminate].
Defined.

(** ** Formatted strings: the run representation *)

(** *** Python list indexing at the ends *)

Lemma len_app {A} (l k : list A) : len (l ++ k) = len l + len k.
Proof. unfold len. rewrite length_app. lia. Qed.

Lemma len_nonneg {A} (l : list A) : 0 <= len l.
Proof. unfold len. lia. Qed.

Lemma len_zero {A} (l : list A) : len l = 0 <-> l = [].
Proof. unfold len. destruct l; simpl; split; intros; try done; lia. Qed.

Lemma py_get_nat {A} (l : list A) (n : nat) x :
  l !! n = Some x -> py_get l (Z.of_nat n) = Ok x.
Proof.
  intros H. pose proof (lookup_lt_Some _ _ _ H) as Hlt.
  unfold py_get, py_index, len.
  destruct (Z.ltb_spec (Z.of_nat n) 0); [lia|].
  destruct (Z.leb_spec 0 (Z.of_nat n)); [|lia].
  destruct (Z.ltb_spec (Z.of_nat n) (Z.of_nat (List.length l))); [|lia].
  simpl. rewrite Nat2Z.id, H. reflexivity.
Qed.

Lemma py_set_nat {A} (l : list A) (n : nat) x :
  (n < List.length l)%nat -> py_set l (Z.of_nat n) x = Ok (<[n := x]> l).
Proof.
  intros Hlt. unfold py_set, py_index, len.
  destruct (Z.ltb_spec (Z.of_nat n) 0); [lia|].
  destruct (Z.leb_spec 0 (Z.of_nat n)); [|lia].
  destruct (Z.ltb_spec (Z.of_nat n) (Z.of_nat (List.length l))); [|lia].
  simpl. rewrite Nat2Z.id. reflexivity.
Qed.

Lemma py_get_neg {A} (l : list A) (k : nat) x :
  (0 < k <= List.length l)%nat ->
  l !! (List.length l - k)%nat = Some x -> py_get l (- Z.of_nat k) = Ok x.
Proof.
  intros Hk H. unfold py_get, py_index, len.
  destruct (Z.ltb_spec (- Z.of_nat k) 0); [|lia].
  destruct (Z.leb_spec 0 (- Z.of_nat k + Z.of_nat (List.length l))); [|lia].
  destruct (Z.ltb_spec (- Z.of_nat k + Z.of_nat (List.length l))
              (Z.of_nat (List.length l))); [|lia].
  simpl.
  replace (Z.to_nat (- Z.of_nat k + Z.of_nat (List.length l)))
    with (List.length l - k)%nat by lia.
  rewrite H. reflexivity.
Qed.

Lemma py_set_neg {A} (l : list A) (k : nat) x :
  (0 < k <= List.length l)%nat ->
  py_set l (- Z.of_nat k) x = Ok (<[(List.length l - k)%nat := x]> l).
Proof.
  intros Hk. unfold py_set, py_index, len.
  destruct (Z.ltb_spec (- Z.of_nat k) 0); [|lia].
  destruct (Z.leb_spec 0 (- Z.of_nat k + Z.of_nat (List.length l))); [|lia].
  destruct (Z.ltb_spec (- Z.of_nat k + Z.of_nat (List.length l))
              (Z.of_nat (List.length l))); [|lia].
  simpl.
  replace (Z.to_nat (- Z.of_nat k + Z.of_nat (List.length l)))
    with (List.length l - k)%nat by lia.
  reflexivity.
Qed.

(** [l[-1]] and [l[-2]] on a list seen from its end. *)
Lemma py_get_last {A} (l : list A) x : py_get (l ++ [x]) (-1) = Ok x.
Proof.
  apply (py_get_neg _ 1); rewrite length_app; simpl; [lia|].
  replace (List.length l + 1 - 1)%nat with (List.length l + 0)%nat by lia.
  rewrite lookup_app_r by lia.
  replace (List.length l + 0 - List.length l)%nat with 0%nat by lia.
  reflexivity.
Qed.

Lemma py_get_last2 {A} (l : list A) x y :
  py_get ((l ++ [x]) ++ [y]) (-2) = Ok x.
Proof.
  apply (py_get_neg _ 2); rewrite !length_app; simpl; [lia|].
  replace (List.length l + 1 + 1 - 2)%nat with (List.length l) by lia.
  rewrite lookup_app_l by (rewrite length_app; simpl; lia).
  apply list_lookup_middle. reflexivity.
Qed.

Lemma py_set_last {A} (l : list A) x y :
  py_set (l ++ [x]) (-1) y = Ok (l ++ [y]).
Proof.
  rewrite (py_set_neg _ 1) by (rewrite length_app; simpl; lia).
  rewrite length_app; simpl.
  replace (List.length l + 1 - 1)%nat with (List.length l + 0)%nat by lia.
  rewrite insert_app_r. reflexivity.
Qed.

Lemma py_set_last2 {A} (l : list A) x y z :
  py_set ((l ++ [x]) ++ [y]) (-2) z = Ok ((l ++ [z]) ++ [y]).
Proof.
  rewrite (py_set_neg _ 2) by (rewrite !length_app; simpl; lia).
  rewrite !length_app; simpl.
  replace (List.length l + 1 + 1 - 2)%nat with (List.length l + 0)%nat by lia.
  rewrite insert_app_l by (rewrite length_app; simpl; lia).
  rewrite insert_app_r. reflexivity.
Qed.

Lemma py_get_head {A} (x : A) l : py_get (x :: l) 0 = Ok x.
Proof. apply (py_get_nat _ 0). reflexivity. Qed.

Lemma py_slice_tail {A} (x : A) l : py_slice (x :: l) (Some 1) None = l.
Proof.
  unfold py_slice, clamp_bound, len. simpl List.length.
  change (1 <? 0) with false. cbv iota.
  rewrite Z.min_l by lia.
  replace (Z.to_nat (Z.of_nat (S (List.length l)) - 1))
    with (List.length l) by lia.
  change (Z.to_nat 1) with 1%nat. simpl. apply firstn_all.
Qed.

(** *** Runs, their characters and the invariants of the representation *)

Lemma flat_nil : flat [] = [].
Proof. reflexivity. Qed.

Lemma flat_cons c d :
  flat (c :: d) = map (fun ch => (ch, style c)) (value c) ++ flat d.
Proof. reflexivity. Qed.

Lemma flat_app d1 d2 : flat (d1 ++ d2) = flat d1 ++ flat d2.
Proof. unfold flat. rewrite map_app, concat_app. reflexivity. Qed.

Lemma len_flat_cons c d : len (flat (c :: d)) = len (value c) + len (flat d).
Proof. rewrite flat_cons, len_app. unfold len. rewrite length_map. lia. Qed.

(** [content] is the characters without their styles. *)
Lemma content_flat a : AnsiStr.content a = map fst (flat (data a)).
Proof.
  unfold AnsiStr.content.
  assert (H : forall d acc,
             fold_left (fun r s => r ++ value s) d acc
             = acc ++ map fst (flat d)).
  { induction d as [|c d IH]; intros acc; simpl.
    - rewrite app_nil_r. reflexivity.
    - rewrite IH, flat_cons, map_app, map_map, <- app_assoc. simpl.
      rewrite map_id. reflexivity. }
  rewrite H. reflexivity.
Qed.

Lemma merged_snoc2 d x y :
  merged (d ++ [x; y]) <-> merged (d ++ [x]) /\ style x <> style y.
Proof.
  induction d as [|c d IH]; simpl; [tauto|].
  rewrite IH. destruct d as [|e d]; simpl; tauto.
Qed.

Lemma merged_rev d : merged (rev d) <-> merged d.
Proof.
  induction d as [|a d IH]; [simpl; tauto|].
  destruct d as [|b d]; [simpl; tauto|].
  change (rev (a :: b :: d)) with ((rev d ++ [b]) ++ [a]).
  rewrite <- app_assoc. simpl app. rewrite merged_snoc2.
  change (rev d ++ [b]) with (rev (b :: d)). rewrite IH.
  simpl. split; intros; destruct_and?; repeat split; auto.
Qed.

Lemma nonempty_runs_rev d : nonempty_runs (rev d) <-> nonempty_runs d.
Proof.
  unfold nonempty_runs. split; intros H.
  - rewrite <- (rev_involutive d). apply Forall_rev. exact H.
  - apply Forall_rev. exact H.
Qed.

(** *** The constructor as a sequence of pushes *)

Lemma len_eqb_zero {A} (l : list A) : (len l =? 0) = bool_decide (l = []).
Proof.
  destruct l as [|a l]; [reflexivity|].
  rewrite bool_decide_eq_false_2 by discriminate.
  apply Z.eqb_neq. unfold len. simpl. lia.
Qed.

Lemma init_step_cstr rd n c :
  AnsiStr.init_step (rev rd, n) (ACstr c)
  = Ok (rev (push_r rd c), n + len (value c)).
Proof.
  unfold AnsiStr.init_step, AnsiStr.append_run, push_r. simpl bind.
  unfold cstr.__len__. rewrite len_eqb_zero.
  destruct (decide (value c = [])) as [He|He].
  - rewrite bool_decide_eq_true_2 by exact He.
    rewrite He. unfold len. simpl. rewrite Z.add_0_r. reflexivity.
  - rewrite bool_decide_eq_false_2 by exact He.
    destruct rd as [|l r].
    + simpl. reflexivity.
    + simpl rev.
      replace (len ((rev r ++ [l]) ++ [c]) =? 1) with false
        by (symmetry; apply Z.eqb_neq; rewrite !len_app; unfold len; simpl;
            lia).
      rewrite py_get_last, py_get_last2. simpl bind.
      destruct (decide (style c = style l)) as [Hs|Hs].
      * rewrite py_set_last2. simpl bind.
        rewrite removelast_last. reflexivity.
      * reflexivity.
Qed.

Lemma init_step_str rd n s :
  AnsiStr.init_step (rev rd, n) (AStr s)
  = Ok (rev (push_r rd (cstr.of_str s)), n + len s).
Proof. exact (init_step_cstr rd n (cstr.of_str s)). Qed.

(** Runs that already satisfy the invariants are pushed without a merge. *)
Lemma pushes_no_merge fs : forall f f' r,
  merged (f :: fs) -> nonempty_runs fs -> style f' = style f ->
  fold_left push_r fs (f' :: r) = rev fs ++ f' :: r.
Proof.
  induction fs as [|g gs IH]; intros f f' r Hm Hn Hs; [reflexivity|].
  simpl in Hm. destruct Hm as [Hfg Hm].
  apply Forall_cons_iff in Hn as [Hg Hn].
  simpl fold_left. unfold push_r at 2.
  destruct (decide (value g = [])) as [?|_]; [contradiction|].
  destruct (decide (style g = style f')) as [?|_]; [congruence|].
  rewrite (IH g g (f' :: r) Hm Hn eq_refl).
  simpl rev. rewrite <- app_assoc. reflexivity.
Qed.

Lemma nonempty_flat_nil d : nonempty_runs d -> flat d = [] -> d = [].
Proof.
  intros Hn Hf. destruct d as [|c d]; [reflexivity|].
  apply Forall_cons_iff in Hn as [Hc _]. rewrite flat_cons in Hf.
  destruct (value c); [congruence|discriminate].
Qed.

Lemma init_step_ansi rd n a :
  wf a ->
  AnsiStr.init_step (rev rd, n) (AAnsi a)
  = Ok (rev (fold_left push_r (data a) rd), n + length a).
Proof.
  intros (Hm & Hn & Hl).
  unfold AnsiStr.init_step, AnsiStr.arg_len, AnsiStr.__len__.
  destruct (Z.ltb_spec (length a) 0) as [Hneg|_];
    [pose proof (len_nonneg (flat (data a))); lia|].
  simpl bind.
  destruct (Z.eqb_spec (length a) 0) as [Hz|Hz].
  - rewrite Hz, Z.add_0_r.
    rewrite Hl in Hz. apply len_zero in Hz.
    rewrite (nonempty_flat_nil _ Hn Hz). reflexivity.
  - destruct (data a) as [|f fs] eqn:Hd.
    { exfalso. apply Hz. rewrite Hl. reflexivity. }
    apply Forall_cons_iff in Hn as [Hf Hn].
    simpl fold_left. unfold push_r at 2.
    destruct (decide (value f = [])) as [?|_]; [contradiction|].
    rewrite len_eqb_zero.
    destruct rd as [|l r].
    + rewrite bool_decide_eq_true_2 by reflexivity.
      rewrite (pushes_no_merge fs f f [] Hm Hn eq_refl).
      rewrite rev_app_distr, rev_involutive. reflexivity.
    + rewrite bool_decide_eq_false_2
        by (simpl; intros H; apply app_eq_nil in H as [_ H]; discriminate).
      simpl rev. rewrite py_get_last, py_get_head. simpl bind.
      destruct (decide (style l = style f)) as [Hs|Hs].
      * destruct (decide (style f = style l)) as [_|?]; [|congruence].
        rewrite py_set_last. simpl bind. rewrite py_slice_tail.
        rewrite (pushes_no_merge fs f (mkcstr (value l ++ value f) (style l)) r
                   Hm Hn Hs).
        rewrite rev_app_distr, rev_involutive. simpl.
        rewrite <- ?app_assoc. reflexivity.
      * destruct (decide (style f = style l)) as [?|_]; [congruence|].
        rewrite (pushes_no_merge fs f f (l :: r) Hm Hn eq_refl).
        rewrite rev_app_distr, rev_involutive. simpl.
        rewrite <- ?app_assoc. reflexivity.
Qed.

Lemma init_step_push rd n s :
  arg_wf s ->
  AnsiStr.init_step (rev rd, n) s
  = Ok (rev (fold_left push_r (arg_runs s) rd), n + len (flat (arg_runs s))).
Proof.
  intros Hwf. destruct s as [s|c|a]; simpl arg_runs.
  - rewrite init_step_str, len_flat_cons. simpl.
    unfold len at 3. simpl. rewrite Z.add_0_r. reflexivity.
  - rewrite init_step_cstr, len_flat_cons. simpl.
    unfold len at 3. simpl. rewrite Z.add_0_r. reflexivity.
  - rewrite (init_step_ansi rd n a Hwf). destruct Hwf as (_ & _ & ->).
    reflexivity.
Qed.

Lemma foldM_init_step args : forall rd n,
  Forall arg_wf args ->
  foldM AnsiStr.init_step args (rev rd, n)
  = Ok (rev (fold_left push_r (args_runs args) rd),
        n + len (flat (args_runs args))).
Proof.
  induction args as [|s args IH]; intros rd n Hwf.
  - simpl. rewrite Z.add_0_r. reflexivity.
  - apply Forall_cons_iff in Hwf as [Hs Hwf].
    cbn [foldM]. rewrite (init_step_push rd n s Hs). cbn [bind].
    rewrite (IH _ _ Hwf). unfold args_runs. cbn [map concat].
    rewrite fold_left_app, flat_app, len_app, Z.add_assoc. reflexivity.
Qed.

(** The constructor succeeds on arguments that satisfy the invariants, and
    pushes their runs one after the other. *)
Lemma init_spec args :
  Forall arg_wf args ->
  AnsiStr.init args
  = Ok (mkAnsiStr (canon_runs (args_runs args))
                  (len (flat (args_runs args)))).
Proof.
  intros Hwf. unfold AnsiStr.init.
  pose proof (foldM_init_step args [] 0 Hwf) as H.
  change (rev []) with (@nil cstr) in H. rewrite H. reflexivity.
Qed.

Lemma args_runs_cstrs cs : args_runs (map ACstr cs) = cs.
Proof.
  unfold args_runs. induction cs as [|c cs IH]; simpl; [reflexivity|].
  f_equal. exact IH.
Qed.

Lemma init_cstrs cs :
  AnsiStr.init (map ACstr cs)
  = Ok (mkAnsiStr (canon_runs cs) (len (flat cs))).
Proof.
  rewrite init_spec, args_runs_cstrs; [reflexivity|].
  apply Forall_forall. intros x Hx. apply in_map_iff in Hx as (c & <- & _).
  exact I.
Qed.

Lemma push_r_flat rd c : flat (rev (push_r rd c)) = flat (rev rd) ++ flat [c].
Proof.
  unfold push_r. destruct (decide (value c = [])) as [He|He].
  - rewrite flat_cons, He. simpl. rewrite app_nil_r. reflexivity.
  - destruct rd as [|l r]; [reflexivity|].
    destruct (decide (style c = style l)) as [Hs|Hs].
    + simpl rev. rewrite !flat_app, !flat_cons, flat_nil. simpl.
      rewrite !app_nil_r, map_app, Hs, <- app_assoc. reflexivity.
    + simpl rev. rewrite !flat_app. reflexivity.
Qed.

Lemma pushes_flat cs : forall rd,
  flat (rev (fold_left push_r cs rd)) = flat (rev rd) ++ flat cs.
Proof.
  induction cs as [|c cs IH]; intros rd; simpl.
  - rewrite app_nil_r. reflexivity.
  - rewrite IH, push_r_flat, <- app_assoc, <- flat_app. reflexivity.
Qed.

Lemma push_r_merged rd c : merged rd -> merged (push_r rd c).
Proof.
  intros Hm. unfold push_r. destruct (decide (value c = [])); [exact Hm|].
  destruct rd as [|l r]; [simpl; tauto|].
  destruct (decide (style c = style l)) as [Hs|Hs].
  - simpl in *. exact Hm.
  - simpl in *. tauto.
Qed.

Lemma push_r_nonempty rd c : nonempty_runs rd -> nonempty_runs (push_r rd c).
Proof.
  intros Hn. unfold push_r. destruct (decide (value c = [])); [exact Hn|].
  destruct rd as [|l r]; [repeat constructor; assumption|].
  apply Forall_cons_iff in Hn as [Hl Hr].
  destruct (decide (style c = style l)).
  - constructor; [|exact Hr]. simpl. intros H.
    apply app_eq_nil in H as [H _]. contradiction.
  - repeat constructor; assumption.
Qed.

Lemma pushes_invariants cs : forall rd,
  merged rd -> nonempty_runs rd ->
  merged (fold_left push_r cs rd) /\ nonempty_runs (fold_left push_r cs rd).
Proof.
  induction cs as [|c cs IH]; intros rd Hm Hn; simpl; [tauto|].
  apply IH; [apply push_r_merged|apply push_r_nonempty]; assumption.
Qed.

Lemma canon_runs_flat cs : flat (canon_runs cs) = flat cs.
Proof. unfold canon_runs. rewrite pushes_flat. reflexivity. Qed.

Lemma canon_runs_wf cs : wf (mkAnsiStr (canon_runs cs) (len (flat cs))).
Proof.
  destruct (pushes_invariants cs []) as [Hm Hn]; [exact I|constructor|].
  unfold wf, canon_runs. simpl.
  rewrite merged_rev, nonempty_runs_rev, pushes_flat. simpl. tauto.
Qed.

(** Whatever the constructor returns for arguments that satisfy the
    invariants satisfies them, and holds the characters of the arguments. *)
Lemma init_wf args :
  Forall arg_wf args ->
  exists r, AnsiStr.init args = Ok r /\ wf r /\
            flat (data r) = flat (args_runs args).
Proof.
  intros Hwf. eexists. split; [apply init_spec; exact Hwf|].
  split; [apply canon_runs_wf|apply canon_runs_flat].
Qed.

(** *** The representation is canonical *)

Lemma group_run v s r :
  v <> [] ->
  match r with [] => True | c :: _ => s <> style c end ->
  fold_right cons_char r (map (fun ch => (ch, s)) v) = mkcstr v s :: r.
Proof.
  intros Hv Hr. induction v as [|ch v IH]; [contradiction|].
  destruct v as [|ch' v].
  - simpl. destruct r as [|c r]; [reflexivity|]. simpl.
    destruct (decide (s = style c)); [contradiction|reflexivity].
  - change (fold_right cons_char r (map (fun ch => (ch, s)) (ch :: ch' :: v)))
      with (cons_char (ch, s)
              (fold_right cons_char r (map (fun ch => (ch, s)) (ch' :: v)))).
    rewrite IH by discriminate. simpl.
    destruct (decide (s = s)); [reflexivity|contradiction].
Qed.

Lemma group_flat d : merged d -> nonempty_runs d -> group (flat d) = d.
Proof.
  induction d as [|[v s] r IH]; intros Hm Hn; [reflexivity|].
  apply Forall_cons_iff in Hn as [Hv Hn]. simpl in Hm, Hv.
  destruct Hm as [Hh Hm].
  unfold group. rewrite flat_cons, fold_right_app. fold (group (flat r)).
  rewrite (IH Hm Hn). simpl style. simpl value.
  apply group_run; [exact Hv|]. destruct r; [exact I|exact Hh].
Qed.

(** Two values that satisfy the invariants and hold the same styled
    characters are equal. *)
Lemma wf_flat_inj a b :
  wf a -> wf b -> flat (data a) = flat (data b) -> a = b.
Proof.
  intros (Hma & Hna & Hla) (Hmb & Hnb & Hlb) Hf.
  destruct a as [da la], b as [db lb]; simpl in *.
  assert (da = db).
  { rewrite <- (group_flat da Hma Hna), <- (group_flat db Hmb Hnb), Hf.
    reflexivity. }
  subst. reflexivity.
Qed.

(** *** Slicing *)

Lemma py_slice_nonneg {A} (v : list A) a b :
  0 <= a -> 0 <= b ->
  py_slice v (Some a) (Some b) = sub v a b.
Proof.
  intros Ha Hb. unfold py_slice, sub, clamp_bound.
  destruct (Z.ltb_spec a 0); [lia|]. destruct (Z.ltb_spec b 0); [lia|].
  rewrite (Z.max_r 0 a) by lia. unfold len.
  destruct (Z.le_gt_cases (Z.of_nat (List.length v)) a) as [Hge|Hlt].
  - rewrite !(skipn_all2 v) by lia. rewrite !firstn_nil. reflexivity.
  - rewrite (Z.min_l a) by lia.
    destruct (Z.le_gt_cases (Z.of_nat (List.length v)) b) as [Hbge|Hblt].
    + rewrite (Z.min_r b) by lia.
      rewrite !firstn_all2; [reflexivity|rewrite length_skipn; lia..].
    + rewrite (Z.min_l b) by lia. reflexivity.
Qed.

Lemma sub_nil {A} start stop : sub (@nil A) start stop = [].
Proof. unfold sub. rewrite skipn_nil, firstn_nil. reflexivity. Qed.

Lemma sub_empty {A} (f : list A) start stop :
  stop <= Z.max 0 start -> sub f start stop = [].
Proof.
  intros H. unfold sub.
  replace (Z.to_nat (stop - Z.max 0 start)) with 0%nat by lia. reflexivity.
Qed.

(** A slice of an append: the part in the first list, then the part in the
    second. *)
Lemma sub_app {A} (x y : list A) start stop :
  sub (x ++ y) start stop
  = sub x start stop ++ sub y (start - len x) (stop - len x).
Proof.
  unfold sub, len. rewrite skipn_app, firstn_app, length_skipn.
  f_equal. f_equal; [lia|]. f_equal. lia.
Qed.

Lemma sub_map {A B} (g : A -> B) (x : list A) start stop :
  sub (map g x) start stop = map g (sub x start stop).
Proof. unfold sub. rewrite skipn_map, firstn_map. reflexivity. Qed.

Lemma sub_past {A} (x : list A) start stop :
  len x <= start -> sub x start stop = [].
Proof.
  intros H. unfold sub, len in *. rewrite skipn_all2 by lia.
  apply firstn_nil.
Qed.

Lemma sub_all {A} (x : list A) start stop :
  start <= 0 -> len x <= stop -> sub x start stop = x.
Proof.
  intros Hs He. unfold sub, len in *.
  replace (Z.to_nat (Z.max 0 start)) with 0%nat by lia.
  simpl. apply firstn_all2. lia.
Qed.

Lemma len_map {A B} (g : A -> B) (x : list A) : len (map g x) = len x.
Proof. unfold len. rewrite length_map. reflexivity. Qed.

Lemma collect_runs_flat d : forall start stop,
  flat (AnsiStr.collect_runs d start stop) = sub (flat d) start stop.
Proof.
  induction d as [|c d IH]; intros start stop.
  - cbn [AnsiStr.collect_runs]. rewrite flat_nil, sub_nil. reflexivity.
  - cbn [AnsiStr.collect_runs].
    destruct (Z.gtb_spec stop 0) as [Hpos|Hnpos].
    + rewrite !flat_cons, sub_app, IH. simpl value. simpl style.
      unfold cstr.getitem, cstr.__len__.
      rewrite py_slice_nonneg by lia. simpl.
      rewrite sub_map. f_equal.
      * unfold sub. rewrite !(Z.max_r 0 (Z.max 0 start)) by lia. reflexivity.
      * rewrite len_map. reflexivity.
    + rewrite sub_empty by lia. reflexivity.
Qed.

Lemma skip_runs_flat d : forall start stop d' start' stop',
  AnsiStr.skip_runs d start stop = (d', start', stop') ->
  sub (flat d') start' stop' = sub (flat d) start stop.
Proof.
  induction d as [|c d IH]; intros start stop d' start' stop' H.
  - simpl in H. inversion H. reflexivity.
  - simpl in H. destruct (Z.gtb_spec (start - cstr.__len__ c) 0) as [Hgt|Hle].
    + rewrite (IH _ _ _ _ _ H), flat_cons, sub_app, len_map.
      unfold cstr.__len__ in *.
      rewrite (sub_past (map _ _)) by (rewrite len_map; lia). reflexivity.
    + inversion H. reflexivity.
Qed.

(** *** Indexing and slicing *)

Lemma init_nil : AnsiStr.init [] = Ok (mkAnsiStr [] 0).
Proof. reflexivity. Qed.

Lemma wf_empty : wf (mkAnsiStr [] 0).
Proof. repeat split. constructor. Qed.

Lemma wf_len a : wf a -> AnsiStr.__len__ a = Ok (length a).
Proof.
  intros (_ & _ & Hl). unfold AnsiStr.__len__.
  destruct (Z.ltb_spec (length a) 0); [|reflexivity].
  pose proof (len_nonneg (flat (data a))). lia.
Qed.

(** [__getitem__] on bounds of stride 1: the result satisfies the invariants
    and holds the characters of the positions [start, stop). *)
Lemma getitem_spec t idx start stop :
  wf t ->
  AnsiStr.index_bounds idx (length t) = Ok (start, stop, 1) ->
  exists r, AnsiStr.getitem t idx = Ok r /\ wf r /\
            flat (data r) = sub (flat (data t)) start stop.
Proof.
  intros Hwf Hb. unfold AnsiStr.getitem.
  rewrite (wf_len t Hwf). cbn [bind]. rewrite Hb. cbn [bind].
  change (py_assert (1 =? 1)) with (Ok tt). cbn [bind].
  destruct (Z.geb_spec start stop) as [Hge|Hlt].
  - exists (mkAnsiStr [] 0). split; [reflexivity|]. split; [apply wf_empty|].
    rewrite sub_empty by lia. reflexivity.
  - destruct (AnsiStr.skip_runs (data t) start stop) as [[d' s'] e'] eqn:Hs.
    rewrite init_cstrs. eexists. split; [reflexivity|].
    split; [apply canon_runs_wf|]. simpl data.
    rewrite canon_runs_flat, collect_runs_flat.
    apply (skip_runs_flat _ _ _ _ _ _ Hs).
Qed.

(** Whenever [__getitem__] returns, its result satisfies the invariants. *)
Lemma getitem_wf t idx r :
  wf t -> AnsiStr.getitem t idx = Ok r -> wf r.
Proof.
  intros Hwf H.
  destruct (AnsiStr.index_bounds idx (length t)) as [[[start stop] k]|e] eqn:Hb.
  - destruct (Z.eqb_spec k 1) as [->|Hk].
    + destruct (getitem_spec t idx start stop Hwf Hb) as (r' & Hr' & Hw & _).
      congruence.
    + unfold AnsiStr.getitem in H. rewrite (wf_len t Hwf) in H.
      cbn [bind] in H. rewrite Hb in H. cbn [bind] in H.
      apply Z.eqb_neq in Hk. rewrite Hk in H. discriminate.
  - unfold AnsiStr.getitem in H. rewrite (wf_len t Hwf) in H.
    cbn [bind] in H. rewrite Hb in H. discriminate.
Qed.

(** The bounds of an integer index within the string. *)
Lemma index_bounds_int n i :
  - n <= i < n ->
  let j := if i <? 0 then i + n else i in
  AnsiStr.index_bounds (AnsiStr.IInt i) n = Ok (j, j + 1, 1) /\ 0 <= j < n.
Proof.
  intros Hi. unfold AnsiStr.index_bounds, slice_indices, clamp_bound.
  change (1 =? 0) with false. change (1 <? 0) with false. cbv iota.
  change (-1 <? 0) with true. cbv iota.
  destruct (Z.eqb_spec i (-1)) as [->|Hne].
  - simpl. split; [|lia]. repeat f_equal; lia.
  - destruct (Z.ltb_spec i 0), (Z.ltb_spec (i + 1) 0);
      (split; [repeat f_equal; lia|lia]).
Qed.

(** The bounds of an integer index outside the string are empty. *)
Lemma index_bounds_int_out n i :
  0 <= n -> ~ (- n <= i < n) ->
  exists start stop,
    AnsiStr.index_bounds (AnsiStr.IInt i) n = Ok (start, stop, 1) /\
    stop <= start /\ 0 <= start.
Proof.
  intros Hn Hi. unfold AnsiStr.index_bounds, slice_indices, clamp_bound.
  change (1 =? 0) with false. change (1 <? 0) with false. cbv iota.
  change (-1 <? 0) with true. cbv iota.
  destruct (Z.eqb_spec i (-1)) as [->|Hne].
  - do 2 eexists. split; [reflexivity|]. lia.
  - do 2 eexists. split; [reflexivity|].
    destruct (Z.ltb_spec i 0), (Z.ltb_spec (i + 1) 0); lia.
Qed.

Lemma sub_one {A} (f : list A) (j : Z) x :
  0 <= j -> f !! Z.to_nat j = Some x -> sub f j (j + 1) = [x].
Proof.
  intros Hj Hx. unfold sub. rewrite Z.max_r by lia.
  replace (Z.to_nat (j + 1 - j)) with 1%nat by lia.
  rewrite (drop_S _ _ _ Hx). reflexivity.
Qed.

(** A value that satisfies the invariants and holds one character is a
    single run of that character. *)
Lemma wf_single r c st :
  wf r -> flat (data r) = [(c, st)] -> r = mkAnsiStr [mkcstr [c] st] 1.
Proof.
  intros Hwf Hf. apply wf_flat_inj; [exact Hwf| |exact Hf].
  repeat split; simpl; try tauto. repeat constructor. discriminate.
Qed.

Lemma lookup_map_Some {A B} (g : A -> B) (l : list A) : forall (i : nat) x,
  l !! i = Some x -> map g l !! i = Some (g x).
Proof.
  induction l as [|a l IH]; intros [|i] x H; simpl in *; try discriminate.
  - congruence.
  - apply IH. exact H.
Qed.

(** An integer index within the string selects one character and its
    style. *)
Lemma getitem_int_in (t : AnsiStr) (i : Z) :
  wf t ->
  - length t <= i < length t ->
  let j := Z.to_nat (if i <? 0 then i + length t else i) in
  exists c st,
    flat (data t) !! j = Some (c, st) /\
    AnsiStr.content t !! j = Some c /\
    AnsiStr.getitem t (AnsiStr.IInt i) = Ok (mkAnsiStr [mkcstr [c] st] 1).
Proof.
  intros Hwf Hi j.
  destruct (index_bounds_int (length t) i Hi) as [Hb Hj].
  set (k := if i <? 0 then i + length t else i) in *.
  assert (Hlt : (j < List.length (flat (data t)))%nat).
  { destruct Hwf as (_ & _ & Hl). unfold len in Hl. subst j. lia. }
  destruct (lookup_lt_is_Some_2 _ _ Hlt) as [[c st] Hx].
  exists c, st. split; [exact Hx|]. split.
  - rewrite content_flat. apply (lookup_map_Some fst _ _ _ Hx).
  - destruct (getitem_spec t _ _ _ Hwf Hb) as (r & Hr & Hwr & Hf).
    rewrite (sub_one _ k (c, st)) in Hf by (subst j; lia || exact Hx).
    rewrite Hr. f_equal. apply wf_single; assumption.
Qed.

(** An integer index outside the string selects nothing. *)
Lemma getitem_int_out (t : AnsiStr) (i : Z) :
  wf t ->
  ~ (- length t <= i < length t) ->
  AnsiStr.getitem t (AnsiStr.IInt i) = Ok (mkAnsiStr [] 0).
Proof.
  intros Hwf Hi.
  assert (Hn : 0 <= length t).
  { destruct Hwf as (_ & _ & ->). apply len_nonneg. }
  destruct (index_bounds_int_out (length t) i Hn Hi)
    as (start & stop & Hb & Hle & Hs).
  destruct (getitem_spec t _ _ _ Hwf Hb) as (r & Hr & Hwr & Hf).
  rewrite sub_empty in Hf by lia.
  rewrite Hr. f_equal. apply wf_flat_inj; [exact Hwr|apply wf_empty|exact Hf].
Qed.

(** C10: an integer index within the string gives the one-character string
    of that position, with the character's style; an index outside the
    string gives the empty string, not an error. *)
Theorem C10_integer_index (t : AnsiStr) (i : Z) :
  wf t ->
  (- length t <= i < length t ->
   let j := Z.to_nat (if i <? 0 then i + length t else i) in
   exists c st,
     flat (data t) !! j = Some (c, st) /\
     AnsiStr.content t !! j = Some c /\
     AnsiStr.getitem t (AnsiStr.IInt i) = Ok (mkAnsiStr [mkcstr [c] st] 1)) /\
  (~ (- length t <= i < length t) ->
   AnsiStr.getitem t (AnsiStr.IInt i) = Ok (mkAnsiStr [] 0)).
Proof.
  intros Hwf. split.
  - apply getitem_int_in. exact Hwf.
  - apply getitem_int_out. exact Hwf.
Qed.

(** C8: the slice over the whole string is the string itself, and bounds
    that normalise to an empty range give the empty string. *)
Theorem C8_slice (t : AnsiStr) :
  wf t ->
  AnsiStr.getitem t (AnsiStr.ISlice (Some 0) (Some (length t)) None) = Ok t /\
  (forall (a b step : option Z) start stop,
     step = None \/ step = Some 1 ->
     slice_indices a b step (length t) = Ok (start, stop, 1) ->
     start >= stop ->
     AnsiStr.getitem t (AnsiStr.ISlice a b step) = Ok (mkAnsiStr [] 0)).
Proof.
  intros Hwf.
  assert (Hn : 0 <= length t).
  { destruct Hwf as (_ & _ & ->). apply len_nonneg. }
  split.
  - assert (Hb : AnsiStr.index_bounds
                   (AnsiStr.ISlice (Some 0) (Some (length t)) None) (length t)
                 = Ok (0, length t, 1)).
    { unfold AnsiStr.index_bounds, slice_indices, clamp_bound.
      change (1 =? 0) with false. change (1 <? 0) with false. cbv iota.
      change (0 <? 0) with false. cbv iota.
      destruct (Z.ltb_spec (length t) 0); [lia|].
      repeat f_equal; lia. }
    destruct (getitem_spec t _ _ _ Hwf Hb) as (r & Hr & Hwr & Hf).
    rewrite sub_all in Hf
      by (try lia; destruct Hwf as (_ & _ & ->); lia).
    rewrite Hr. f_equal. apply wf_flat_inj; assumption.
  - intros a b step start stop _ Hb Hge.
    destruct (getitem_spec t (AnsiStr.ISlice a b step) start stop Hwf Hb)
      as (r & Hr & Hwr & Hf).
    assert (0 <= start \/ stop <= 0) as Hs.
    { unfold slice_indices in Hb.
      destruct (match step with Some k => k | None => 1 end =? 0);
        [discriminate|].
      injection Hb as Hs He Hk. rewrite Hk in *.
      change (1 <? 0) with false in *. cbv iota in *.
      unfold clamp_bound in Hs. destruct a as [v|]; [|lia].
      destruct (v <? 0); lia. }
    rewrite sub_empty in Hf by lia.
    rewrite Hr. f_equal. apply wf_flat_inj; [exact Hwr|apply wf_empty|exact Hf].
Qed.

(** *** Applying a colour or a style *)

Lemma truediv_chars cs d :
  map fst (flat (map (fun s => cstr.truediv s cs) d)) = map fst (flat d).
Proof.
  induction d as [|c d IH]; [reflexivity|].
  cbn [map]. rewrite !flat_cons, !map_app, IH. f_equal.
  rewrite !map_map. destruct cs; reflexivity.
Qed.

Lemma truediv_spec t cs :
  AnsiStr.truediv t cs
  = Ok (mkAnsiStr (canon_runs (map (fun s => cstr.truediv s cs) (data t)))
                  (len (flat (map (fun s => cstr.truediv s cs) (data t))))).
Proof.
  unfold AnsiStr.truediv.
  rewrite <- (map_map (fun s => cstr.truediv s cs) ACstr).
  apply init_cstrs.
Qed.

(** C9: applying a colour or a style always succeeds and leaves the content
    unchanged. *)
Theorem C9_overlay_keeps_content (t : AnsiStr) (cs : color_or_style) :
  exists r, AnsiStr.truediv t cs = Ok r /\
            AnsiStr.content r = AnsiStr.content t.
Proof.
  eexists. split; [apply truediv_spec|].
  rewrite !content_flat. simpl data.
  rewrite canon_runs_flat. apply truediv_chars.
Qed.

(** *** Every value built satisfies the invariants *)

Lemma mul_loop_wf self k : forall s r,
  wf s -> AnsiStr.mul_loop self k s = Ok r -> wf r.
Proof.
  induction k as [|k IH]; intros s r Hs H; simpl in H.
  - congruence.
  - rewrite init_cstrs in H. cbn [bind] in H.
    apply (IH _ _ (canon_runs_wf _) H).
Qed.

Lemma mul_wf self n r : AnsiStr.mul self n = Ok r -> wf r.
Proof.
  unfold AnsiStr.mul. rewrite init_nil. cbn [bind].
  apply mul_loop_wf, wf_empty.
Qed.

Lemma init_ok_wf args r :
  Forall arg_wf args -> AnsiStr.init args = Ok r -> wf r.
Proof.
  intros Hargs H. destruct (init_wf args Hargs) as (r' & Hr' & Hw & _).
  congruence.
Qed.

Lemma generated_wf t : generated t -> wf t.
Proof.
  apply (generated_mut wf (Forall arg_wf)).
  - intros args r _ Hargs H. exact (init_ok_wf _ _ Hargs H).
  - intros self s r _ Hself _ Hs H. unfold AnsiStr.add in H.
    apply (init_ok_wf [AAnsi self; s] r); [|exact H].
    constructor; [exact Hself|exact Hs].
  - intros self s r _ Hself H. unfold AnsiStr.radd in H.
    apply (init_ok_wf [AStr s; AAnsi self] r); [|exact H].
    constructor; [exact I|]. constructor; [exact Hself|constructor].
  - intros self idx r _ Hself H. exact (getitem_wf _ _ _ Hself H).
  - intros self n r _ _ H. exact (mul_wf _ _ _ H).
  - intros self cs r _ _ H. rewrite truediv_spec in H.
    injection H as <-. apply canon_runs_wf.
  - intros s cs r H. destruct cs; simpl in H;
      (apply (init_ok_wf _ r) in H;
       [exact H|constructor; [exact I|constructor]]).
  - constructor.
  - intros s args _ Hargs. constructor; [exact I|exact Hargs].
  - intros c args _ Hargs. constructor; [exact I|exact Hargs].
  - intros a args _ Ha _ Hargs. constructor; [exact Ha|exact Hargs].
Qed.

(** C6: in every value built by construction, concatenation, slicing,
    repetition and the application of colours and styles, no two adjacent
    runs have the same style and no run is empty. *)
Theorem C6_run_invariants (t : AnsiStr) :
  generated t -> merged (data t) /\ nonempty_runs (data t).
Proof. intros H. destruct (generated_wf t H) as (Hm & Hn & _). tauto. Qed.

(** ** The grid *)

Lemma bind_ok {A B} (m : result A) (k : A -> result B) r :
  bind m k = Ok r -> exists a, m = Ok a /\ k a = Ok r.
Proof. destruct m as [a|e]; simpl; [eauto|discriminate]. Qed.

(** A successful assignment at a non-negative index is an in-range update. *)
Lemma py_set_nonneg {A} (l : list A) i x l' :
  0 <= i -> py_set l i x = Ok l' ->
  l' = <[Z.to_nat i := x]> l /\ (Z.to_nat i < List.length l)%nat.
Proof.
  intros Hi. unfold py_set, py_index, len.
  destruct (Z.ltb_spec i 0); [lia|].
  destruct (Z.leb_spec 0 i); [|lia].
  destruct (Z.ltb_spec i (Z.of_nat (List.length l))); simpl;
    [|discriminate].
  intros Heq. injection Heq as <-. split; [reflexivity|lia].
Qed.

(** A successful assignment changes one cell to [x] and nothing else. *)
Lemma py_set_cells {A} (l : list A) i x l' :
  py_set l i x = Ok l' ->
  List.length l' = List.length l /\
  forall k y, l !! k = Some y -> l' !! k = Some y \/ l' !! k = Some x.
Proof.
  unfold py_set. destruct (py_index l i) as [n|]; [|discriminate].
  intros H. injection H as <-. split; [apply length_insert|].
  intros k y Hk. destruct (decide (n = k)) as [->|Hne].
  - right. apply list_lookup_insert_eq. apply (lookup_lt_Some _ _ _ Hk).
  - left. rewrite list_lookup_insert_ne by exact Hne. exact Hk.
Qed.

Lemma py_get_nonneg {A} (l : list A) i x :
  0 <= i -> l !! Z.to_nat i = Some x -> py_get l i = Ok x.
Proof.
  intros Hi Hx. rewrite <- (Z2Nat.id i Hi). apply py_get_nat. exact Hx.
Qed.

Lemma py_get_nonneg_inv {A} (l : list A) i x :
  0 <= i -> py_get l i = Ok x -> l !! Z.to_nat i = Some x.
Proof.
  intros Hi. unfold py_get, py_index.
  destruct (Z.ltb_spec i 0); [lia|].
  destruct (_ && _); [|discriminate].
  destruct (l !! Z.to_nat i); [congruence|discriminate].
Qed.

(** The loop of [__setitem__] only moves right, keeps the length of the line
    and leaves the cells outside [dest, dest') as they were. *)
Lemma put_chars_frame s idxs : forall line dest line' dest',
  0 <= dest ->
  CharGrid.put_chars s idxs line dest = Ok (line', dest') ->
  dest <= dest' /\
  List.length line' = List.length line /\
  forall k : nat,
    Z.of_nat k < dest \/ dest' <= Z.of_nat k -> line' !! k = line !! k.
Proof.
  induction idxs as [|i idxs IH]; intros line dest line' dest' Hd H.
  - simpl in H. injection H as <- <-. repeat split. lia.
  - cbn [CharGrid.put_chars] in H.
    apply bind_ok in H as (ch & _ & H).
    apply bind_ok in H as (line1 & Hset1 & H).
    apply bind_ok in H as (w & _ & H).
    apply (py_set_nonneg _ _ _ _ Hd) in Hset1 as [-> Hlt1].
    destruct (w =? 2).
    + apply bind_ok in H as (line2 & Hset2 & H).
      apply py_set_nonneg in Hset2 as [-> Hlt2]; [|lia].
      apply IH in H as (Hle & Hlen & Hfr); [|lia].
      split; [lia|]. split; [rewrite Hlen, !length_insert; reflexivity|].
      intros k Hk. rewrite Hfr by lia.
      rewrite !list_lookup_insert_ne by lia. reflexivity.
    + apply IH in H as (Hle & Hlen & Hfr); [|lia].
      split; [lia|]. split; [rewrite Hlen, length_insert; reflexivity|].
      intros k Hk. rewrite Hfr by lia.
      rewrite list_lookup_insert_ne by lia. reflexivity.
Qed.

(** What [char_at] returns for the positions of the text. *)
Lemma char_at_spec s (i : nat) c :
  text_wf s -> text_chars s !! i = Some c ->
  exists st, CharGrid.char_at s (Z.of_nat i) = Ok (mkcstr [c] st).
Proof.
  intros Hwf Hc. destruct s as [s|a]; cbn [text_chars text_wf] in *.
  - exists default. cbn [CharGrid.char_at].
    rewrite (py_get_nat _ _ _ Hc). reflexivity.
  - pose proof (lookup_lt_Some _ _ _ Hc) as Hlt.
    assert (Hlen : length a = len (AnsiStr.content a)).
    { destruct Hwf as (_ & _ & ->). rewrite content_flat, len_map.
      reflexivity. }
    assert (Hi : - length a <= Z.of_nat i < length a)
      by (rewrite Hlen; unfold len; lia).
    pose proof (getitem_int_in a (Z.of_nat i) Hwf Hi) as Hg. cbv zeta in Hg.
    destruct (Z.ltb_spec (Z.of_nat i) 0); [lia|].
    rewrite Nat2Z.id in Hg. destruct Hg as (c' & st & _ & Hc' & Hg).
    assert (Heq : Some c' = Some c) by (rewrite <- Hc; symmetry; exact Hc').
    injection Heq as ->.
    exists st. cbn [CharGrid.char_at]. rewrite Hg. cbn [bind data].
    apply py_get_head.
Qed.

Lemma cell_width_spec c w :
  wcwidth [c] = Ok w -> cell_width c = if w =? 2 then 2 else 1.
Proof.
  unfold cell_width. intros ->.
  destruct (Z.eqb_spec w 2) as [->|Hne]; [reflexivity|].
  destruct w as [|[p|p|]|p]; try reflexivity.
  destruct p as [p|p|]; try reflexivity. contradiction.
Qed.

(** Where the loop of [__setitem__] stops. *)
Lemma put_chars_dest s : text_wf s -> forall m k line dest line' dest',
  (k + m <= List.length (text_chars s))%nat ->
  CharGrid.put_chars s (map Z.of_nat (seq k m)) line dest = Ok (line', dest') ->
  dest' = dest + fold_right (fun c w => cell_width c + w) 0
                   (take m (drop k (text_chars s))).
Proof.
  intros Hwf. induction m as [|m IH]; intros k line dest line' dest' Hk H.
  - simpl in H. injection H as _ <-. simpl. lia.
  - cbn [seq map CharGrid.put_chars] in H.
    assert (Hlt : (k < List.length (text_chars s))%nat) by lia.
    destruct (lookup_lt_is_Some_2 _ _ Hlt) as [c Hc].
    destruct (char_at_spec s k c Hwf Hc) as [st Hch].
    rewrite Hch in H. cbn [bind] in H.
    apply bind_ok in H as (line1 & _ & H).
    apply bind_ok in H as (w & Hw & H). simpl value in Hw.
    rewrite (drop_S _ _ _ Hc). cbn [take fold_right].
    rewrite (cell_width_spec c w Hw).
    destruct (w =? 2).
    + apply bind_ok in H as (line2 & _ & H).
      apply IH in H; [|lia]. rewrite H. lia.
    + apply IH in H; [|lia]. rewrite H. lia.
Qed.

Lemma grow_lookup {A} (l : list A) n x (k : nat) y :
  l !! k = Some y -> CharGrid.grow l n x !! k = Some y.
Proof. intros H. unfold CharGrid.grow. apply lookup_app_l_Some. exact H. Qed.

Lemma py_assert_ok b : py_assert b = Ok tt -> b = true.
Proof. destruct b; [reflexivity|discriminate]. Qed.

Lemma text_len_spec s n :
  text_wf s -> CharGrid.text_len s = Ok n -> n = len (text_chars s).
Proof.
  destruct s as [s|a]; cbn [text_wf CharGrid.text_len text_chars].
  - intros _ H. injection H as <-. reflexivity.
  - intros Hwf H. rewrite (wf_len a Hwf) in H. injection H as <-.
    destruct Hwf as (_ & _ & ->). rewrite content_flat, len_map. reflexivity.
Qed.

(** The two edges of a successful write. If the write starts on the right
    half of a wide character, the cell to the left of the start holds a
    space afterwards; if the cell after the last one written was the right
    half of a wide character, it holds a space afterwards. *)
Lemma setitem_edges g lin col s g' :
  text_wf s -> text_chars s <> [] ->
  CharGrid.setitem g lin col s = Ok g' ->
  (1 <= col -> cell_at g lin col = Some (Some cstr.empty) ->
   cell_at g' lin (col - 1) = Some (Some space)) /\
  (cell_at g lin (end_col s col) = Some (Some cstr.empty) ->
   cell_at g' lin (end_col s col) = Some (Some space)).
Proof.
  intros Hwf Hne H. unfold CharGrid.setitem in H.
  apply bind_ok in H as (n & Hn & H).
  apply (text_len_spec s n Hwf) in Hn.
  destruct (Z.eqb_spec n 0) as [Hz|_].
  { exfalso. apply Hne. apply len_zero. congruence. }
  apply bind_ok in H as ([] & Hlin & H). apply py_assert_ok in Hlin.
  apply bind_ok in H as ([] & Hcol & H). apply py_assert_ok in Hcol.
  apply Z.leb_le in Hlin, Hcol.
  apply bind_ok in H as (line0 & Hline0 & H).
  apply (py_get_nonneg_inv _ _ _ Hlin) in Hline0.
  set (line1 := CharGrid.grow line0 (col + n) None) in H.
  apply bind_ok in H as (c & Hc & H).
  apply (py_get_nonneg_inv _ _ _ Hcol) in Hc.
  apply bind_ok in H as (line2 & Hline2 & H).
  apply bind_ok in H as ([line3 dest] & Hput & H).
  apply bind_ok in H as (line4 & Hline4 & H).
  apply bind_ok in H as (lines2 & Hlines2 & H).
  injection H as <-.
  apply (py_set_nonneg _ _ _ _ Hlin) in Hlines2 as [-> Hlinlt].
  (* the cells of the new grid on this line are those of [line4] *)
  assert (Hnew : forall k, cell_at
                   (mkCharGrid (<[Z.to_nat lin := line4]>
                                  (CharGrid.grow (lines g) lin [])))
                   lin k = line4 !! Z.to_nat k).
  { intros k. unfold cell_at. cbn [lines].
    rewrite list_lookup_insert_eq by exact Hlinlt. reflexivity. }
  (* the cells of the old grid on this line are still in [line1] *)
  assert (Hold : forall k x, cell_at g lin k = Some x ->
                             line1 !! Z.to_nat k = Some x).
  { intros k x Hk. unfold cell_at in Hk.
    destruct (lines g !! Z.to_nat lin) as [l|] eqn:Hl; [|discriminate].
    apply (grow_lookup _ lin []) in Hl. rewrite Hl in Hline0.
    injection Hline0 as <-. apply grow_lookup. exact Hk. }
  (* where the loop stops, and what it leaves alone *)
  assert (Hdest : dest = end_col s col).
  { unfold CharGrid.range in Hput.
    apply (put_chars_dest s Hwf) in Hput; [|unfold len in Hn; lia].
    rewrite Hput. unfold end_col. rewrite drop_0, firstn_all2; [reflexivity|].
    unfold len in Hn. lia. }
  apply put_chars_frame in Hput as (Hle & Hlen3 & Hframe); [|exact Hcol].
  split.
  - intros Hcol1 Hcell. apply Hold in Hcell.
    assert (Heq : c = Some cstr.empty).
    { rewrite Hc in Hcell. injection Hcell as ->. reflexivity. }
    destruct (decide (c = Some cstr.empty)) as [_|?]; [|contradiction].
    apply py_set_nonneg in Hline2 as [-> Hlt]; [|lia].
    rewrite Hnew.
    assert (H3 : line3 !! Z.to_nat (col - 1) = Some (Some space)).
    { rewrite Hframe by lia. apply list_lookup_insert_eq. exact Hlt. }
    destruct (dest <? len line3); [|injection Hline4 as <-; exact H3].
    apply bind_ok in Hline4 as (d & _ & Hline4).
    destruct (decide (d = Some cstr.empty));
      [|injection Hline4 as <-; exact H3].
    apply py_set_nonneg in Hline4 as [-> _]; [|lia].
    rewrite list_lookup_insert_ne by lia. exact H3.
  - intros Hcell. rewrite <- Hdest in *. apply Hold in Hcell.
    rewrite Hnew.
    assert (H2 : line2 !! Z.to_nat dest = Some (Some cstr.empty) \/
                 line2 !! Z.to_nat dest = Some (Some space)).
    { destruct (decide (c = Some cstr.empty)).
      - apply py_set_cells in Hline2 as [_ Hcells]. apply Hcells. exact Hcell.
      - injection Hline2 as <-. left. exact Hcell. }
    rewrite <- Hframe in H2 by lia.
    assert (Hlt : (Z.to_nat dest < List.length line3)%nat).
    { destruct H2 as [H2|H2]; apply (lookup_lt_Some _ _ _ H2). }
    destruct (Z.ltb_spec dest (len line3)) as [_|Hge];
      [|unfold len in Hge; lia].
    apply bind_ok in Hline4 as (d & Hd & Hline4).
    apply py_get_nonneg_inv in Hd; [|lia].
    destruct (decide (d = Some cstr.empty)) as [->|Hd'].
    + apply py_set_nonneg in Hline4 as [-> _]; [|lia].
      apply list_lookup_insert_eq. exact Hlt.
    + injection Hline4 as <-. destruct H2 as [H2|H2]; [|exact H2].
      rewrite H2 in Hd. injection Hd as <-. contradiction.
Qed.

(** C3: the example of the wide character written over [abcd], and the two
    edges of a write that covers half of a wide character. *)
Theorem C3_wide_overlap :
  (do g1 <- CharGrid.setitem CharGrid.new 0 0 (TStr (lit "abcd"));
   do g2 <- CharGrid.setitem g1 0 0 (TStr [0x1f7e5%N]);
   py_get (CharGrid.print_content g2) 0) = Ok (0x1f7e5%N :: lit "cd") /\
  (forall g lin col s g',
      text_wf s -> text_chars s <> [] ->
      CharGrid.setitem g lin col s = Ok g' ->
      (1 <= col -> cell_at g lin col = Some (Some cstr.empty) ->
       cell_at g' lin (col - 1) = Some (Some space)) /\
      (cell_at g lin (end_col s col) = Some (Some cstr.empty) ->
       cell_at g' lin (end_col s col) = Some (Some space))).
Proof. split; [reflexivity|]. exact setitem_edges. Qed.

(** C3 on a line that holds a wide character: writing [x] on its right half
    leaves a space in its left half, and writing [x] on its left half leaves
    a space in its right half. *)
Lemma C3_wide_overlap_witness :
  let g := mkCharGrid
             [[Some (cstr.of_str [0x1f7e5%N]); Some cstr.empty; None]] in
  (exists g', CharGrid.setitem g 0 1 (TStr (lit "x")) = Ok g' /\
              cell_at g' 0 0 = Some (Some space)) /\
  (exists g', CharGrid.setitem g 0 0 (TStr (lit "x")) = Ok g' /\
              cell_at g' 0 1 = Some (Some space)).
Proof.
  intros g. destruct C3_wide_overlap as [_ Hedges]. split.
  - eexists. split; [reflexivity|].
    apply (proj1 (Hedges g 0 1 (TStr (lit "x")) _ I ltac:(discriminate)
                    eq_refl)); [lia|reflexivity].
  - eexists. split; [reflexivity|].
    apply (proj2 (Hedges g 0 0 (TStr (lit "x")) _ I ltac:(discriminate)
                    eq_refl)). reflexivity.
Defined.

(** C2, at the failing input: on a new grid, writing two wide characters at
    column 0 writes past the end of the line, which was grown to three
    cells only. *)
Theorem C2_two_wide_characters_overflow :
  wcwidth [0x1f7e5%N] = Ok 2 /\
  CharGrid.grow (@nil cell) (0 + len [0x1f7e5%N; 0x1f7e5%N]) None
    = [None; None; None] /\
  CharGrid.setitem CharGrid.new 0 0 (TStr [0x1f7e5%N; 0x1f7e5%N])
    = Raise IndexError.
Proof. repeat split; reflexivity. Qed.

(** C6 on the concatenation of [ab] and [cd]. *)
Lemma C6_run_invariants_witness :
  let t := mkAnsiStr [mkcstr (lit "abcd") default] 4 in
  generated t /\ merged (data t) /\ nonempty_runs (data t).
Proof.
  intros t.
  assert (H : generated t).
  { apply (gen_init [AStr (lit "ab"); AStr (lit "cd")]);
      [repeat constructor|reflexivity]. }
  split; [exact H|exact (C6_run_invariants t H)].
Defined.

(** C8 on [sample]. *)
Lemma C8_slice_witness :
  wf sample /\
  AnsiStr.getitem sample (AnsiStr.ISlice (Some 0) (Some 3) None) = Ok sample /\
  AnsiStr.getitem sample (AnsiStr.ISlice (Some 2) (Some (-2)) None)
    = Ok (mkAnsiStr [] 0).
Proof.
  assert (Hwf : wf sample).
  { repeat split; [discriminate|repeat constructor; discriminate]. }
  destruct (C8_slice sample Hwf) as [Hall Hempty].
  split; [exact Hwf|]. split; [exact Hall|].
  apply (Hempty (Some 2) (Some (-2)) None 2 1);
    [left; reflexivity|reflexivity|lia].
Defined.

(** C10 on [sample]: the last character, and an index past the end. *)
Lemma C10_integer_index_witness :
  wf sample /\
  AnsiStr.getitem sample (AnsiStr.IInt (-1))
    = Ok (mkAnsiStr
            [mkcstr (lit "c")
                    (mkStyle None None true false false false false false)]
            1) /\
  AnsiStr.getitem sample (AnsiStr.IInt 3) = Ok (mkAnsiStr [] 0).
Proof.
  assert (Hwf : wf sample).
  { repeat split; [discriminate|repeat constructor; discriminate]. }
  destruct (C10_integer_index sample (-1) Hwf) as [Hin _].
  destruct (C10_integer_index sample 3 Hwf) as [_ Hout].
  split; [exact Hwf|]. split.
  - destruct (Hin ltac:(simpl; lia)) as (c & st & Hx & _ & Hg).
    simpl in Hx. injection Hx as <- <-. exact Hg.
  - apply Hout. simpl. lia.
Defined.

(** * Further properties *)

(** ** Styles *)

Lemma update_assoc (a b c : Style) :
  Style.update (Style.update a b) c = Style.update a (Style.update b c).
Proof.
  destruct a as [fa ba a1 a2 a3 a4 a5 a6], b as [fb bb b1 b2 b3 b4 b5 b6],
    c as [fc bc c1 c2 c3 c4 c5 c6].
  unfold Style.update; simpl.
  destruct fb, bb, fc, bc; simpl; rewrite ?orb_assoc; reflexivity.
Qed.

Lemma update_default_r (a : Style) : Style.update a default = a.
Proof.
  destruct a. unfold Style.update, default; simpl.
  rewrite !orb_false_r. reflexivity.
Qed.

Lemma update_default_l (a : Style) : Style.update default a = a.
Proof. destruct a as [fa ba ? ? ? ? ? ?]. destruct fa, ba; reflexivity. Qed.

(** Styles under [update] form a monoid: [update] is associative and the
    default style is neutral on both sides. *)
Theorem update_monoid (a b c : Style) :
  Style.update (Style.update a b) c = Style.update a (Style.update b c) /\
  Style.update a default = a /\
  Style.update default a = a.
Proof.
  split; [apply update_assoc|].
  split; [apply update_default_r|apply update_default_l].
Qed.

Lemma join_nil_inv sep l :
  Forall (fun x => x <> []) l -> join sep l = [] -> l = [].
Proof.
  intros Hl Hj. destruct l as [|x l]; [reflexivity|].
  apply Forall_cons_iff in Hl as [Hx _]. exfalso.
  destruct l; simpl in Hj; [contradiction|].
  apply app_eq_nil in Hj as [Hj _]. contradiction.
Qed.

Lemma fg_sgr_nil c : Color.fg_sgr c = [] <-> c = Named DEFAULT.
Proof.
  split; [|intros ->; reflexivity].
  destruct c as [n|f|r]; simpl; [|discriminate..].
  destruct n; try discriminate. reflexivity.
Qed.

Lemma bg_sgr_nil c : Color.bg_sgr c = [] <-> c = Named DEFAULT.
Proof.
  split; [|intros ->; reflexivity].
  destruct c as [n|f|r]; simpl; [|discriminate..].
  destruct n; try discriminate. reflexivity.
Qed.

Lemma nonempty_codes_nil codes :
  Style.nonempty_codes codes = [] <-> Forall (fun c => c = []) codes.
Proof.
  unfold Style.nonempty_codes. induction codes as [|c codes IH].
  - split; [constructor|reflexivity].
  - rewrite filter_cons, Forall_cons_iff, <- IH.
    case_decide as Hc.
    + split; [discriminate|]. intros [? _]. contradiction.
    + tauto.
Qed.

(** The SGR string is empty exactly when no attribute is set and each of
    the two colours is unset or the [DEFAULT] named colour. *)
Theorem sgr_empty_iff (s : Style) :
  Style.sgr s = [] <->
  bold s = false /\ italic s = false /\ underline s = false /\
  blink s = false /\ reverse s = false /\ strikethrough s = false /\
  (fg s = None \/ fg s = Some (Named DEFAULT)) /\
  (bg s = None \/ bg s = Some (Named DEFAULT)).
Proof.
  unfold Style.sgr. split.
  - intros H. apply join_nil_inv in H.
    + apply nonempty_codes_nil in H.
      repeat match goal with
             | H : Forall _ (_ :: _) |- _ =>
                 apply Forall_cons_iff in H as [? H]
             end.
      destruct (bold s), (italic s), (underline s), (blink s), (reverse s),
        (strikethrough s); try discriminate.
      repeat split.
      * destruct (fg s) as [c|]; [right|left; reflexivity].
        f_equal. apply fg_sgr_nil. assumption.
      * destruct (bg s) as [c|]; [right|left; reflexivity].
        f_equal. apply bg_sgr_nil. assumption.
    + unfold Style.nonempty_codes. apply Forall_forall. intros x Hx.
      apply list_elem_of_In, list_elem_of_filter in Hx as [Hx _]. exact Hx.
  - intros (-> & -> & -> & -> & -> & -> & Hf & Hb).
    destruct Hf as [-> | ->], Hb as [-> | ->]; reflexivity.
Qed.

(** ** Formatted strings: construction and concatenation *)

Lemma arg_runs_content s : map fst (flat (arg_runs s)) = arg_content s.
Proof.
  destruct s as [s|c|a]; simpl arg_runs; simpl arg_content.
  - rewrite flat_cons, flat_nil, app_nil_r, map_map. simpl. apply map_id.
  - rewrite flat_cons, flat_nil, app_nil_r, map_map. simpl. apply map_id.
  - symmetry. apply content_flat.
Qed.

Lemma args_runs_content args :
  map fst (flat (args_runs args)) = concat (map arg_content args).
Proof.
  unfold args_runs. induction args as [|s args IH]; [reflexivity|].
  cbn [map concat]. rewrite flat_app, map_app, IH, arg_runs_content.
  reflexivity.
Qed.

Lemma wf_length_content t : wf t -> length t = len (AnsiStr.content t).
Proof.
  intros (_ & _ & ->). rewrite content_flat, len_map. reflexivity.
Qed.

(** The constructor keeps the characters of its arguments, in order, and
    caches their number. *)
Theorem init_content (args : list arg) :
  Forall arg_wf args ->
  exists r, AnsiStr.init args = Ok r /\ wf r /\
            AnsiStr.content r = concat (map arg_content args) /\
            length r = len (concat (map arg_content args)).
Proof.
  intros Hargs. destruct (init_wf args Hargs) as (r & Hr & Hwf & Hf).
  exists r. split; [exact Hr|]. split; [exact Hwf|].
  assert (Hc : AnsiStr.content r = concat (map arg_content args)).
  { rewrite content_flat, Hf. apply args_runs_content. }
  split; [exact Hc|]. rewrite <- Hc. apply wf_length_content. exact Hwf.
Qed.

Lemma add_spec a s :
  wf a -> arg_wf s ->
  exists r, AnsiStr.add a s = Ok r /\ wf r /\
            flat (data r) = flat (data a) ++ flat (arg_runs s).
Proof.
  intros Ha Hs. unfold AnsiStr.add.
  destruct (init_wf [AAnsi a; s]) as (r & Hr & Hwf & Hf).
  { constructor; [exact Ha|]. constructor; [exact Hs|constructor]. }
  exists r. split; [exact Hr|]. split; [exact Hwf|].
  rewrite Hf. unfold args_runs. simpl. rewrite app_nil_r, flat_app.
  reflexivity.
Qed.

Lemma wf_empty_str : wf empty_str.
Proof. exact wf_empty. Qed.

(** Concatenation is associative and the empty string is neutral, on values
    that satisfy the invariants: the run representation does not depend on
    the order in which strings were joined. *)
Theorem add_monoid (a b c : AnsiStr) :
  wf a -> wf b -> wf c ->
  (do ab <- AnsiStr.add a (AAnsi b); AnsiStr.add ab (AAnsi c))
  = (do bc <- AnsiStr.add b (AAnsi c); AnsiStr.add a (AAnsi bc)) /\
  AnsiStr.add a (AAnsi empty_str) = Ok a /\
  AnsiStr.add empty_str (AAnsi a) = Ok a /\
  AnsiStr.add a (AStr []) = Ok a /\
  AnsiStr.radd a [] = Ok a.
Proof.
  intros Ha Hb Hc. split; [|split; [|split; [|split]]].
  - destruct (add_spec a (AAnsi b) Ha Hb) as (ab & Hab & Hwab & Hfab).
    destruct (add_spec b (AAnsi c) Hb Hc) as (bc & Hbc & Hwbc & Hfbc).
    destruct (add_spec ab (AAnsi c) Hwab Hc) as (r1 & Hr1 & Hw1 & Hf1).
    destruct (add_spec a (AAnsi bc) Ha Hwbc) as (r2 & Hr2 & Hw2 & Hf2).
    rewrite Hab, Hbc. cbn [bind]. rewrite Hr1, Hr2. f_equal.
    apply wf_flat_inj; [exact Hw1|exact Hw2|].
    rewrite Hf1, Hf2, Hfab. simpl arg_runs. rewrite Hfbc.
    simpl arg_runs. rewrite app_assoc. reflexivity.
  - destruct (add_spec a (AAnsi empty_str) Ha wf_empty_str)
      as (r & Hr & Hw & Hf).
    rewrite Hr. f_equal. apply wf_flat_inj; [exact Hw|exact Ha|].
    rewrite Hf. simpl. apply app_nil_r.
  - destruct (add_spec empty_str (AAnsi a) wf_empty_str Ha)
      as (r & Hr & Hw & Hf).
    rewrite Hr. f_equal. apply wf_flat_inj; [exact Hw|exact Ha|].
    rewrite Hf. reflexivity.
  - destruct (add_spec a (AStr []) Ha I) as (r & Hr & Hw & Hf).
    rewrite Hr. f_equal. apply wf_flat_inj; [exact Hw|exact Ha|].
    rewrite Hf. simpl. apply app_nil_r.
  - unfold AnsiStr.radd.
    destruct (init_wf [AStr []; AAnsi a]) as (r & Hr & Hw & Hf).
    { constructor; [exact I|]. constructor; [exact Ha|constructor]. }
    rewrite Hr. f_equal. apply wf_flat_inj; [exact Hw|exact Ha|].
    rewrite Hf. unfold args_runs. simpl. rewrite app_nil_r. reflexivity.
Qed.

(** ** Formatted strings: slicing *)

Lemma slice_bounds_unit a b n :
  0 <= n ->
  exists start stop,
    slice_indices a b None n = Ok (start, stop, 1) /\
    start = clamp_bound a 0 0 n n /\ stop = clamp_bound b n 0 n n /\
    0 <= start <= n /\ 0 <= stop <= n.
Proof.
  intros Hn. unfold slice_indices.
  change (1 =? 0) with false. change (1 <? 0) with false. cbv iota.
  do 2 eexists. split; [reflexivity|]. split; [reflexivity|].
  split; [reflexivity|]. unfold clamp_bound.
  destruct a as [a|], b as [b|];
    repeat match goal with
           | |- context [?x <? 0] => destruct (Z.ltb_spec x 0)
           end;
    lia.
Qed.

Lemma py_slice_sub {A} (l : list A) a b :
  py_slice l a b
  = sub l (clamp_bound a 0 0 (len l) (len l))
          (clamp_bound b (len l) 0 (len l) (len l)).
Proof.
  pose proof (len_nonneg l) as Hn.
  destruct (slice_bounds_unit a b (len l) Hn)
    as (start & stop & _ & Hs & _ & Hr & _).
  unfold py_slice, sub. cbv zeta. rewrite <- Hs.
  rewrite Z.max_r by lia. reflexivity.
Qed.

(** A slice of stride 1 always succeeds, and its content is the Python slice
    of the content: slicing a formatted string and slicing its text
    agree. *)
Theorem slice_content (t : AnsiStr) (a b : option Z) :
  wf t ->
  exists r, AnsiStr.getitem t (AnsiStr.ISlice a b None) = Ok r /\ wf r /\
            AnsiStr.content r = py_slice (AnsiStr.content t) a b.
Proof.
  intros Hwf.
  assert (Hn : 0 <= length t).
  { destruct Hwf as (_ & _ & ->). apply len_nonneg. }
  destruct (slice_bounds_unit a b (length t) Hn)
    as (start & stop & Hb & Hs & He & _).
  destruct (getitem_spec t (AnsiStr.ISlice a b None) start stop Hwf Hb)
    as (r & Hr & Hwr & Hf).
  exists r. split; [exact Hr|]. split; [exact Hwr|].
  rewrite py_slice_sub, !content_flat, Hf, sub_map, len_map.
  destruct Hwf as (_ & _ & <-). rewrite Hs, He. reflexivity.
Qed.

Lemma sub_split {A} (f : list A) k :
  0 <= k -> sub f 0 k ++ sub f k (len f) = f.
Proof.
  intros Hk. unfold sub, len. rewrite !Z.max_r by lia.
  change (Z.to_nat 0) with 0%nat. rewrite drop_0, Z.sub_0_r.
  rewrite (firstn_all2 (n := Z.to_nat (Z.of_nat (List.length f) - k)))
    by (rewrite length_skipn; lia).
  apply firstn_skipn.
Qed.

(** Cutting a string at any index and joining the two parts gives the string
    back: [t[:k] + t[k:] == t]. *)
Theorem slice_rejoin (t : AnsiStr) (k : Z) :
  wf t ->
  (do l <- AnsiStr.getitem t (AnsiStr.ISlice None (Some k) None);
   do r <- AnsiStr.getitem t (AnsiStr.ISlice (Some k) None None);
   AnsiStr.add l (AAnsi r)) = Ok t.
Proof.
  intros Hwf.
  assert (Hn : 0 <= length t).
  { destruct Hwf as (_ & _ & ->). apply len_nonneg. }
  destruct (slice_bounds_unit None (Some k) (length t) Hn)
    as (s1 & e1 & Hb1 & Hs1 & He1 & _).
  destruct (slice_bounds_unit (Some k) None (length t) Hn)
    as (s2 & e2 & Hb2 & Hs2 & He2 & Hr2 & _).
  destruct (getitem_spec t (AnsiStr.ISlice None (Some k) None) s1 e1 Hwf Hb1)
    as (l & Hl & Hwl & Hfl).
  destruct (getitem_spec t (AnsiStr.ISlice (Some k) None None) s2 e2 Hwf Hb2)
    as (r & Hr & Hwr & Hfr).
  destruct (add_spec l (AAnsi r) Hwl Hwr) as (j & Hj & Hwj & Hfj).
  rewrite Hl. cbn [bind]. rewrite Hr. cbn [bind]. rewrite Hj. f_equal.
  apply wf_flat_inj; [exact Hwj|exact Hwf|].
  rewrite Hfj. simpl arg_runs. rewrite Hfl, Hfr.
  assert (e1 = s2) as ->.
  { rewrite He1, Hs2. reflexivity. }
  simpl in Hs1, He2. subst s1 e2.
  destruct Hwf as (_ & _ & ->). apply sub_split. lia.
Qed.

(** A slice whose stride is not 1 is rejected: [ValueError] for a stride
    of 0, as for any Python slice, and the assertion of [__getitem__] for
    every other stride. *)
Theorem slice_stride_rejected (t : AnsiStr) (a b : option Z) (k : Z) :
  0 <= length t ->
  (k = 0 ->
   AnsiStr.getitem t (AnsiStr.ISlice a b (Some k))
   = Raise (ValueError (lit "slice step cannot be zero"))) /\
  (k <> 0 -> k <> 1 ->
   AnsiStr.getitem t (AnsiStr.ISlice a b (Some k)) = Raise AssertionError).
Proof.
  intros Hn. unfold AnsiStr.getitem, AnsiStr.__len__, AnsiStr.index_bounds,
    slice_indices.
  destruct (Z.ltb_spec (length t) 0); [lia|]. cbn [bind]. split.
  - intros ->. reflexivity.
  - intros H0 H1. apply Z.eqb_neq in H0, H1. rewrite H0. cbn [bind].
    rewrite H1. reflexivity.
Qed.

(** ** Formatted strings: repetition *)

Lemma mul_loop_spec self k : forall s,
  exists r, AnsiStr.mul_loop self k s = Ok r /\ (k <> O -> wf r) /\
            (k = O -> r = s) /\
            flat (data r)
            = flat (data s) ++ concat (replicate k (flat (data self))).
Proof.
  induction k as [|k IH]; intros s.
  - exists s. simpl. rewrite app_nil_r. tauto.
  - cbn [AnsiStr.mul_loop]. rewrite init_cstrs. cbn [bind].
    destruct (IH (mkAnsiStr (canon_runs (data s ++ data self))
                            (len (flat (data s ++ data self)))))
      as (r & Hr & Hw & Hz & Hf).
    exists r. split; [exact Hr|]. split; [|split; [discriminate|]].
    + intros _. destruct k; [|apply Hw; discriminate].
      rewrite (Hz eq_refl). apply canon_runs_wf.
    + rewrite Hf. simpl data. rewrite canon_runs_flat, flat_app.
      simpl. rewrite <- app_assoc. reflexivity.
Qed.

Lemma map_concat_replicate {A B} (g : A -> B) k (f : list A) :
  map g (concat (replicate k f)) = concat (replicate k (map g f)).
Proof.
  induction k as [|k IH]; [reflexivity|].
  cbn [replicate concat]. rewrite map_app, IH. reflexivity.
Qed.

(** Repetition always succeeds. The result satisfies the invariants, its
    content is the content repeated [n] times (nothing for [n <= 0]) and its
    length is [n] times the number of code points. *)
Theorem mul_content (t : AnsiStr) (n : Z) :
  exists r, AnsiStr.mul t n = Ok r /\ wf r /\
            AnsiStr.content r
            = concat (replicate (Z.to_nat n) (AnsiStr.content t)) /\
            length r = Z.max 0 n * len (AnsiStr.content t) /\
            (n <= 0 -> r = empty_str).
Proof.
  unfold AnsiStr.mul. rewrite init_nil. cbn [bind].
  destruct (mul_loop_spec t (Z.to_nat n) (mkAnsiStr [] 0))
    as (r & Hr & Hw & Hz & Hf).
  assert (Hwf : wf r).
  { destruct (Z.to_nat n) eqn:Hn; [|apply Hw; discriminate].
    rewrite (Hz eq_refl). apply wf_empty. }
  assert (Hc : AnsiStr.content r
               = concat (replicate (Z.to_nat n) (AnsiStr.content t))).
  { rewrite !content_flat, Hf. cbn [data]. rewrite flat_nil.
    cbn [app]. apply map_concat_replicate. }
  exists r. split; [exact Hr|]. split; [exact Hwf|]. split; [exact Hc|].
  split.
  - rewrite (wf_length_content r Hwf), Hc.
    assert (Hlen : forall k (x : str),
               len (concat (replicate k x)) = Z.of_nat k * len x).
    { induction k as [|k IH]; intros x; [reflexivity|].
      cbn [replicate concat]. rewrite len_app, IH. lia. }
    rewrite Hlen. f_equal. lia.
  - intros Hn. apply Hz. lia.
Qed.

(** ** Formatted strings: applying a colour or a style *)

Lemma flat_map_style (g : Style -> Style) d :
  flat (map (fun c => mkcstr (value c) (g (style c))) d)
  = map (fun x => (fst x, g (snd x))) (flat d).
Proof.
  induction d as [|c d IH]; [reflexivity|].
  cbn [map]. rewrite !flat_cons, map_app, IH, map_map. reflexivity.
Qed.

Lemma truediv_as_map cs d :
  map (fun s => cstr.truediv s cs) d
  = map (fun c => mkcstr (value c) (apply_style cs (style c))) d.
Proof. apply map_ext. intros c. destruct cs; reflexivity. Qed.

Lemma truediv_flat t cs :
  exists r, AnsiStr.truediv t cs = Ok r /\ wf r /\
            flat (data r)
            = map (fun x => (fst x, apply_style cs (snd x))) (flat (data t)).
Proof.
  eexists. split; [apply truediv_spec|]. split; [apply canon_runs_wf|].
  simpl data. rewrite canon_runs_flat, truediv_as_map. apply flat_map_style.
Qed.

(** Applying a colour or a style restyles every character on its own: each
    keeps its place and gets its old style updated, and the length is
    unchanged. *)
Theorem truediv_pointwise (t : AnsiStr) (cs : color_or_style) :
  exists r, AnsiStr.truediv t cs = Ok r /\ wf r /\
            flat (data r)
            = map (fun x => (fst x, apply_style cs (snd x)))
                  (flat (data t)) /\
            length r = len (flat (data t)).
Proof.
  destruct (truediv_flat t cs) as (r & Hr & Hw & Hf).
  exists r. split; [exact Hr|]. split; [exact Hw|]. split; [exact Hf|].
  destruct Hw as (_ & _ & ->). rewrite Hf, len_map. reflexivity.
Qed.

Lemma map_flat_id t (g : Style -> Style) :
  (forall st, g st = st) ->
  map (fun x : char * Style => (fst x, g (snd x))) (flat (data t))
  = flat (data t).
Proof.
  intros Hg. rewrite <- (map_id (flat (data t))) at 2.
  apply map_ext. intros [c st]. simpl. rewrite Hg. reflexivity.
Qed.

(** The laws of the application of styles: the default style changes
    nothing; two styles in a row are one application of their [update];
    a colour is the style that only sets the foreground; of two colours in
    a row the last one wins. *)
Theorem truediv_laws (t : AnsiStr) (s1 s2 : Style) (c1 c2 : Color) :
  wf t ->
  AnsiStr.truediv t (IsStyle default) = Ok t /\
  (do r <- AnsiStr.truediv t (IsStyle s1); AnsiStr.truediv r (IsStyle s2))
  = AnsiStr.truediv t (IsStyle (Style.update s1 s2)) /\
  AnsiStr.truediv t (IsColor c1)
  = AnsiStr.truediv t
      (IsStyle (mkStyle (Some c1) None false false false false false false)) /\
  (do r <- AnsiStr.truediv t (IsColor c1); AnsiStr.truediv r (IsColor c2))
  = AnsiStr.truediv t (IsColor c2).
Proof.
  intros Hwf. split; [|split; [|split]].
  - destruct (truediv_flat t (IsStyle default)) as (r & Hr & Hw & Hf).
    rewrite Hr. f_equal. apply wf_flat_inj; [exact Hw|exact Hwf|].
    rewrite Hf. apply map_flat_id. intros st.
    apply update_default_r.
  - destruct (truediv_flat t (IsStyle s1)) as (r & Hr & Hw & Hf).
    destruct (truediv_flat r (IsStyle s2)) as (r2 & Hr2 & Hw2 & Hf2).
    destruct (truediv_flat t (IsStyle (Style.update s1 s2)))
      as (r3 & Hr3 & Hw3 & Hf3).
    rewrite Hr. cbn [bind]. rewrite Hr2, Hr3. f_equal.
    apply wf_flat_inj; [exact Hw2|exact Hw3|].
    rewrite Hf2, Hf, Hf3, map_map. apply map_ext. intros [c st]. simpl.
    f_equal. apply update_assoc.
  - destruct (truediv_flat t (IsColor c1)) as (r & Hr & Hw & Hf).
    destruct (truediv_flat t (IsStyle (mkStyle (Some c1) None false false
                                               false false false false)))
      as (r2 & Hr2 & Hw2 & Hf2).
    rewrite Hr, Hr2. f_equal. apply wf_flat_inj; [exact Hw|exact Hw2|].
    rewrite Hf, Hf2. apply map_ext. intros [c st]. simpl. f_equal.
    destruct st. unfold Style.update, Style.replace_fg. simpl.
    rewrite !orb_false_r. reflexivity.
  - destruct (truediv_flat t (IsColor c1)) as (r & Hr & Hw & Hf).
    destruct (truediv_flat r (IsColor c2)) as (r2 & Hr2 & Hw2 & Hf2).
    destruct (truediv_flat t (IsColor c2)) as (r3 & Hr3 & Hw3 & Hf3).
    rewrite Hr. cbn [bind]. rewrite Hr2, Hr3. f_equal.
    apply wf_flat_inj; [exact Hw2|exact Hw3|].
    rewrite Hf2, Hf, Hf3, map_map. apply map_ext. intros [c st]. reflexivity.
Qed.

(** ** Display widths *)

Lemma wcwidth_ok c : _wcwidth [c] = Ok (char_width c).
Proof.
  unfold char_width, _wcwidth. change (len [c] =? 0) with false.
  cbv iota. cbn [ord bind].
  destruct ((32 <=? c) && (c <? 127))%N; [reflexivity|].
  destruct ((c <? 32) || (127 <=? c) && (c <? 160))%N; [reflexivity|].
  destruct (existsb _ WIDE); reflexivity.
Qed.

(** [_wcwidth] never fails on one character. It gives -1 exactly to the
    control characters, 1 to printable ASCII, and 1 or 2 to the rest; the
    empty string has width 0. *)
Theorem wcwidth_char (c : char) :
  _wcwidth [] = Ok 0 /\
  exists w, _wcwidth [c] = Ok w /\
            (w = -1 \/ w = 1 \/ w = 2) /\
            (w = -1 <-> is_control c) /\
            ((32 <= c < 127)%N -> w = 1).
Proof.
  split; [reflexivity|]. unfold _wcwidth, is_control.
  change (len [c] =? 0) with false. cbv iota. cbn [ord bind].
  destruct (N.leb_spec 32 c), (N.ltb_spec c 127); cbn [andb].
  - eexists. split; [reflexivity|]. repeat split; try lia; auto.
  - destruct (N.ltb_spec c 32); [lia|].
    destruct (N.leb_spec 127 c); [|lia]. cbn [orb andb].
    destruct (N.ltb_spec c 160).
    + eexists. split; [reflexivity|]. repeat split; try lia; auto.
    + destruct (existsb _ WIDE);
        (eexists; split; [reflexivity|]; repeat split; try lia; auto).
  - destruct (N.ltb_spec c 32); [|lia]. cbn [orb].
    eexists. split; [reflexivity|]. repeat split; try lia; auto.
  - lia.
Qed.

Lemma wcswidth_spec s : forall acc,
  foldM (fun acc ch => do w <- _wcwidth [ch]; Ok (acc + w)) s acc
  = Ok (acc + sum_widths s).
Proof.
  induction s as [|c s IH]; intros acc; cbn [foldM sum_widths fold_right].
  - rewrite Z.add_0_r. reflexivity.
  - rewrite wcwidth_ok. cbn [bind]. rewrite IH. f_equal.
    fold (sum_widths s). lia.
Qed.

Lemma sum_widths_app s1 s2 :
  sum_widths (s1 ++ s2) = sum_widths s1 + sum_widths s2.
Proof.
  unfold sum_widths. induction s1 as [|c s1 IH]; simpl; [reflexivity|].
  rewrite IH. lia.
Qed.

Lemma width_runs d : forall acc,
  foldM (fun acc c => do w <- wcswidth (value c); Ok (acc + w)) d acc
  = Ok (acc + sum_widths (map fst (flat d))).
Proof.
  induction d as [|c d IH]; intros acc; cbn [foldM].
  - simpl. rewrite Z.add_0_r. reflexivity.
  - unfold wcswidth, _wcswidth at 1. rewrite wcswidth_spec. cbn [bind].
    rewrite IH, flat_cons, map_app, sum_widths_app, map_map. simpl.
    rewrite map_id. f_equal. lia.
Qed.

Lemma width_sum t : AnsiStr_width t = Ok (sum_widths (AnsiStr.content t)).
Proof. unfold AnsiStr_width. rewrite width_runs, content_flat. reflexivity. Qed.

(** The width of a formatted string never fails and is the sum of the
    widths of the characters of its content, whatever its runs are. *)
Theorem width_of_content (t : AnsiStr) :
  AnsiStr_width t = Ok (sum_widths (AnsiStr.content t)) /\
  wcswidth (AnsiStr.content t) = Ok (sum_widths (AnsiStr.content t)).
Proof.
  split; [apply width_sum|].
  unfold wcswidth, _wcswidth. rewrite wcswidth_spec. reflexivity.
Qed.

(** Widths add up under concatenation and are unchanged by the application
    of a colour or a style. *)
Theorem width_add_truediv (a b : AnsiStr) (cs : color_or_style) :
  wf a -> wf b ->
  (exists r wa wb, AnsiStr.add a (AAnsi b) = Ok r /\
                   AnsiStr_width a = Ok wa /\ AnsiStr_width b = Ok wb /\
                   AnsiStr_width r = Ok (wa + wb)) /\
  (exists r, AnsiStr.truediv a cs = Ok r /\
             AnsiStr_width r = AnsiStr_width a).
Proof.
  intros Ha Hb. split.
  - destruct (add_spec a (AAnsi b) Ha Hb) as (r & Hr & _ & Hf).
    exists r, (sum_widths (AnsiStr.content a)),
      (sum_widths (AnsiStr.content b)).
    split; [exact Hr|]. split; [apply width_sum|].
    split; [apply width_sum|].
    rewrite (width_sum r), !content_flat, Hf, map_app, sum_widths_app.
    reflexivity.
  - destruct (truediv_flat a cs) as (r & Hr & _ & Hf).
    exists r. split; [exact Hr|].
    rewrite (width_sum r), (width_sum a).
    rewrite !content_flat, Hf, map_map. reflexivity.
Qed.

(** ** Rendering *)

(** A plain string goes through [AnsiStr] unchanged: the value built from
    it has the string as its content and as its rendering, with no escape
    sequence, and the length of the string. *)
Theorem plain_round_trip (s : str) :
  exists t, AnsiStr.init [AStr s] = Ok t /\
            AnsiStr.content t = s /\
            AnsiStr_str t = s /\
            AnsiStr.__len__ t = Ok (len s).
Proof.
  destruct s as [|c s].
  - exists (mkAnsiStr [] 0). repeat split.
  - exists (mkAnsiStr [cstr.of_str (c :: s)] (len (c :: s))).
    split; [|repeat split].
    + unfold AnsiStr.init. cbn [foldM].
      change ([] : list cstr) with (rev (@nil cstr)).
      rewrite init_step_str. reflexivity.
    + unfold AnsiStr_str. simpl. f_equal. apply app_nil_r.
Qed.

(** ** The grid: the loop of a write *)

Lemma splice_nil {A} (line : list A) d : splice line d [] = line.
Proof.
  unfold splice. simpl. rewrite Nat.add_0_r. apply firstn_skipn.
Qed.

Lemma splice_length {A} (line : list A) d cs :
  (d + List.length cs <= List.length line)%nat ->
  List.length (splice line d cs) = List.length line.
Proof.
  intros H. unfold splice.
  rewrite !length_app, length_take, length_drop. lia.
Qed.

Lemma splice_lookup_l {A} (line : list A) d cs (i : nat) :
  (i < d)%nat -> (d <= List.length line)%nat ->
  splice line d cs !! i = line !! i.
Proof.
  intros Hi Hd. unfold splice.
  rewrite lookup_app_l by (rewrite length_take; lia).
  apply lookup_take_lt. exact Hi.
Qed.

Lemma splice_lookup_m {A} (line : list A) d cs (j : nat) :
  (d <= List.length line)%nat -> (j < List.length cs)%nat ->
  splice line d cs !! (d + j)%nat = cs !! j.
Proof.
  intros Hd Hj. unfold splice.
  rewrite lookup_app_r by (rewrite length_take; lia).
  rewrite length_take.
  replace (d + j - d `min` List.length line)%nat with j by lia.
  apply lookup_app_l. exact Hj.
Qed.

Lemma splice_lookup_r {A} (line : list A) d cs (i : nat) :
  (d + List.length cs <= i)%nat -> (d <= List.length line)%nat ->
  splice line d cs !! i = line !! i.
Proof.
  intros Hi Hd. unfold splice.
  rewrite lookup_app_r by (rewrite length_take; lia).
  rewrite lookup_app_r by (rewrite length_take; lia).
  rewrite lookup_drop, length_take. f_equal. lia.
Qed.

(** Writing the next cell of a line that was written from [d] on. *)
Lemma splice_insert {A} (line : list A) d cs x :
  (d + List.length cs < List.length line)%nat ->
  <[(d + List.length cs)%nat := x]> (splice line d cs)
  = splice line d (cs ++ [x]).
Proof.
  intros H. apply list_eq. intros i.
  destruct (decide (i = d + List.length cs)%nat) as [->|Hne].
  - rewrite list_lookup_insert_eq by (rewrite splice_length; lia).
    rewrite splice_lookup_m by (rewrite ?length_app; simpl; lia).
    rewrite lookup_app_r by lia. rewrite Nat.sub_diag. reflexivity.
  - rewrite list_lookup_insert_ne by lia.
    destruct (decide (i < d)%nat) as [Hl|Hl].
    + rewrite !splice_lookup_l by lia. reflexivity.
    + destruct (decide (i < d + List.length cs)%nat) as [Hm|Hm].
      * replace i with (d + (i - d))%nat by lia.
        rewrite !splice_lookup_m by (rewrite ?length_app; simpl; lia).
        rewrite lookup_app_l by lia. reflexivity.
      * rewrite !splice_lookup_r by (rewrite ?length_app; simpl; lia).
        reflexivity.
Qed.

Lemma py_set_splice {A} (line : list A) d cs x :
  (d + List.length cs <= List.length line)%nat ->
  py_set (splice line d cs) (Z.of_nat (d + List.length cs)) x
  = if decide (d + List.length cs < List.length line)%nat
    then Ok (splice line d (cs ++ [x]))
    else Raise IndexError.
Proof.
  intros H. case_decide as Hlt.
  - rewrite py_set_nat by (rewrite splice_length; lia).
    rewrite splice_insert by lia. reflexivity.
  - unfold py_set, py_index, len. rewrite splice_length by lia.
    destruct (Z.ltb_spec (Z.of_nat (d + List.length cs)) 0); [lia|].
    destruct (Z.leb_spec 0 (Z.of_nat (d + List.length cs))); [|lia].
    destruct (Z.ltb_spec (Z.of_nat (d + List.length cs))
                (Z.of_nat (List.length line))); [lia|].
    reflexivity.
Qed.

Lemma lookup_map_inv {A B} (g : A -> B) (l : list A) : forall (i : nat) y,
  map g l !! i = Some y -> exists x, l !! i = Some x /\ y = g x.
Proof.
  induction l as [|a l IH]; intros [|i] y H; simpl in *; try discriminate.
  - injection H as <-. eauto.
  - apply IH. exact H.
Qed.

(** [char_at] returns the cells of [text_cells], one character each. *)
Lemma char_at_cells s (i : nat) ch :
  text_wf s -> text_cells s !! i = Some ch ->
  CharGrid.char_at s (Z.of_nat i) = Ok ch /\ exists c, value ch = [c].
Proof.
  intros Hwf Hc. destruct s as [s|a]; cbn [text_cells text_wf] in *.
  - apply lookup_map_inv in Hc as (c & Hc & ->).
    cbn [CharGrid.char_at]. rewrite (py_get_nat _ _ _ Hc).
    split; [reflexivity|]. exists c. reflexivity.
  - apply lookup_map_inv in Hc as ([c st] & Hc & ->).
    pose proof (lookup_lt_Some _ _ _ Hc) as Hlt.
    assert (Hi : - length a <= Z.of_nat i < length a).
    { destruct Hwf as (_ & _ & ->). unfold len. lia. }
    pose proof (getitem_int_in a (Z.of_nat i) Hwf Hi) as Hg. cbv zeta in Hg.
    destruct (Z.ltb_spec (Z.of_nat i) 0); [lia|].
    rewrite Nat2Z.id in Hg. destruct Hg as (c' & st' & Hc' & _ & Hg).
    rewrite Hc in Hc'. injection Hc' as <- <-.
    cbn [CharGrid.char_at]. rewrite Hg. cbn [bind data].
    split; [apply py_get_head|]. exists c. reflexivity.
Qed.

Lemma layout_cons ch cells :
  layout (ch :: cells) = cell_pair ch ++ layout cells.
Proof. reflexivity. Qed.

Lemma cell_pair_char c st :
  cell_pair (mkcstr [c] st)
  = if char_width c =? 2 then [Some (mkcstr [c] st); Some cstr.empty]
    else [Some (mkcstr [c] st)].
Proof.
  unfold cell_pair, wcwidth. simpl value. rewrite wcwidth_ok.
  destruct (Z.eqb_spec (char_width c) 2) as [->|Hne]; [reflexivity|].
  destruct (char_width c) as [|[p|p|]|p]; try reflexivity.
  destruct p as [p|p|]; try reflexivity. contradiction.
Qed.

(** The loop of [__setitem__], started on a line already written from [d0]
    on with the cells [acc]: it writes the layout of the remaining
    characters when all of it fits in the line, and raises [IndexError]
    otherwise. *)
Lemma put_chars_splice s (line : list cell) d0 :
  text_wf s -> forall m k acc,
  (k + m <= List.length (text_cells s))%nat ->
  (d0 + List.length acc <= List.length line)%nat ->
  CharGrid.put_chars s (map Z.of_nat (seq k m)) (splice line d0 acc)
    (Z.of_nat (d0 + List.length acc))
  = let cs := layout (take m (drop k (text_cells s))) in
    if decide (d0 + List.length acc + List.length cs
               <= List.length line)%nat
    then Ok (splice line d0 (acc ++ cs),
             Z.of_nat (d0 + List.length acc + List.length cs))
    else Raise IndexError.
Proof.
  intros Hwf. induction m as [|m IH]; intros k acc Hk Hacc; cbv zeta.
  - cbn [seq map CharGrid.put_chars take layout concat List.length].
    rewrite app_nil_r, Nat.add_0_r. rewrite decide_True by lia. reflexivity.
  - assert (Hlt : (k < List.length (text_cells s))%nat) by lia.
    destruct (lookup_lt_is_Some_2 _ _ Hlt) as [ch Hch].
    destruct (char_at_cells s k ch Hwf Hch) as [Hat [c Hv]].
    rewrite (drop_S _ _ _ Hch). cbn [take]. rewrite layout_cons.
    cbn [seq map CharGrid.put_chars]. rewrite Hat. cbn [bind].
    rewrite py_set_splice by lia.
    destruct ch as [v st]. simpl in Hv. subst v. rewrite cell_pair_char.
    unfold wcwidth. simpl value. rewrite wcwidth_ok.
    specialize (IH (S k)).
    case_decide as Hfit1.
    + cbn [bind].
      destruct (char_width c =? 2).
      * replace (Z.of_nat (d0 + List.length acc) + 1)
          with (Z.of_nat (d0 + List.length (acc ++ [Some (mkcstr [c] st)])))
          by (rewrite length_app; simpl; lia).
        rewrite py_set_splice by (rewrite length_app; simpl; lia).
        case_decide as Hfit2.
        -- cbn [bind].
           replace (Z.of_nat
                      (d0 + List.length (acc ++ [Some (mkcstr [c] st)])) + 1)
             with (Z.of_nat
                     (d0 + List.length
                             ((acc ++ [Some (mkcstr [c] st)])
                                ++ [Some cstr.empty])))
             by (rewrite !length_app; simpl; lia).
           rewrite IH by (rewrite ?length_app in *; simpl in *; lia).
           cbv zeta. rewrite !length_app in *. simpl List.length in *.
           repeat case_decide; try lia; [|reflexivity].
           f_equal. f_equal; [|f_equal; lia].
           rewrite <- !app_assoc. reflexivity.
        -- rewrite length_app in Hfit2. simpl in Hfit2.
           rewrite decide_False; [reflexivity|].
           rewrite length_app. simpl. lia.
      * replace (Z.of_nat (d0 + List.length acc) + 1)
          with (Z.of_nat (d0 + List.length (acc ++ [Some (mkcstr [c] st)])))
          by (rewrite length_app; simpl; lia).
        rewrite IH by (rewrite ?length_app in *; simpl in *; lia).
        cbv zeta. rewrite !length_app in *. simpl List.length in *.
        repeat case_decide; try lia; [|reflexivity].
        f_equal. f_equal; [|f_equal; lia].
        rewrite <- !app_assoc. reflexivity.
    + cbn [bind]. rewrite decide_False; [reflexivity|].
      rewrite length_app. destruct (char_width c =? 2); simpl; lia.
Qed.

(** ** The grid: the whole write *)

Lemma grow_length {A} (l : list A) n x :
  List.length (CharGrid.grow l n x)
  = Nat.max (List.length l) (Z.to_nat (n + 1)).
Proof.
  unfold CharGrid.grow, len. rewrite length_app, length_replicate. lia.
Qed.

Lemma grow_lookup_new {A} (l : list A) n x (i : nat) :
  (List.length l <= i)%nat -> Z.of_nat i <= n ->
  CharGrid.grow l n x !! i = Some x.
Proof.
  intros Hi Hn. unfold CharGrid.grow, len.
  rewrite lookup_app_r by lia. apply lookup_replicate_2. lia.
Qed.

Lemma grow_line_of g (lin : nat) :
  CharGrid.grow (lines g) (Z.of_nat lin) [] !! lin = Some (line_of g lin).
Proof.
  unfold line_of. destruct (lines g !! lin) as [l|] eqn:Hl.
  - apply grow_lookup. exact Hl.
  - apply grow_lookup_new; [|lia]. apply lookup_ge_None. exact Hl.
Qed.

Lemma text_cells_length s :
  List.length (text_cells s) = List.length (text_chars s).
Proof.
  destruct s as [s|a]; cbn [text_cells text_chars].
  - apply length_map.
  - rewrite content_flat, !length_map. reflexivity.
Qed.

Lemma text_len_ok s :
  text_wf s -> CharGrid.text_len s = Ok (len (text_chars s)).
Proof.
  destruct s as [s|a]; cbn [text_wf CharGrid.text_len text_chars].
  - reflexivity.
  - intros Hwf. rewrite (wf_len a Hwf), (wf_length_content a Hwf).
    reflexivity.
Qed.

Lemma fix_left_length line col :
  List.length (fix_left line col) = List.length line.
Proof. unfold fix_left. case_decide; [apply length_insert|reflexivity]. Qed.

Lemma py_set_fix_left (line : list cell) (col : nat) c :
  line !! col = Some c ->
  (if decide (c = Some cstr.empty)
   then py_set line (Z.of_nat col - 1) (Some (cstr.of_str (lit " ")))
   else Ok line)
  = Ok (fix_left line col).
Proof.
  intros Hc. pose proof (lookup_lt_Some _ _ _ Hc) as Hlt. unfold fix_left.
  unfold cell in *. rewrite Hc.
  destruct (decide (c = Some cstr.empty)) as [->|Hne].
  - rewrite decide_True by reflexivity.
    destruct (decide (col = 0%nat)) as [->|Hpos].
    + change (Z.of_nat 0 - 1) with (- Z.of_nat 1).
      rewrite (py_set_neg line 1) by lia. reflexivity.
    + replace (Z.of_nat col - 1) with (Z.of_nat (col - 1)) by lia.
      rewrite py_set_nat by lia. reflexivity.
  - rewrite decide_False by congruence. reflexivity.
Qed.

Lemma py_set_fix_right (line : list cell) (dest : nat) :
  (dest <= List.length line)%nat ->
  (if Z.of_nat dest <? len line then
     do d <- py_get line (Z.of_nat dest);
     if decide (d = Some cstr.empty)
     then py_set line (Z.of_nat dest) (Some (cstr.of_str (lit " ")))
     else Ok line
   else Ok line)
  = Ok (fix_right line dest).
Proof.
  intros Hd. unfold fix_right, len. unfold cell in *.
  destruct (Z.ltb_spec (Z.of_nat dest) (Z.of_nat (List.length line)))
    as [Hlt|Hge].
  - destruct (lookup_lt_is_Some_2 line dest ltac:(lia)) as [d Hx].
    rewrite (py_get_nat _ _ _ Hx). cbn [bind]. rewrite Hx.
    destruct (decide (d = Some cstr.empty)) as [->|Hne].
    + rewrite decide_True by reflexivity.
      rewrite py_set_nat by lia. reflexivity.
    + rewrite decide_False by congruence. reflexivity.
  - rewrite (lookup_ge_None_2 line dest) by lia.
    rewrite decide_False by discriminate. reflexivity.
Qed.

(** A write with non-negative indices and a non-empty text either leaves
    the grid with the written line in place, or, when the cells of the text
    do not fit in the grown line, raises [IndexError]. *)
Lemma setitem_exact g (lin col : nat) s :
  text_wf s -> text_chars s <> [] ->
  CharGrid.setitem g (Z.of_nat lin) (Z.of_nat col) s
  = if decide (col + List.length (layout (text_cells s))
               <= List.length
                    (CharGrid.grow (line_of g lin)
                       (Z.of_nat col + len (text_chars s)) None))%nat
    then Ok (mkCharGrid
               (<[lin := written_line (line_of g lin) col s]>
                  (CharGrid.grow (lines g) (Z.of_nat lin) [])))
    else Raise IndexError.
Proof.
  intros Hwf Hne. unfold CharGrid.setitem.
  rewrite (text_len_ok s Hwf). cbn [bind].
  set (n := len (text_chars s)).
  assert (Hn : 0 < n).
  { unfold n, len. destruct (text_chars s); [contradiction|simpl; lia]. }
  destruct (Z.eqb_spec n 0); [lia|].
  destruct (Z.leb_spec 0 (Z.of_nat lin)); [|lia].
  destruct (Z.leb_spec 0 (Z.of_nat col)); [|lia]. cbn [py_assert bind].
  rewrite (py_get_nat _ _ _ (grow_line_of g lin)). cbn [bind].
  set (line0 := line_of g lin).
  set (line1 := CharGrid.grow line0 (Z.of_nat col + n) None).
  assert (Hlen1 : (col + Z.to_nat n < List.length line1)%nat).
  { unfold line1. rewrite grow_length. lia. }
  destruct (lookup_lt_is_Some_2 line1 col ltac:(lia)) as [c Hc].
  rewrite (py_get_nat _ _ _ Hc). cbn [bind].
  set (cs := layout (text_cells s)).
  pose proof (py_set_fix_left line1 col c Hc) as Hleft.
  pose proof (fix_left_length line1 col) as Hfl.
  pose proof (text_cells_length s) as Htl.
  pose proof (put_chars_splice s (fix_left line1 col) col Hwf
                (Z.to_nat n) 0%nat []) as Hput.
  rewrite splice_nil in Hput. cbn [List.length app] in Hput.
  cbv zeta in Hput. rewrite drop_0 in Hput.
  rewrite (firstn_all2 (text_cells s)) in Hput
    by (rewrite Htl; unfold n, len; lia).
  fold cs in Hput.
  pose proof (py_set_fix_right (splice (fix_left line1 col) col cs)
                (col + List.length cs)) as Hright.
  pose proof (splice_length (fix_left line1 col) col cs) as Hsl.
  pose proof (py_set_nat (CharGrid.grow (lines g) (Z.of_nat lin) []) lin
                (written_line line0 col s)
                (lookup_lt_Some _ _ _ (grow_line_of g lin))) as Hset.
  unfold written_line in *. fold n line1 cs in Hset |- *.
  cbv zeta in Hset |- *.
  unfold CharGrid.range. unfold cell in *.
  rewrite Hleft. cbn [bind]. rewrite Nat.add_0_r in Hput.
  rewrite Hput by (try rewrite Htl; unfold n, len in *; lia).
  clear Hput. rewrite Hfl.
  destruct (decide (col + List.length cs <= List.length line1)%nat)
    as [Hfit|Hfit]; [|reflexivity].
  cbn [bind].
  rewrite Hright by (rewrite Hsl; lia).
  cbn [bind]. rewrite Hset. reflexivity.
Qed.

Lemma cell_width_char_width c :
  cell_width c = if char_width c =? 2 then 2 else 1.
Proof. apply cell_width_spec. unfold wcwidth. apply wcwidth_ok. Qed.

Lemma text_cells_values s :
  map value (text_cells s) = map (fun c => [c]) (text_chars s).
Proof.
  destruct s as [s|a]; cbn [text_cells text_chars].
  - rewrite map_map. reflexivity.
  - rewrite content_flat, !map_map. reflexivity.
Qed.

Lemma layout_length_cells cells : forall chars,
  map value cells = map (fun c => [c]) chars ->
  Z.of_nat (List.length (layout cells))
  = fold_right (fun c w => cell_width c + w) 0 chars.
Proof.
  induction cells as [|[v st] cells IH]; intros [|c chars] H; simpl in H;
    try discriminate; [reflexivity|].
  injection H as -> H. rewrite layout_cons, length_app, cell_pair_char.
  cbn [fold_right]. rewrite <- (IH chars H), cell_width_char_width.
  destruct (char_width c =? 2); simpl; lia.
Qed.

(** The cells of a text end at [end_col]. *)
Lemma layout_end_col s (col : nat) :
  Z.of_nat (col + List.length (layout (text_cells s)))
  = end_col s (Z.of_nat col).
Proof.
  unfold end_col.
  rewrite <- (layout_length_cells _ _ (text_cells_values s)). lia.
Qed.

(** [end_col] counts one column per character and one more per wide
    character. *)
Lemma end_col_wide s col :
  end_col s col = col + len (text_chars s) + wide_count s.
Proof.
  unfold end_col, wide_count, len.
  induction (text_chars s) as [|c l IH]; [simpl; lia|].
  cbn [fold_right]. rewrite filter_cons.
  assert (Hw : cell_width c = 1 \/ cell_width c = 2).
  { rewrite cell_width_char_width. destruct (char_width c =? 2); auto. }
  case_decide; simpl List.length; lia.
Qed.

Lemma line_len_line_of g (lin : nat) :
  line_len g (Z.of_nat lin) = len (line_of g lin).
Proof.
  unfold line_len, line_of. rewrite Nat2Z.id.
  destruct (lines g !! lin); reflexivity.
Qed.

(** A write of a non-empty text at non-negative indices succeeds exactly
    when the line, grown to [col + len(s) + 1] cells, has room for one cell
    per character and one more per wide character; otherwise it raises
    [IndexError]. In particular it succeeds whenever the text holds at most
    one wide character. *)
Theorem setitem_room (g : CharGrid) (lin col : Z) (s : text) :
  text_wf s -> text_chars s <> [] -> 0 <= lin -> 0 <= col ->
  let n := len (text_chars s) in
  let room := Z.max (line_len g lin) (col + n + 1) in
  (col + n + wide_count s <= room ->
   exists g', CharGrid.setitem g lin col s = Ok g') /\
  (room < col + n + wide_count s ->
   CharGrid.setitem g lin col s = Raise IndexError) /\
  (wide_count s <= 1 -> exists g', CharGrid.setitem g lin col s = Ok g').
Proof.
  intros Hwf Hne Hlin Hcol n room.
  pose proof (setitem_exact g (Z.to_nat lin) (Z.to_nat col) s Hwf Hne) as H.
  rewrite !Z2Nat.id in H by lia.
  assert (Hroom : Z.of_nat (List.length
                    (CharGrid.grow (line_of g (Z.to_nat lin)) (col + n) None))
                  = room).
  { rewrite grow_length. unfold room.
    rewrite <- (Z2Nat.id lin Hlin) at 2. rewrite line_len_line_of.
    unfold len. lia. }
  assert (Hneed : Z.of_nat (Z.to_nat col
                            + List.length (layout (text_cells s)))
                  = col + n + wide_count s).
  { rewrite layout_end_col, end_col_wide, Z2Nat.id by lia. reflexivity. }
  fold n in H.
  assert (Hok : col + n + wide_count s <= room ->
                exists g', CharGrid.setitem g lin col s = Ok g').
  { intros Hfit. rewrite H. rewrite decide_True by lia. eauto. }
  split; [exact Hok|]. split.
  - intros Hfit. rewrite H. rewrite decide_False by lia. reflexivity.
  - intros Hw. apply Hok. unfold room. lia.
Qed.

(** What a successful write of a non-empty text tells: the indices are not
    negative, the cells of the text fit, and the grid is the grown grid with
    the written line in place. *)
Lemma setitem_ok_inv g lin col s g' :
  text_wf s -> text_chars s <> [] ->
  CharGrid.setitem g lin col s = Ok g' ->
  0 <= lin /\ 0 <= col /\
  (Z.to_nat col + List.length (layout (text_cells s))
   <= List.length (CharGrid.grow (line_of g (Z.to_nat lin))
                     (col + len (text_chars s)) None))%nat /\
  g' = mkCharGrid
         (<[Z.to_nat lin := written_line (line_of g (Z.to_nat lin))
                              (Z.to_nat col) s]>
            (CharGrid.grow (lines g) lin [])).
Proof.
  intros Hwf Hne H.
  assert (Hnn : 0 <= lin /\ 0 <= col).
  { unfold CharGrid.setitem in H. rewrite (text_len_ok s Hwf) in H.
    cbn [bind] in H.
    destruct (Z.eqb_spec (len (text_chars s)) 0) as [Hz|_].
    { apply len_zero in Hz. contradiction. }
    destruct (Z.leb_spec 0 lin); [|discriminate].
    destruct (Z.leb_spec 0 col); [|discriminate]. lia. }
  destruct Hnn as [Hlin Hcol]. split; [exact Hlin|]. split; [exact Hcol|].
  pose proof (setitem_exact g (Z.to_nat lin) (Z.to_nat col) s Hwf Hne) as He.
  rewrite !Z2Nat.id in He by lia. rewrite He in H.
  destruct (decide _) as [Hfit|Hfit]; [|discriminate].
  split; [exact Hfit|]. injection H as <-. reflexivity.
Qed.

Lemma fix_right_lookup_ne line dest (i : nat) :
  i <> dest -> fix_right line dest !! i = line !! i.
Proof.
  intros Hne. unfold fix_right. case_decide; [|reflexivity].
  apply list_lookup_insert_ne. congruence.
Qed.

Lemma fix_right_length line dest :
  List.length (fix_right line dest) = List.length line.
Proof. unfold fix_right. case_decide; [apply length_insert|reflexivity]. Qed.

Lemma written_line_length line0 col s :
  (col + List.length (layout (text_cells s))
   <= List.length (CharGrid.grow line0
                     (Z.of_nat col + len (text_chars s)) None))%nat ->
  List.length (written_line line0 col s)
  = List.length (CharGrid.grow line0
                   (Z.of_nat col + len (text_chars s)) None).
Proof.
  intros Hfit. unfold written_line. cbv zeta.
  rewrite fix_right_length, splice_length; rewrite fix_left_length;
    [reflexivity|exact Hfit].
Qed.

Lemma written_line_lookup_mid line0 col s (j : nat) :
  (col + List.length (layout (text_cells s))
   <= List.length (CharGrid.grow line0
                     (Z.of_nat col + len (text_chars s)) None))%nat ->
  (j < List.length (layout (text_cells s)))%nat ->
  written_line line0 col s !! (col + j)%nat = layout (text_cells s) !! j.
Proof.
  intros Hfit Hj. unfold written_line. cbv zeta.
  rewrite fix_right_lookup_ne by lia.
  apply splice_lookup_m; [|exact Hj].
  rewrite fix_left_length. unfold cell in *. lia.
Qed.

Lemma cell_at_written g lin col s (k : Z) :
  0 <= lin ->
  cell_at
    (mkCharGrid
       (<[Z.to_nat lin := written_line (line_of g (Z.to_nat lin))
                            (Z.to_nat col) s]>
          (CharGrid.grow (lines g) lin [])))
    lin k
  = written_line (line_of g (Z.to_nat lin)) (Z.to_nat col) s !! Z.to_nat k.
Proof.
  intros Hlin. unfold cell_at. cbn [lines].
  rewrite list_lookup_insert_eq; [reflexivity|].
  pose proof (grow_line_of g (Z.to_nat lin)) as H.
  rewrite Z2Nat.id in H by lia. apply (lookup_lt_Some _ _ _ H).
Qed.

(** After a successful write the cells from [col] on hold the characters of
    the text in order, each wide character followed by the placeholder
    [cstr()]. *)
Theorem setitem_writes (g g' : CharGrid) (lin col : Z) (s : text) :
  text_wf s -> text_chars s <> [] ->
  CharGrid.setitem g lin col s = Ok g' ->
  forall (j : nat) x,
    layout (text_cells s) !! j = Some x ->
    cell_at g' lin (col + Z.of_nat j) = Some x.
Proof.
  intros Hwf Hne H j x Hx.
  destruct (setitem_ok_inv g lin col s g' Hwf Hne H)
    as (Hlin & Hcol & Hfit & ->).
  rewrite cell_at_written by exact Hlin.
  replace (Z.to_nat (col + Z.of_nat j)) with (Z.to_nat col + j)%nat by lia.
  rewrite written_line_lookup_mid; [exact Hx| |].
  - rewrite Z2Nat.id by lia. exact Hfit.
  - apply (lookup_lt_Some _ _ _ Hx).
Qed.

(** A write never shrinks the grid: afterwards the grid has the lines it
    had, or [lin + 1] lines if that is more; the written line has the
    length it had, or [col + len(s) + 1] if that is more; every other line
    is the line it was. *)
Theorem setitem_grows (g g' : CharGrid) (lin col : Z) (s : text) :
  text_wf s -> text_chars s <> [] ->
  CharGrid.setitem g lin col s = Ok g' ->
  len (lines g') = Z.max (len (lines g)) (lin + 1) /\
  line_len g' lin
  = Z.max (line_len g lin) (col + len (text_chars s) + 1) /\
  forall l : nat, Z.of_nat l <> lin ->
    (l < List.length (lines g))%nat -> lines g' !! l = lines g !! l.
Proof.
  intros Hwf Hne H.
  destruct (setitem_ok_inv g lin col s g' Hwf Hne H)
    as (Hlin & Hcol & Hfit & ->).
  cbn [lines]. split; [|split].
  - unfold len at 1. rewrite length_insert, grow_length. unfold len. lia.
  - unfold line_len at 1. cbn [lines].
    rewrite list_lookup_insert_eq.
    + unfold len at 1. rewrite written_line_length
        by (rewrite Z2Nat.id by lia; exact Hfit).
      rewrite Z2Nat.id by lia. rewrite grow_length.
      rewrite <- (Z2Nat.id lin Hlin) at 2. rewrite line_len_line_of.
      unfold len. unfold cell, str, char in *. lia.
    + pose proof (grow_line_of g (Z.to_nat lin)) as Hg.
      rewrite Z2Nat.id in Hg by lia. apply (lookup_lt_Some _ _ _ Hg).
  - intros l Hl Hlt. rewrite list_lookup_insert_ne by lia.
    unfold CharGrid.grow. apply lookup_app_l. exact Hlt.
Qed.

(** The checks of a write: an empty text leaves the grid as it is, whatever
    the indices, negative ones included; a non-empty text at a negative line
    or column fails the assertion. *)
Theorem setitem_checks (g : CharGrid) (lin col : Z) (s : text) :
  text_wf s ->
  (text_chars s = [] -> CharGrid.setitem g lin col s = Ok g) /\
  (text_chars s <> [] -> lin < 0 \/ col < 0 ->
   CharGrid.setitem g lin col s = Raise AssertionError).
Proof.
  intros Hwf. unfold CharGrid.setitem. rewrite (text_len_ok s Hwf).
  cbn [bind]. split.
  - intros ->. reflexivity.
  - intros Hne Hneg.
    destruct (Z.eqb_spec (len (text_chars s)) 0) as [Hz|_].
    { apply len_zero in Hz. contradiction. }
    destruct (Z.leb_spec 0 lin); [|reflexivity]. cbn [py_assert bind].
    destruct (Z.leb_spec 0 col); [lia|reflexivity].
Qed.

(** ** The grid: the written line, cell by cell *)

Lemma view_line_view g (lin k : Z) :
  view g lin k = line_view (line_of g (Z.to_nat lin)) (Z.to_nat k).
Proof.
  unfold view, cell_at, line_view, line_of.
  destruct (lines g !! Z.to_nat lin); [reflexivity|].
  rewrite lookup_nil. reflexivity.
Qed.

Lemma line_view_grow line n i :
  line_view (CharGrid.grow line n None) i = line_view line i.
Proof.
  unfold line_view, CharGrid.grow, len. unfold cell in *.
  destruct (decide (i < List.length line)%nat) as [Hlt|Hge].
  - rewrite lookup_app_l by exact Hlt. reflexivity.
  - rewrite lookup_app_r by lia. rewrite (lookup_ge_None_2 line) by lia.
    destruct (replicate _ _ !! _) as [c|] eqn:Hc; [|reflexivity].
    apply lookup_replicate in Hc as [-> _]. reflexivity.
Qed.

Lemma line_view_insert line k (x : cell) i :
  (k < List.length line)%nat ->
  line_view (<[k := x]> line) i
  = if decide (i = k) then x else line_view line i.
Proof.
  intros Hk. unfold line_view. case_decide as Hi.
  - subst i. rewrite list_lookup_insert_eq by exact Hk. reflexivity.
  - rewrite list_lookup_insert_ne by congruence. reflexivity.
Qed.

Lemma line_view_placeholder line i :
  line !! i = Some (Some cstr.empty) <-> line_view line i = Some cstr.empty.
Proof.
  unfold line_view. destruct (line !! i) as [c|]; split; intros H;
    try discriminate; congruence.
Qed.

Lemma line_view_fix_left line col i :
  (col < List.length line)%nat ->
  (col = 0%nat -> line_view line 0 <> Some cstr.empty) ->
  line_view (fix_left line col) i
  = if decide (S i = col /\ line_view line col = Some cstr.empty)
    then Some space else line_view line i.
Proof.
  intros Hcol H0. unfold fix_left.
  case_decide as Hp.
  - apply line_view_placeholder in Hp.
    destruct (decide (col = 0%nat)) as [->|Hpos];
      [exfalso; exact (H0 eq_refl Hp)|].
    eapply eq_trans; [apply line_view_insert; lia|].
    clear H0. repeat case_decide; try reflexivity; exfalso.
    + match goal with H : ~ _ |- _ => apply H end. split; [lia|exact Hp].
    + destruct_and?. lia.
  - rewrite line_view_placeholder in Hp.
    rewrite decide_False by tauto. reflexivity.
Qed.

Lemma line_view_fix_right line dest i :
  line_view (fix_right line dest) i
  = if decide (i = dest /\ line_view line dest = Some cstr.empty)
    then Some space else line_view line i.
Proof.
  unfold fix_right.
  case_decide as Hp.
  - pose proof (lookup_lt_Some _ _ _ Hp) as Hlt.
    apply line_view_placeholder in Hp.
    eapply eq_trans; [apply line_view_insert; exact Hlt|].
    repeat case_decide; try reflexivity; tauto.
  - rewrite line_view_placeholder in Hp.
    rewrite decide_False by tauto. reflexivity.
Qed.

Lemma line_view_splice line d cs i :
  (d + List.length cs <= List.length line)%nat ->
  line_view (splice line d cs) i
  = if decide (i < d)%nat then line_view line i
    else if decide (i < d + List.length cs)%nat then line_view cs (i - d)
    else line_view line i.
Proof.
  intros Hfit. unfold line_view. repeat case_decide.
  - rewrite splice_lookup_l by lia. reflexivity.
  - replace i with (d + (i - d))%nat at 1 by lia.
    rewrite splice_lookup_m by lia. reflexivity.
  - rewrite splice_lookup_r by lia. reflexivity.
Qed.

(** What is read on the written line, position by position. *)
Lemma written_line_view line0 col s i :
  (col + List.length (layout (text_cells s))
   <= List.length (CharGrid.grow line0
                     (Z.of_nat col + len (text_chars s)) None))%nat ->
  text_chars s <> [] ->
  (col = 0%nat -> line_view line0 0 <> Some cstr.empty) ->
  line_view (written_line line0 col s) i
  = written_view (line_view line0) col (layout (text_cells s)) i.
Proof.
  intros Hfit Hne H0. unfold written_line, written_view. cbv zeta.
  unfold cell in *.
  set (line1 := CharGrid.grow line0 (Z.of_nat col + len (text_chars s)) None)
    in *.
  set (cs := layout (text_cells s)) in *.
  assert (Hcol : (col < List.length line1)%nat).
  { unfold line1. rewrite grow_length.
    assert (0 < len (text_chars s)).
    { unfold len. destruct (text_chars s); [contradiction|simpl; lia]. }
    lia. }
  assert (Hv1 : forall k, line_view line1 k = line_view line0 k).
  { intros k. apply line_view_grow. }
  assert (H01 : col = 0%nat -> line_view line1 0 <> Some cstr.empty).
  { intros Hc. rewrite Hv1. auto. }
  rewrite line_view_fix_right, !line_view_splice
    by (rewrite fix_left_length; unfold cell in *; lia).
  rewrite !line_view_fix_left by assumption. rewrite !Hv1.
  assert (Hcs : (0 < List.length cs)%nat).
  { unfold cs. pose proof (layout_end_col s col) as He.
    rewrite end_col_wide in He. unfold wide_count, len in He.
    destruct (text_chars s); [contradiction|]. simpl in He. lia. }
  repeat case_decide; try reflexivity; try lia; try tauto.
  all: destruct_and?; subst; try lia; try tauto.
Qed.

(** ** The grid: the invariant of the lines *)

Lemma setitem_empty g lin col s :
  text_wf s -> text_chars s = [] -> CharGrid.setitem g lin col s = Ok g.
Proof.
  intros Hwf He. unfold CharGrid.setitem. rewrite (text_len_ok s Hwf), He.
  reflexivity.
Qed.

Lemma placeholder_not_wide : ~ is_wide (Some cstr.empty).
Proof. cbn. discriminate. Qed.

Lemma space_not_wide : ~ is_wide (Some space).
Proof. cbn. discriminate. Qed.

Lemma space_not_placeholder : Some space <> Some cstr.empty.
Proof. discriminate. Qed.

Lemma view_ok_ext (f h : nat -> cell) :
  (forall i, f i = h i) -> view_ok h -> view_ok f.
Proof.
  intros E [Ha Hb]. split.
  - intros i. rewrite !E. apply Ha.
  - intros j. rewrite E. intros Hj. destruct (Hb j Hj) as (i & -> & Hw).
    exists i. rewrite E. auto.
Qed.

Lemma view_ok_nil : view_ok (line_view []).
Proof.
  split; intros i; unfold line_view; rewrite ?lookup_nil; cbn;
    [tauto|discriminate].
Qed.

Lemma view_ok_cons_narrow (x : cell) l :
  ~ is_wide x -> x <> Some cstr.empty ->
  view_ok (line_view l) -> view_ok (line_view (x :: l)).
Proof.
  intros Hx Hp [Ha Hb]. split.
  - intros [|i] Hw; [contradiction|]. apply (Ha i Hw).
  - intros [|j] Hj; [contradiction|].
    destruct (Hb j Hj) as (i & -> & Hw). exists (S i). auto.
Qed.

Lemma view_ok_cons_wide (x : cell) l :
  is_wide x ->
  view_ok (line_view l) -> view_ok (line_view (x :: Some cstr.empty :: l)).
Proof.
  intros Hx [Ha Hb]. split.
  - intros [|[|i]] Hw; [reflexivity| |apply (Ha i Hw)].
    exfalso. exact (placeholder_not_wide Hw).
  - intros [|[|j]] Hj.
    + exfalso. change (x = Some cstr.empty) in Hj. subst x.
      exact (placeholder_not_wide Hx).
    + exists 0%nat. auto.
    + destruct (Hb j Hj) as (i & -> & Hw). exists (S (S i)). auto.
Qed.

Lemma cell_pair_cases ch :
  (cell_pair ch = [Some ch; Some cstr.empty] /\ is_wide (Some ch)) \/
  (cell_pair ch = [Some ch] /\ ~ is_wide (Some ch)).
Proof.
  unfold cell_pair, is_wide.
  destruct (wcwidth (value ch)) as [w|e];
    [|right; split; [reflexivity|discriminate]].
  destruct w as [|p|p]; try (right; split; [reflexivity|discriminate]).
  destruct p as [p|p|]; try (right; split; [reflexivity|discriminate]).
  destruct p; try (right; split; [reflexivity|discriminate]).
  left. split; reflexivity.
Qed.

(** The cells of one-character strings satisfy the invariant. *)
Lemma layout_ok cells :
  Forall (fun ch => value ch <> []) cells ->
  view_ok (line_view (layout cells)).
Proof.
  induction 1 as [|ch cells Hv _ IH]; [apply view_ok_nil|].
  rewrite layout_cons.
  destruct (cell_pair_cases ch) as [[-> Hw]|[-> Hw]].
  - apply view_ok_cons_wide; [exact Hw|exact IH].
  - apply view_ok_cons_narrow; [exact Hw| |exact IH].
    intros E. injection E as ->. apply Hv. reflexivity.
Qed.

Lemma text_cells_nonempty s :
  Forall (fun ch => value ch <> []) (text_cells s).
Proof.
  apply Forall_forall. intros ch Hin.
  assert (Hv : In (value ch) (map value (text_cells s))).
  { apply in_map. exact Hin. }
  rewrite text_cells_values in Hv. apply in_map_iff in Hv as (c & <- & _).
  discriminate.
Qed.

(** A write over a line that satisfies the invariant leaves what is read
    on it satisfying the invariant. *)
Lemma written_view_ok f0 col cs :
  view_ok f0 -> view_ok (line_view cs) ->
  view_ok (written_view f0 col cs).
Proof.
  intros [Ha Hb] [Hca Hcb].
  assert (Hpast : forall k, (List.length cs <= k)%nat ->
                            line_view cs k = None).
  { intros k Hk. unfold line_view. rewrite lookup_ge_None_2 by exact Hk.
    reflexivity. }
  assert (Hwp : forall x, is_wide x -> x <> Some cstr.empty).
  { intros x Hx ->. exact (placeholder_not_wide Hx). }
  split.
  - intros i. unfold written_view.
    destruct (decide (i < col)%nat) as [Hi|Hi].
    + destruct (decide (S i = col /\ f0 col = Some cstr.empty)) as [Hf|Hf].
      { intros Hw. exfalso. exact (space_not_wide Hw). }
      intros Hw. pose proof (Ha i Hw) as Hn.
      destruct (decide (S i < col)%nat) as [Hsi|Hsi].
      * destruct (decide (S (S i) = col /\ f0 col = Some cstr.empty))
          as [[Hc Hp]|_]; [|exact Hn].
        exfalso. destruct (Hb col Hp) as (k & Hk & Hkw).
        assert (k = S i) by lia. subst k. rewrite Hn in Hkw.
        exact (placeholder_not_wide Hkw).
      * exfalso. apply Hf. assert (S i = col) by lia. subst col. auto.
    + destruct (decide (i < col + List.length cs)%nat) as [Hm|Hm].
      * intros Hw. pose proof (Hca _ Hw) as Hn.
        rewrite decide_False by lia.
        assert (Hlt : (S (i - col) < List.length cs)%nat).
        { destruct (decide (S (i - col) < List.length cs)%nat); [assumption|].
          rewrite Hpast in Hn by lia. discriminate. }
        rewrite decide_True by lia.
        replace (S i - col)%nat with (S (i - col)) by lia. exact Hn.
      * rewrite (decide_False (P := (S i < col)%nat)) by lia.
        rewrite (decide_False (P := (S i < col + List.length cs)%nat))
          by lia.
        destruct (decide (i = (col + List.length cs)%nat
                          /\ f0 i = Some cstr.empty)) as [Hf|Hf].
        { intros Hw. exfalso. exact (space_not_wide Hw). }
        intros Hw. rewrite decide_False by lia. apply (Ha i Hw).
  - intros j. unfold written_view.
    destruct (decide (j < col)%nat) as [Hj|Hj].
    + destruct (decide (S j = col /\ f0 col = Some cstr.empty)) as [Hf|Hf].
      { intros E. exfalso. exact (space_not_placeholder E). }
      intros Hp. destruct (Hb j Hp) as (i & -> & Hw). exists i.
      split; [reflexivity|]. rewrite decide_True by lia.
      rewrite decide_False by lia. exact Hw.
    + destruct (decide (j < col + List.length cs)%nat) as [Hm|Hm].
      * intros Hp. destruct (Hcb _ Hp) as (i & Hi & Hw).
        exists (col + i)%nat. split; [lia|].
        rewrite decide_False by lia. rewrite decide_True by lia.
        replace (col + i - col)%nat with i by lia. exact Hw.
      * destruct (decide (j = (col + List.length cs)%nat
                          /\ f0 j = Some cstr.empty)) as [Hf|Hf].
        { intros E. exfalso. exact (space_not_placeholder E). }
        intros Hp. destruct (Hb j Hp) as (i & -> & Hw). exists i.
        split; [reflexivity|].
        assert (Hne : S i <> (col + List.length cs)%nat).
        { intros E. apply Hf. split; assumption. }
        rewrite decide_False by lia. rewrite decide_False by lia.
        rewrite decide_False; [exact Hw|].
        intros [_ E]. exact (Hwp _ Hw E).
Qed.

Lemma line_ok_first line :
  line_ok line -> line_view line 0 <> Some cstr.empty.
Proof. intros [_ Hb] E. destruct (Hb 0%nat E) as (i & Hi & _). lia. Qed.

Lemma written_line_ok line0 col s :
  (col + List.length (layout (text_cells s))
   <= List.length (CharGrid.grow line0
                     (Z.of_nat col + len (text_chars s)) None))%nat ->
  text_chars s <> [] ->
  line_ok line0 -> line_ok (written_line line0 col s).
Proof.
  intros Hfit Hne Hok. unfold line_ok.
  apply (view_ok_ext _
           (written_view (line_view line0) col (layout (text_cells s)))).
  - intros i. apply written_line_view; [exact Hfit|exact Hne|].
    intros _. apply line_ok_first. exact Hok.
  - apply written_view_ok; [exact Hok|].
    apply layout_ok, text_cells_nonempty.
Qed.

Lemma grid_ok_line_of g lin : grid_ok g -> line_ok (line_of g lin).
Proof.
  intros Hg. unfold line_of. destruct (lines g !! lin) as [l|] eqn:Hl.
  - exact (proj1 (Forall_lookup _ _) Hg _ _ Hl).
  - apply view_ok_nil.
Qed.

Lemma setitem_keeps_ok g g' lin col s :
  grid_ok g -> text_wf s -> CharGrid.setitem g lin col s = Ok g' ->
  grid_ok g'.
Proof.
  intros Hg Hwf H.
  destruct (decide (text_chars s = [])) as [He|Hne].
  { rewrite (setitem_empty g lin col s Hwf He) in H. injection H as <-.
    exact Hg. }
  destruct (setitem_ok_inv g lin col s g' Hwf Hne H)
    as (Hlin & Hcol & Hfit & ->).
  unfold grid_ok. cbn [lines]. apply Forall_insert.
  - unfold CharGrid.grow. apply Forall_app. split; [exact Hg|].
    apply Forall_replicate. apply view_ok_nil.
  - apply written_line_ok; [|exact Hne|apply grid_ok_line_of; exact Hg].
    rewrite Z2Nat.id by lia. exact Hfit.
Qed.

(** The invariant of the grid, that every wide character is followed by
    the placeholder [cstr()] and every placeholder follows a wide character,
    holds for the empty grid and is kept by every write that succeeds. *)
Theorem setitem_invariant :
  grid_ok CharGrid.new /\
  forall (g g' : CharGrid) (lin col : Z) (s : text),
    grid_ok g -> text_wf s -> CharGrid.setitem g lin col s = Ok g' ->
    grid_ok g'.
Proof. split; [apply Forall_nil; exact I|exact setitem_keeps_ok]. Qed.

(** ** The grid: what a write leaves around the text *)

Lemma line_of_written g (lin : nat) W (l : nat) :
  line_of
    (mkCharGrid (<[lin := W]> (CharGrid.grow (lines g) (Z.of_nat lin) [])))
    l
  = if decide (l = lin) then W else line_of g l.
Proof.
  unfold line_of. cbn [lines]. case_decide as Hl.
  - subst l. rewrite list_lookup_insert_eq; [reflexivity|].
    apply (lookup_lt_Some _ _ _ (grow_line_of g lin)).
  - rewrite list_lookup_insert_ne by congruence.
    unfold CharGrid.grow.
    destruct (decide (l < List.length (lines g))%nat) as [Hlt|Hge].
    + rewrite lookup_app_l by exact Hlt. reflexivity.
    + rewrite lookup_app_r by lia. rewrite (lookup_ge_None_2 (lines g)) by lia.
      destruct (replicate _ _ !! _) as [x|] eqn:Hx; [|reflexivity].
      apply lookup_replicate in Hx as [-> _]. reflexivity.
Qed.

(** What is read on the grid after a successful write, position by
    position, on a grid that satisfies the invariant. *)
Lemma setitem_view g g' lin col s :
  grid_ok g -> text_wf s -> text_chars s <> [] ->
  CharGrid.setitem g lin col s = Ok g' ->
  forall l k : Z, 0 <= l -> 0 <= k ->
    view g' l k
    = if decide (l = lin)
      then written_view (fun i => view g lin (Z.of_nat i)) (Z.to_nat col)
             (layout (text_cells s)) (Z.to_nat k)
      else view g l k.
Proof.
  intros Hg Hwf Hne H l k Hl Hk.
  destruct (setitem_ok_inv g lin col s g' Hwf Hne H)
    as (Hlin & Hcol & Hfit & ->).
  rewrite !view_line_view.
  pose proof (line_of_written g (Z.to_nat lin)) as Hw.
  rewrite Z2Nat.id in Hw by lia. rewrite Hw. clear Hw.
  destruct (decide (l = lin)) as [->|Hd].
  - rewrite decide_True by reflexivity.
    rewrite written_line_view.
    + unfold written_view. repeat case_decide; try reflexivity;
        rewrite ?view_line_view, ?Nat2Z.id in *; try tauto.
    + rewrite Z2Nat.id by lia. exact Hfit.
    + exact Hne.
    + intros _. apply line_ok_first, grid_ok_line_of. exact Hg.
  - rewrite decide_False by lia. reflexivity.
Qed.

(** A successful write, on a grid that satisfies the invariant, changes
    nothing outside the written line, nothing on it before column [col - 1]
    and nothing after the column [end_col] that follows the text. The cell
    before the text turns into a space exactly when the text starts on the
    placeholder of a wide character, and the cell after the text turns into
    a space exactly when it held a placeholder. *)
Theorem setitem_frame (g g' : CharGrid) (lin col : Z) (s : text) :
  grid_ok g -> text_wf s -> text_chars s <> [] ->
  CharGrid.setitem g lin col s = Ok g' ->
  let e := end_col s col in
  (forall l k, 0 <= l -> 0 <= k -> l <> lin -> view g' l k = view g l k) /\
  (forall k, 0 <= k < col - 1 \/ e < k -> view g' lin k = view g lin k) /\
  (1 <= col ->
   view g' lin (col - 1)
   = if decide (view g lin col = Some cstr.empty)
     then Some space else view g lin (col - 1)) /\
  view g' lin e
  = if decide (view g lin e = Some cstr.empty)
    then Some space else view g lin e.
Proof.
  intros Hg Hwf Hne H e.
  pose proof (setitem_view g g' lin col s Hg Hwf Hne H) as Hv.
  destruct (setitem_ok_inv g lin col s g' Hwf Hne H)
    as (Hlin & Hcol & _ & _).
  pose proof (layout_end_col s (Z.to_nat col)) as He.
  rewrite Z2Nat.id in He by lia. fold e in He.
  assert (Hlay : (0 < List.length (layout (text_cells s)))%nat).
  { pose proof (end_col_wide s col) as Hw. fold e in Hw.
    unfold wide_count, len in Hw.
    destruct (text_chars s); [contradiction|]. simpl in Hw. lia. }
  split; [|split; [|split]].
  - intros l k Hl Hk Hd. rewrite Hv by assumption.
    rewrite decide_False by exact Hd. reflexivity.
  - intros k Hk.
    assert (0 <= k) by lia. rewrite Hv by assumption.
    rewrite decide_True by reflexivity. unfold written_view.
    destruct Hk as [Hk|Hk].
    + rewrite decide_True by lia. rewrite decide_False by lia.
      rewrite Z2Nat.id by lia. reflexivity.
    + rewrite decide_False by lia. rewrite decide_False by lia.
      rewrite decide_False by lia. rewrite Z2Nat.id by lia. reflexivity.
  - intros Hc. rewrite Hv by lia. rewrite decide_True by reflexivity.
    unfold written_view. rewrite decide_True by lia.
    rewrite !Z2Nat.id by lia.
    destruct (decide (view g lin col = Some cstr.empty)) as [Hp|Hp].
    + rewrite decide_True; [reflexivity|]. split; [lia|exact Hp].
    + rewrite decide_False; [reflexivity|]. intros [_ Hq]. exact (Hp Hq).
  - assert (Hee : 0 <= e) by lia. rewrite Hv by lia.
    rewrite decide_True by reflexivity. unfold written_view.
    rewrite decide_False by lia. rewrite decide_False by lia.
    rewrite !Z2Nat.id by lia.
    destruct (decide (view g lin e = Some cstr.empty)) as [Hp|Hp].
    + rewrite decide_True; [reflexivity|]. split; [lia|exact Hp].
    + rewrite decide_False; [reflexivity|]. intros [_ Hq]. exact (Hp Hq).
Qed.

(** ** The grid: its width *)

Lemma scan_back_spec (line : list cell) :
  let w := CharGrid.scan_back (rev line) in
  0 <= w <= len line /\
  (forall i : nat, w <= Z.of_nat i -> line_view line i = None) /\
  (0 < w -> line_view line (Z.to_nat (w - 1)) <> None).
Proof.
  induction line as [|x line IH] using rev_ind.
  - cbn. unfold len. simpl. split; [lia|]. split; [|lia].
    intros i _. unfold line_view. rewrite lookup_nil. reflexivity.
  - rewrite rev_app_distr. cbn [rev app].
    assert (Hlen : len (line ++ [x]) = len line + 1).
    { unfold len. rewrite length_app. simpl. lia. }
    destruct x as [ch|].
    + cbn [CharGrid.scan_back].
      assert (Hl : len (Some ch :: rev line) = len line + 1).
      { unfold len. simpl. rewrite length_rev. lia. }
      unfold cell in *. rewrite Hl. cbv zeta. rewrite Hlen.
      split; [unfold len; lia|]. split.
      * intros i Hi. unfold line_view. rewrite lookup_ge_None_2; [reflexivity|].
        rewrite length_app. simpl. unfold len in Hi. lia.
      * intros _. unfold line_view.
        replace (Z.to_nat (len line + 1 - 1)) with (List.length line)
          by (unfold len; lia).
        rewrite list_lookup_middle by reflexivity. discriminate.
    + cbn [CharGrid.scan_back]. cbv zeta in IH |- *.
      destruct IH as (Hb & Hz & Hp). rewrite Hlen.
      split; [lia|]. split.
      * intros i Hi. unfold line_view.
        destruct (decide (i < List.length line)%nat) as [Hlt|Hge].
        { rewrite lookup_app_l by exact Hlt. apply (Hz i Hi). }
        rewrite lookup_app_r by lia.
        destruct (i - List.length line)%nat as [|d]; [reflexivity|].
        destruct d; reflexivity.
      * intros Hw. specialize (Hp Hw). unfold line_view in *.
        rewrite lookup_app_l; [exact Hp|]. unfold len in Hb. lia.
Qed.

Lemma fold_max_spec {A} (f : A -> Z) (ls : list A) : forall a,
  let m := fold_left (fun w l => Z.max w (f l)) ls a in
  a <= m /\ (forall l, In l ls -> f l <= m) /\
  (m = a \/ exists l, In l ls /\ m = f l).
Proof.
  induction ls as [|x ls IH]; intros a; cbn [fold_left].
  - split; [lia|]. split; [intros l []|left; reflexivity].
  - specialize (IH (Z.max a (f x))). cbv zeta in IH |- *.
    destruct IH as (Hge & Hall & Hex). split; [lia|]. split.
    + intros l [<-|Hin]; [lia|apply Hall, Hin].
    + destruct Hex as [Hm|(l & Hin & Hm)].
      * destruct (Z.max_spec a (f x)) as [[_ E]|[_ E]].
        -- right. exists x. split; [left; reflexivity|].
           rewrite Hm. exact E.
        -- left. rewrite Hm. exact E.
      * right. exists l. split; [right; exact Hin|exact Hm].
Qed.

(** [width()] is the least width that shows every cell of the grid that is
    not absent: each such cell is in a column below it, and, unless it is 0,
    some line has such a cell in its last column. *)
Theorem width_least (g : CharGrid) :
  0 <= CharGrid.width g /\
  (forall lin k, 0 <= lin -> 0 <= k -> view g lin k <> None ->
                 k < CharGrid.width g) /\
  (0 < CharGrid.width g ->
   exists lin, 0 <= lin /\ view g lin (CharGrid.width g - 1) <> None).
Proof.
  unfold CharGrid.width.
  destruct (fold_max_spec (fun line => CharGrid.scan_back (rev line))
              (lines g) 0) as (Hge & Hall & Hex).
  set (w := fold_left _ _ _) in *. split; [exact Hge|]. split.
  - intros lin k Hlin Hk Hv. rewrite view_line_view in Hv.
    unfold line_of in Hv.
    destruct (lines g !! Z.to_nat lin) as [line|] eqn:Hl.
    + destruct (scan_back_spec line) as (_ & Hz & _).
      apply list_elem_of_lookup_2, list_elem_of_In in Hl.
      specialize (Hall line Hl). cbv beta in Hall.
      destruct (Z_lt_le_dec k w) as [Hlt|Hle]; [exact Hlt|].
      exfalso. apply Hv, Hz. lia.
    + exfalso. apply Hv. unfold line_view. rewrite lookup_nil. reflexivity.
  - intros Hw. destruct Hex as [E|(line & Hin & E)]; [lia|].
    apply list_elem_of_In, list_elem_of_lookup_1 in Hin as [l Hl].
    exists (Z.of_nat l). split; [lia|].
    rewrite view_line_view, Nat2Z.id. unfold line_of. rewrite Hl.
    destruct (scan_back_spec line) as (_ & _ & Hp). rewrite E. apply Hp.
    rewrite <- E. exact Hw.
Qed.

(** ** The grid: what is printed *)

Lemma char_width_plain c :
  ~ is_control c -> char_width c = 1 \/ char_width c = 2.
Proof.
  unfold char_width, _wcwidth, is_control. change (len [c] =? 0) with false.
  cbv iota. cbn [ord bind]. intros Hc.
  destruct (N.leb_spec 32 c); [|exfalso; apply Hc; left; assumption].
  destruct (N.ltb_spec c 127); cbn [andb]; [left; reflexivity|].
  destruct (N.ltb_spec c 32); [lia|].
  destruct (N.leb_spec 127 c); [|lia]. cbn [orb andb].
  destruct (N.ltb_spec c 160); [exfalso; apply Hc; right; lia|].
  destruct (existsb _ WIDE); auto.
Qed.

Lemma space_plain : cell_plain (Some space).
Proof.
  right. exists 32%N. split; [reflexivity|].
  unfold is_control. lia.
Qed.

(** The columns a cell takes when it is shown. *)
Lemma cell_text_width (c : cell) :
  cell_plain c ->
  (c = Some cstr.empty /\ sum_widths (cell_text c) = 0) \/
  (is_wide c /\ sum_widths (cell_text c) = 2) \/
  (c <> Some cstr.empty /\ ~ is_wide c /\ sum_widths (cell_text c) = 1).
Proof.
  destruct c as [ch|]; cbn [cell_plain cell_text].
  - intros [->|(c0 & Hv & Hc)]; [left; split; reflexivity|].
    right. unfold is_wide, wcwidth. rewrite Hv, wcwidth_ok.
    unfold sum_widths. cbn [fold_right].
    destruct (char_width_plain c0 Hc) as [E|E]; rewrite E.
    + right. split; [|split; [discriminate|reflexivity]].
      intros H. injection H as ->. discriminate.
    + left. split; reflexivity.
  - intros _. right. right. split; [discriminate|].
    split; [intros []|reflexivity].
Qed.

(** The display width of the first [n] columns of a line that satisfies
    the invariant: [n], and one more when column [n - 1] holds a wide
    character. *)
Lemma shown_width (f : nat -> cell) :
  view_ok f -> (forall i, cell_plain (f i)) ->
  forall n,
    let shown :=
      sum_widths (concat (map (fun i => cell_text (f i)) (seq 0 n))) in
    (match n with O => True | S m => ~ is_wide (f m) end ->
     shown = Z.of_nat n) /\
    (match n with O => False | S m => is_wide (f m) end ->
     shown = Z.of_nat n + 1).
Proof.
  intros [Ha Hb] Hp. induction n as [|n IH]; [split; [reflexivity|tauto]|].
  cbv zeta in IH |- *.
  rewrite seq_S, map_app, concat_app, sum_widths_app.
  cbn [map concat Nat.add]. rewrite app_nil_r.
  destruct IH as [IH0 IH1].
  assert (Hprev : f n <> Some cstr.empty ->
                  match n with O => True | S m => ~ is_wide (f m) end).
  { intros E. destruct n as [|m]; [exact I|]. intros Hw. apply E, Ha, Hw. }
  destruct (cell_text_width (f n) (Hp n)) as [[E W]|[[E W]|(E & N & W)]];
    rewrite W.
  - destruct (Hb n E) as (m & -> & Hw). rewrite (IH1 Hw).
    split; [lia|]. intros Hn. rewrite E in Hn.
    exfalso. exact (placeholder_not_wide Hn).
  - rewrite IH0.
    + split; [intros Hn; contradiction|lia].
    + apply Hprev. intros Hph. rewrite Hph in E.
      exact (placeholder_not_wide E).
  - rewrite (IH0 (Hprev E)). split; [lia|]. intros Hn. contradiction.
Qed.

Lemma fold_left_snoc {A B} (F : A -> B -> A) l x a :
  fold_left F (l ++ [x]) a = F (fold_left F l a) x.
Proof. rewrite fold_left_app. reflexivity. Qed.

(** The string of a row, cell by cell. *)
Lemma row_content_cells (line : list cell) (n : nat) :
  CharGrid.row_content (Z.of_nat n) line
  = concat (map (fun i => cell_text (line_view line i)) (seq 0 n)).
Proof.
  unfold CharGrid.row_content, CharGrid.range. rewrite Nat2Z.id.
  induction n as [|n IH]; [reflexivity|].
  rewrite seq_S, !map_app. cbn [map Nat.add].
  rewrite fold_left_snoc, concat_app, IH.
  cbn [concat]. rewrite app_nil_r.
  unfold line_view, len.
  destruct (line !! n) as [c|] eqn:Hc.
  - pose proof (lookup_lt_Some _ _ _ Hc) as Hlt.
    destruct (Z.geb_spec (Z.of_nat n) (Z.of_nat (List.length line)));
      [unfold cell in *; lia|].
    rewrite (py_get_nat _ _ _ Hc). destruct c; reflexivity.

  - apply lookup_ge_None in Hc.
    destruct (Z.geb_spec (Z.of_nat n) (Z.of_nat (List.length line)));
      [reflexivity|unfold cell in *; lia].
Qed.

Lemma width_covers g line :
  In line (lines g) ->
  0 <= CharGrid.width g /\
  forall i : nat, CharGrid.width g <= Z.of_nat i -> line_view line i = None.
Proof.
  intros Hin. unfold CharGrid.width.
  destruct (fold_max_spec (fun line => CharGrid.scan_back (rev line))
              (lines g) 0) as (Hge & Hall & _).
  split; [exact Hge|]. intros i Hi.
  destruct (scan_back_spec line) as (_ & Hz & _). apply Hz.
  specialize (Hall line Hin). cbv beta in Hall. lia.
Qed.

Lemma line_view_plain line i :
  Forall cell_plain line -> cell_plain (line_view line i).
Proof.
  intros H. unfold line_view. destruct (line !! i) as [c|] eqn:Hc; [|exact I].
  exact (proj1 (Forall_lookup _ _) H _ _ Hc).
Qed.

(** [print_content] prints one row per line, and on a grid that satisfies
    the invariant and holds no control character every row takes exactly
    [width()] columns on the screen. *)
Theorem print_content_width (g : CharGrid) :
  grid_ok g -> grid_plain g ->
  List.length (CharGrid.print_content g) = List.length (lines g) /\
  Forall (fun row => wcswidth row = Ok (CharGrid.width g))
         (CharGrid.print_content g).
Proof.
  intros Hok Hplain. unfold CharGrid.print_content.
  split; [apply length_map|].
  apply Forall_forall. intros row Hrow.
  apply in_map_iff in Hrow as (line & <- & Hin).
  destruct (width_covers g line Hin) as (Hw & Hnone).
  assert (Hlok : line_ok line).
  { apply (proj1 (Forall_forall _ _) Hok). exact Hin. }
  assert (Hlp : Forall cell_plain line).
  { apply (proj1 (Forall_forall _ _) Hplain). exact Hin. }
  rewrite <- (Z2Nat.id (CharGrid.width g) Hw) at 1.
  rewrite row_content_cells. unfold wcswidth, _wcswidth.
  rewrite wcswidth_spec. f_equal.
  destruct (shown_width (line_view line) Hlok
              (fun i => line_view_plain line i Hlp)
              (Z.to_nat (CharGrid.width g))) as [Hshown _].
  cbv zeta in Hshown. rewrite Hshown; [lia|].
  destruct (Z.to_nat (CharGrid.width g)) as [|m] eqn:Hm; [exact I|].
  intros Hwide.
  apply (proj1 Hlok) in Hwide. rewrite Hnone in Hwide by lia.
  discriminate.
Qed.

Lemma layout_plain cells :
  Forall (fun ch => exists c0, value ch = [c0] /\ ~ is_control c0) cells ->
  Forall cell_plain (layout cells).
Proof.
  induction 1 as [|ch cells Hch _ IH]; [constructor|].
  rewrite layout_cons. apply Forall_app. split; [|exact IH].
  destruct (cell_pair_cases ch) as [[-> _]|[-> _]].
  - apply Forall_cons_iff. split; [right; exact Hch|].
    apply Forall_cons_iff. split; [left; reflexivity|].
    apply Forall_nil; exact I.
  - apply Forall_cons_iff. split; [right; exact Hch|].
    apply Forall_nil; exact I.
Qed.

Lemma text_cells_plain s :
  text_plain s ->
  Forall (fun ch => exists c0, value ch = [c0] /\ ~ is_control c0)
         (text_cells s).
Proof.
  intros Hs. apply Forall_forall. intros ch Hin.
  assert (Hv : In (value ch) (map value (text_cells s))).
  { apply in_map. exact Hin. }
  rewrite text_cells_values in Hv. apply in_map_iff in Hv as (c & <- & Hc).
  exists c. split; [reflexivity|].
  apply (proj1 (Forall_forall _ _) Hs). exact Hc.
Qed.

Lemma fix_left_plain line col :
  Forall cell_plain line -> Forall cell_plain (fix_left line col).
Proof.
  intros H. unfold fix_left. case_decide; [|exact H].
  apply Forall_insert; [exact H|exact space_plain].
Qed.

Lemma fix_right_plain line dest :
  Forall cell_plain line -> Forall cell_plain (fix_right line dest).
Proof.
  intros H. unfold fix_right. case_decide; [|exact H].
  apply Forall_insert; [exact H|exact space_plain].
Qed.

Lemma written_line_plain line0 col s :
  Forall cell_plain line0 -> text_plain s ->
  Forall cell_plain (written_line line0 col s).
Proof.
  intros Hl Hs. unfold written_line. cbv zeta.
  apply fix_right_plain. unfold splice.
  assert (H1 : Forall cell_plain
                 (fix_left (CharGrid.grow line0
                              (Z.of_nat col + len (text_chars s)) None) col)).
  { apply fix_left_plain. unfold CharGrid.grow. apply Forall_app.
    split; [exact Hl|]. apply Forall_replicate. exact I. }
  apply Forall_app. split; [apply Forall_take; exact H1|].
  apply Forall_app. split; [|apply Forall_drop; exact H1].
  apply layout_plain, text_cells_plain. exact Hs.
Qed.

Lemma setitem_keeps_plain g g' lin col s :
  grid_plain g -> text_wf s -> text_plain s ->
  CharGrid.setitem g lin col s = Ok g' -> grid_plain g'.
Proof.
  intros Hg Hwf Hs H.
  destruct (decide (text_chars s = [])) as [He|Hne].
  { rewrite (setitem_empty g lin col s Hwf He) in H. injection H as <-.
    exact Hg. }
  destruct (setitem_ok_inv g lin col s g' Hwf Hne H)
    as (Hlin & Hcol & Hfit & ->).
  unfold grid_plain. cbn [lines]. apply Forall_insert.
  - unfold CharGrid.grow. apply Forall_app. split; [exact Hg|].
    apply Forall_replicate. constructor.
  - apply written_line_plain; [|exact Hs].
    unfold line_of. destruct (lines g !! Z.to_nat lin) as [l|] eqn:Hl;
      [|constructor].
    exact (proj1 (Forall_lookup _ _) Hg _ _ Hl).
Qed.

(** Writes of texts without control characters leave only such characters,
    placeholders and absent cells on the grid, starting from the empty
    grid. *)
Theorem setitem_plain :
  grid_plain CharGrid.new /\
  forall (g g' : CharGrid) (lin col : Z) (s : text),
    grid_plain g -> text_wf s -> text_plain s ->
    CharGrid.setitem g lin col s = Ok g' -> grid_plain g'.
Proof. split; [apply Forall_nil; exact I|exact setitem_keeps_plain]. Qed.

(** ** Key decoding: escape sequences *)

(** The table of sequences is unambiguous: [SpecialKey.get] finds, for
    each sequence of each key, that key. *)
Theorem get_finds_key (k : SpecialKey) (seq : str) :
  In seq (SpecialKey.seqs k) -> SpecialKey.get seq = KSpecial k.
Proof.
  destruct k; cbn [SpecialKey.seqs In]; intros H;
    repeat (destruct H as [<-|H]; [vm_compute; reflexivity|]);
    contradiction.
Qed.

(** After ESC, each sequence of the table that starts with [[] or [O] is
    decoded to its key, and the input that follows it is left untouched. *)
Theorem read_escape_sequence (isd : char -> bool) (k : SpecialKey)
  (seq : str) (rest : source) :
  In seq (SpecialKey.seqs k) ->
  k <> CRTL_C -> k <> TAB -> k <> ENTER -> k <> BACKSPACE ->
  _read isd (27%N :: seq ++ rest) = Ok (KSpecial k, rest).
Proof.
  intros H H1 H2 H3 H4.
  destruct k; try congruence; cbn [SpecialKey.seqs In] in H;
    repeat (destruct H as [<-|H]; [vm_compute; reflexivity|]);
    contradiction.
Qed.

Lemma read_digits_suffix isd : forall src seq seq' ch rest,
  read_digits isd src seq = (seq', ch, rest) ->
  exists used, src = used ++ rest.
Proof.
  induction src as [|c src IH]; intros seq seq' ch rest H; cbn in H.
  - injection H as _ _ <-. exists []. reflexivity.
  - destruct (char_isdigit isd c && true).
    + destruct (IH _ _ _ _ H) as [used ->]. exists (c :: used). reflexivity.
    + injection H as _ _ <-. exists [c]. reflexivity.
Qed.

Lemma next_suffix src ch rest :
  next src = (ch, rest) -> src = ch ++ rest.
Proof. destruct src; cbn; intros H; injection H as <- <-; reflexivity. Qed.

(** [_read] never raises, whatever the input: it returns a key and what is
    left of the input, which is a suffix of the input; on an input that is
    not empty it consumes at least one character. *)
Theorem read_total (isd : char -> bool) (src : source) :
  exists k used rest,
    _read isd src = Ok (k, rest) /\ src = used ++ rest /\
    (src <> [] -> used <> []).
Proof.
  destruct src as [|c src].
  { exists (KStr []). exists []. exists [].
    repeat split. intros H. contradiction. }
  destruct (decide (c = 27%N)) as [->|Hc].
  2: { rewrite (read_plain isd c src Hc). eexists. exists [c]. exists src.
       split; [reflexivity|]. split; [reflexivity|discriminate]. }
  assert (Hgo : forall (k : key) (rest used : source),
            src = used ++ rest ->
            exists k' used' rest',
              Ok (k, rest) = Ok (k', rest') /\
              27%N :: src = used' ++ rest' /\
              (27%N :: src <> [] -> used' <> [])).
  { intros k rest used ->. exists k. exists (27%N :: used). exists rest.
    repeat split. discriminate. }
  unfold _read. cbn [next].
  rewrite (decide_False (P := [27%N] = [])) by discriminate.
  rewrite (decide_False (P := [27%N] <> [27%N])) by tauto.
  destruct (next src) as [ch1 s1] eqn:E1. apply next_suffix in E1.
  destruct (negb _).
  { apply (Hgo _ _ ch1). exact E1. }
  destruct (SpecialKey.str_in ch1 [lit "?"; lit "O"]).
  { destruct (next s1) as [ch2 s2] eqn:E2. apply next_suffix in E2.
    apply (Hgo _ _ (ch1 ++ ch2)). rewrite <- app_assoc, <- E2. exact E1. }
  destruct (next s1) as [ch2 s2] eqn:E2. apply next_suffix in E2.
  destruct (negb (isdigit isd ch2)).
  { apply (Hgo _ _ (ch1 ++ ch2)). rewrite <- app_assoc, <- E2. exact E1. }
  destruct (read_digits isd s2 _) as [[seq3 ch3] s3] eqn:E3.
  apply read_digits_suffix in E3 as [u3 E3].
  destruct (decide (ch3 <> lit ";")).
  { apply (Hgo _ _ (ch1 ++ ch2 ++ u3)).
    rewrite <- !app_assoc, <- E3, <- E2. exact E1. }
  destruct (read_digits isd s3 _) as [[seq4 ch4] s4] eqn:E4.
  apply read_digits_suffix in E4 as [u4 E4].
  apply (Hgo _ _ (ch1 ++ ch2 ++ u3 ++ u4)).
  rewrite <- !app_assoc, <- E4, <- E3, <- E2. exact E1.
Qed.

(** ESC is reported as the key ESC when the input ends after it, and also
    when the character after it is not one of [?], [O] and [[]: that
    character is consumed and lost. *)
Theorem read_lone_escape (isd : char -> bool) (c : char) (rest : source) :
  _read isd [27%N] = Ok (KSpecial ESC, []) /\
  (c <> 63%N -> c <> 79%N -> c <> 91%N ->
   _read isd (27%N :: c :: rest) = Ok (KSpecial ESC, rest)).
Proof.
  split; [reflexivity|]. intros H1 H2 H3.
  unfold _read. cbn [next].
  rewrite (decide_False (P := [27%N] = [])) by discriminate.
  rewrite (decide_False (P := [27%N] <> [27%N])) by tauto.
  assert (E : SpecialKey.str_in [c] [lit "?"; lit "O"; lit "["] = false).
  { unfold SpecialKey.str_in. cbn [existsb].
    rewrite !bool_decide_eq_false_2; [reflexivity|..];
      intros E; injection E; assumption. }
  rewrite E. reflexivity.
Qed.

(** ** Console input *)

Section InputProperties.
Variable py_int : str -> option Z.

Lemma input_mocked prompt s rest sin out :
  _input prompt (mkConsole (Some (s :: rest)) sin out)
  = (mkConsole (Some rest) sin (out ++ prompt ++ s ++ [10%N]), Returned s).
Proof.
  unfold _input, print. cbn. rewrite app_nil_r, <- !app_assoc. reflexivity.
Qed.

Lemma input_int_loop_refused fuel prompt err min max dflt b rest sin out :
  accepted py_int min max dflt b = None ->
  input_int_loop py_int (S fuel) prompt err min max dflt
    (mkConsole (Some (b :: rest)) sin out)
  = input_int_loop py_int fuel prompt err min max dflt
      (mkConsole (Some rest) sin (out ++ refused_round prompt err b)).
Proof.
  intros Hb. cbn [input_int_loop]. rewrite input_mocked. cbv zeta.
  unfold accepted in Hb. unfold refused_round.
  assert (E : (if decide (err = [])
               then mkConsole (Some rest) sin (out ++ prompt ++ b ++ [10%N])
               else print err [10%N]
                      (mkConsole (Some rest) sin
                         (out ++ prompt ++ b ++ [10%N])))
              = mkConsole (Some rest) sin
                  (out ++ prompt ++ b ++ [10%N]
                   ++ (if decide (err = []) then [] else err ++ [10%N]))).
  { destruct (decide (err = [])).
    - reflexivity.
    - unfold print. cbn. rewrite <- !app_assoc. reflexivity. }
  rewrite E.
  destruct (if decide (b = []) then dflt else None); [discriminate|].
  destruct (py_int b) as [v|]; [|reflexivity].
  destruct (out_of_bounds min max v); [reflexivity|discriminate].
Qed.

Lemma input_int_loop_accepted fuel prompt err min max dflt s v rest sin out :
  accepted py_int min max dflt s = Some v ->
  input_int_loop py_int (S fuel) prompt err min max dflt
    (mkConsole (Some (s :: rest)) sin out)
  = Some (mkConsole (Some rest) sin (out ++ prompt ++ s ++ [10%N]),
          Returned v).
Proof.
  intros Hs. cbn [input_int_loop]. rewrite input_mocked. cbv zeta.
  unfold accepted in Hs.
  destruct (if decide (s = []) then dflt else None); [congruence|].
  destruct (py_int s) as [val|]; [|discriminate].
  destruct (out_of_bounds min max val); [discriminate|congruence].
Qed.

Lemma input_int_loop_mocked prompt err min max dflt sin :
  forall bad fuel tail out,
  Forall (fun b => accepted py_int min max dflt b = None) bad ->
  (List.length bad < fuel)%nat ->
  input_int_loop py_int fuel prompt err min max dflt
    (mkConsole (Some (bad ++ tail)) sin out)
  = input_int_loop py_int (fuel - List.length bad) prompt err min max dflt
      (mkConsole (Some tail) sin
         (out ++ concat (map (refused_round prompt err) bad))).
Proof.
  induction bad as [|b bad IH]; intros fuel tail out Hbad Hfuel.
  - cbn. rewrite Nat.sub_0_r, app_nil_r. reflexivity.
  - apply Forall_cons_iff in Hbad as [Hb Hbad].
    destruct fuel as [|fuel]; [simpl in Hfuel; lia|].
    cbn [app]. rewrite input_int_loop_refused by exact Hb.
    rewrite IH by (try exact Hbad; simpl in Hfuel; lia).
    cbn [map concat List.length Nat.sub]. rewrite <- app_assoc.
    reflexivity.
Qed.

(** With mocked input, [input_int] skips the lines it refuses, printing
    for each the prompt, the line and the error message, and returns the
    value of the first line it accepts, leaving the lines after it; when it
    refuses every line it ends with [EOFError] after a last prompt. *)
Theorem input_int_first_accepted (prompt err : str) (min max dflt : option Z)
  (bad : list str) (sin : list str) (out : str) :
  Forall (fun b => accepted py_int min max dflt b = None) bad ->
  (forall s v rest,
     accepted py_int min max dflt s = Some v ->
     input_int py_int prompt err min max dflt
       (mkConsole (Some (bad ++ s :: rest)) sin out)
     = Some (mkConsole (Some rest) sin
               (out ++ concat (map (refused_round prompt err) bad)
                ++ prompt ++ s ++ [10%N]),
             Returned v)) /\
  input_int py_int prompt err min max dflt (mkConsole (Some bad) sin out)
  = Some (mkConsole (Some []) sin
            (out ++ concat (map (refused_round prompt err) bad) ++ prompt),
          EOFError).
Proof.
  intros Hbad. split.
  - intros s v rest Hs. unfold input_int, pending. cbn [mocked].
    rewrite input_int_loop_mocked
      by (try exact Hbad; rewrite length_app; simpl; lia).
    rewrite length_app. cbn [List.length].
    replace (S (List.length bad + S (List.length rest)) - List.length bad)%nat
      with (S (S (List.length rest))) by lia.
    rewrite (input_int_loop_accepted _ _ _ _ _ _ _ v) by exact Hs.
    rewrite <- !app_assoc. reflexivity.
  - unfold input_int, pending. cbn [mocked].
    pose proof (input_int_loop_mocked prompt err min max dflt sin bad
                  (S (List.length bad)) [] out Hbad ltac:(lia)) as H.
    rewrite app_nil_r in H. rewrite H. clear H.
    replace (S (List.length bad) - List.length bad)%nat with 1%nat by lia.
    cbn. unfold print. cbn. rewrite app_nil_r, <- app_assoc. reflexivity.
Qed.





Lemma input_int_loop_min0 prompt err max dflt : forall fuel w,
  input_int_loop py_int fuel prompt err (Some 0) max dflt w
  = input_int_loop py_int fuel prompt err None max dflt w.
Proof.
  induction fuel as [|fuel IH]; intros w; [reflexivity|].
  cbn [input_int_loop]. destruct (_input prompt w) as [w1 [s|]];
    [|reflexivity].
  cbv zeta. rewrite IH. reflexivity.
Qed.

Lemma input_int_loop_max0 prompt err min dflt : forall fuel w,
  input_int_loop py_int fuel prompt err min (Some 0) dflt w
  = input_int_loop py_int fuel prompt err min None dflt w.
Proof.
  induction fuel as [|fuel IH]; intros w; [reflexivity|].
  cbn [input_int_loop]. destruct (_input prompt w) as [w1 [s|]];
    [|reflexivity].
  cbv zeta. rewrite IH.
  assert (E : forall v, out_of_bounds min (Some 0) v
                        = out_of_bounds min None v).
  { intros v. unfold out_of_bounds. reflexivity. }
  destruct (if decide (s = []) then dflt else None); [reflexivity|].
  destruct (py_int s) as [v|]; [rewrite E|]; reflexivity.
Qed.

(** A bound of 0 is no bound: [min=0] and [max=0] behave as [None], so
    that with [min=0] a negative number is returned. *)
Theorem input_int_zero_bound (prompt err : str) (min max dflt : option Z)
  (w : console) :
  input_int py_int prompt err (Some 0) max dflt w
  = input_int py_int prompt err None max dflt w /\
  input_int py_int prompt err min (Some 0) dflt w
  = input_int py_int prompt err min None dflt w /\
  (forall s v rest sin out,
     py_int s = Some v -> s <> [] -> v < 0 ->
     input_int py_int prompt err (Some 0) None dflt
       (mkConsole (Some (s :: rest)) sin out)
     = Some (mkConsole (Some rest) sin (out ++ prompt ++ s ++ [10%N]),
             Returned v)).
Proof.
  split; [apply input_int_loop_min0|]. split; [apply input_int_loop_max0|].
  intros s v rest sin out Hv Hs Hneg. unfold input_int, pending.
  cbn [mocked List.length]. apply input_int_loop_accepted.
  unfold accepted. rewrite decide_False by exact Hs. rewrite Hv.
  reflexivity.
Qed.
End InputProperties.

(** The lines [x], [-5] and [32] with [min=15]: [x] and [-5] are refused,
    32 is returned. *)
Lemma input_int_first_accepted_witness :
  input_int sample_int (lit "? ") (lit "no") (Some 15) None None
    (mkConsole (Some [lit "x"; lit "-5"; lit "32"; lit "y"]) [] [])
  = Some (mkConsole (Some [lit "y"]) []
            (lit "? x" ++ [10%N] ++ lit "no" ++ [10%N] ++
             lit "? -5" ++ [10%N] ++ lit "no" ++ [10%N] ++
             lit "? 32" ++ [10%N]),
          Returned 32).
Proof.
  apply (proj1 (input_int_first_accepted sample_int (lit "? ") (lit "no")
                  (Some 15) None None [lit "x"; lit "-5"] [] []
                  ltac:(repeat constructor))
           (lit "32") 32 [lit "y"]).
  reflexivity.
Defined.

(** With [min=0] the line [-5] is returned. *)
Lemma input_int_zero_bound_witness :
  input_int sample_int (lit "? ") [] (Some 0) None None
    (mkConsole (Some [lit "-5"]) [] [])
  = Some (mkConsole (Some []) [] (lit "? -5" ++ [10%N]), Returned (-5)).
Proof.
  apply (proj2 (proj2 (input_int_zero_bound sample_int (lit "? ") []
                         None None None (mkConsole None [] [])))
           (lit "-5") (-5) [] [] []);
    [reflexivity|discriminate|lia].
Defined.


(** ** The further properties on sample values *)

Lemma sample_wf : wf sample.
Proof. repeat split; [discriminate|repeat constructor; discriminate]. Qed.

(** The default style has the empty SGR string. *)
Lemma sgr_empty_iff_witness : Style.sgr default = [].
Proof.
  apply (proj2 (sgr_empty_iff default)).
  repeat split; try reflexivity; left; reflexivity.
Defined.

(** The constructor on [ab] and [sample]. *)
Lemma init_content_witness :
  exists r, AnsiStr.init [AStr (lit "ab"); AAnsi sample] = Ok r /\ wf r /\
            AnsiStr.content r = lit "ababc" /\ length r = 5.
Proof.
  apply (init_content [AStr (lit "ab"); AAnsi sample]).
  repeat constructor; discriminate.
Defined.

(** Concatenation with the empty string, on [sample]. *)
Lemma add_monoid_witness :
  AnsiStr.add sample (AAnsi empty_str) = Ok sample /\
  AnsiStr.add empty_str (AAnsi sample) = Ok sample.
Proof.
  destruct (add_monoid sample sample sample sample_wf sample_wf sample_wf)
    as (_ & Hr & Hl & _).
  split; [exact Hr|exact Hl].
Defined.

(** The slice [sample[1:]]. *)
Lemma slice_content_witness :
  exists r, AnsiStr.getitem sample (AnsiStr.ISlice (Some 1) None None) = Ok r
            /\ wf r /\ AnsiStr.content r = lit "bc".
Proof. apply (slice_content sample (Some 1) None sample_wf). Defined.

(** [sample[:1] + sample[1:]] is [sample]. *)
Lemma slice_rejoin_witness :
  (do l <- AnsiStr.getitem sample (AnsiStr.ISlice None (Some 1) None);
   do r <- AnsiStr.getitem sample (AnsiStr.ISlice (Some 1) None None);
   AnsiStr.add l (AAnsi r)) = Ok sample.
Proof. exact (slice_rejoin sample 1 sample_wf). Defined.

(** The slices [sample[::2]] and [sample[::0]]. *)
Lemma slice_stride_rejected_witness :
  AnsiStr.getitem sample (AnsiStr.ISlice None None (Some 2))
  = Raise AssertionError /\
  AnsiStr.getitem sample (AnsiStr.ISlice None None (Some 0))
  = Raise (ValueError (lit "slice step cannot be zero")).
Proof.
  assert (H : 0 <= length sample) by (simpl; lia). split.
  - apply (proj2 (slice_stride_rejected sample None None 2 H)); lia.
  - apply (proj1 (slice_stride_rejected sample None None 0 H)). reflexivity.
Defined.

(** [sample * 0] is the empty string. *)
Lemma mul_content_witness :
  exists r, AnsiStr.mul sample 0 = Ok r /\ r = empty_str.
Proof.
  destruct (mul_content sample 0) as (r & Hr & _ & _ & _ & Hz).
  exists r. split; [exact Hr|apply Hz; lia].
Defined.

(** The default style applied to [sample]. *)
Lemma truediv_laws_witness :
  AnsiStr.truediv sample (IsStyle default) = Ok sample.
Proof.
  exact (proj1 (truediv_laws sample default default (Named DEFAULT)
                  (Named DEFAULT) sample_wf)).
Defined.

(** The letter [a] has width 1. *)
Lemma wcwidth_char_witness : exists w, _wcwidth [97%N] = Ok w /\ w = 1.
Proof.
  destruct (wcwidth_char 97%N) as (_ & w & Hw & _ & _ & H1).
  exists w. split; [exact Hw|apply H1; lia].
Defined.

(** The width of [sample + sample]. *)
Lemma width_add_truediv_witness :
  exists r wa wb, AnsiStr.add sample (AAnsi sample) = Ok r /\
                  AnsiStr_width sample = Ok wa /\
                  AnsiStr_width sample = Ok wb /\
                  AnsiStr_width r = Ok (wa + wb).
Proof.
  exact (proj1 (width_add_truediv sample sample (IsStyle default)
                  sample_wf sample_wf)).
Defined.

(** On a new grid [ab] fits at column 0 and two wide characters do not. *)
Lemma setitem_room_witness :
  (exists g', CharGrid.setitem CharGrid.new 0 0 (TStr (lit "ab")) = Ok g') /\
  CharGrid.setitem CharGrid.new 0 0 (TStr [0x1f7e5%N; 0x1f7e5%N])
  = Raise IndexError.
Proof.
  split.
  - apply (setitem_room CharGrid.new 0 0 (TStr (lit "ab")) I
             ltac:(discriminate) ltac:(lia) ltac:(lia)).
    vm_compute. discriminate.
  - apply (setitem_room CharGrid.new 0 0 (TStr [0x1f7e5%N; 0x1f7e5%N]) I
             ltac:(discriminate) ltac:(lia) ltac:(lia)).
    vm_compute. reflexivity.
Defined.

(** A wide character written on a new grid is followed by its
    placeholder. *)
Lemma setitem_writes_witness :
  exists g', CharGrid.setitem CharGrid.new 0 0 (TStr [0x1f7e5%N]) = Ok g' /\
             cell_at g' 0 1 = Some (Some cstr.empty).
Proof.
  eexists. split; [reflexivity|].
  apply (setitem_writes CharGrid.new _ 0 0 (TStr [0x1f7e5%N]) I
           ltac:(discriminate) eq_refl 1%nat).
  reflexivity.
Defined.

(** Writing [ab] at line 1, column 2 of a new grid leaves two lines, the
    second of five cells. *)
Lemma setitem_grows_witness :
  exists g', CharGrid.setitem CharGrid.new 1 2 (TStr (lit "ab")) = Ok g' /\
             len (lines g') = 2 /\ line_len g' 1 = 5.
Proof.
  eexists. split; [reflexivity|].
  destruct (setitem_grows CharGrid.new _ 1 2 (TStr (lit "ab")) I
              ltac:(discriminate) eq_refl) as (H1 & H2 & _).
  split; [exact H1|exact H2].
Defined.

(** Negative indices with an empty and with a non-empty text. *)
Lemma setitem_checks_witness :
  CharGrid.setitem CharGrid.new (-1) (-1) (TStr []) = Ok CharGrid.new /\
  CharGrid.setitem CharGrid.new (-1) 0 (TStr (lit "a"))
  = Raise AssertionError.
Proof.
  split.
  - apply (proj1 (setitem_checks CharGrid.new (-1) (-1) (TStr []) I)).
    reflexivity.
  - apply (proj2 (setitem_checks CharGrid.new (-1) 0 (TStr (lit "a")) I));
      [discriminate|left; lia].
Defined.

(** On a line that starts with a wide character, writing [x] at column 1
    leaves a space at column 0 and nothing at column 3. *)
Lemma setitem_frame_witness :
  exists g1 g2,
    CharGrid.setitem CharGrid.new 0 0 (TStr [0x1f7e5%N]) = Ok g1 /\
    CharGrid.setitem g1 0 1 (TStr (lit "x")) = Ok g2 /\
    view g2 0 0 = Some space /\ view g2 0 3 = view g1 0 3.
Proof.
  eexists. eexists. split; [reflexivity|]. split; [reflexivity|].
  match goal with
  | |- view ?g2 _ _ = _ /\ view _ _ _ = view ?g1 _ _ =>
      assert (Hok : grid_ok g1)
        by (apply (setitem_keeps_ok CharGrid.new g1 0 0 (TStr [0x1f7e5%N]));
            [apply Forall_nil; exact I|exact I|reflexivity]);
      destruct (setitem_frame g1 g2 0 1 (TStr (lit "x")) Hok I
                  ltac:(discriminate) eq_refl) as (_ & Hout & Hleft & _)
  end.
  split.
  - apply (Hleft ltac:(lia)).
  - apply Hout. right. vm_compute. reflexivity.
Defined.

(** The grid with one wide character satisfies the invariant. *)
Lemma setitem_invariant_witness :
  exists g', CharGrid.setitem CharGrid.new 0 0 (TStr [0x1f7e5%N]) = Ok g' /\
             grid_ok g'.
Proof.
  eexists. split; [reflexivity|].
  apply (proj2 setitem_invariant CharGrid.new _ 0 0 (TStr [0x1f7e5%N])
           (proj1 setitem_invariant) I eq_refl).
Defined.

(** A line of one letter and one absent cell has width 1. *)
Lemma width_least_witness :
  let g := mkCharGrid [[Some (cstr.of_str (lit "a")); None]] in
  CharGrid.width g = 1 /\
  exists lin, 0 <= lin /\ view g lin (CharGrid.width g - 1) <> None.
Proof.
  intros g. split; [reflexivity|].
  apply (proj2 (proj2 (width_least g))). reflexivity.
Defined.

(** The third sequence of HOME. *)
Lemma get_finds_key_witness : SpecialKey.get (lit "[1~") = KSpecial HOME.
Proof.
  apply (get_finds_key HOME). cbn. right. right. left. reflexivity.
Defined.

(** Control and the up arrow, followed by [x]. *)
Lemma read_escape_sequence_witness :
  _read (fun _ => false) (27%N :: lit "[1;5A" ++ lit "x")
  = Ok (KSpecial CRTL_UP, lit "x").
Proof.
  apply (read_escape_sequence (fun _ => false) CRTL_UP (lit "[1;5A")
           (lit "x")); [left; reflexivity|discriminate..].
Defined.

(** Reading from the input [a] consumes a character. *)
Lemma read_total_witness :
  exists (k : key) (used rest : source),
    _read (fun _ => false) (lit "a") = Ok (k, rest) /\ used <> [].
Proof.
  destruct (read_total (fun _ => false) (lit "a"))
    as (k & used & rest & H & _ & Hn).
  exists k. exists used. exists rest.
  split; [exact H|apply Hn; discriminate].
Defined.

(** ESC followed by [ab]: the [a] is lost. *)
Lemma read_lone_escape_witness :
  _read (fun _ => false) (27%N :: lit "ab") = Ok (KSpecial ESC, lit "b").
Proof.
  apply (proj2 (read_lone_escape (fun _ => false) 97%N (lit "b")));
    discriminate.
Defined.

(** A wide character and [a] written on the second line of a new grid: both
    rows take three columns. *)
Lemma print_content_width_witness :
  exists g',
    CharGrid.setitem CharGrid.new 1 0 (TStr [0x1f7e5%N; 97%N]) = Ok g' /\
    Forall (fun row => wcswidth row = Ok 3) (CharGrid.print_content g').
Proof.
  eexists. split; [reflexivity|].
  match goal with
  | |- Forall _ (CharGrid.print_content ?g1) =>
      assert (Hok : grid_ok g1)
        by (apply (setitem_keeps_ok CharGrid.new g1 1 0
                     (TStr [0x1f7e5%N; 97%N]));
            [apply Forall_nil; exact I|exact I|reflexivity]);
      assert (Hplain : grid_plain g1)
        by (apply (setitem_keeps_plain CharGrid.new g1 1 0
                     (TStr [0x1f7e5%N; 97%N]));
            [apply Forall_nil; exact I|exact I| |reflexivity];
            repeat (apply Forall_cons_iff; split;
                    [unfold is_control; lia|]);
            apply Forall_nil; exact I);
      exact (proj2 (print_content_width g1 Hok Hplain))
  end.
Defined.

(** The grid with [ab] on it holds no control character. *)
Lemma setitem_plain_witness :
  exists g', CharGrid.setitem CharGrid.new 0 0 (TStr (lit "ab")) = Ok g' /\
             grid_plain g'.
Proof.
  eexists. split; [reflexivity|].
  apply (proj2 setitem_plain CharGrid.new _ 0 0 (TStr (lit "ab"))
           (proj1 setitem_plain) I); [|reflexivity].
  unfold text_plain. cbn.
  repeat (apply Forall_cons_iff; split; [unfold is_control; lia|]).
  apply Forall_nil; exact I.
Defined.
